(** * AutoSocial: discovery, rate budgeting, scoring and clustering

    A shallow embedding of the trend-discovery pipeline of AutoSocial
    (src/providers/RedditProvider.ts, the trending analysis service and the
    /api/trending/discover route) together with the properties of the
    specification that concern it.

    Conventions of the embedding.
    - JavaScript numbers that hold counters and millisecond timestamps are
      integers ([Z]); fractional quantities are rationals ([Q]).  The
      arithmetic of the engagement scores, of the recency bonus, of the
      discovery gate and of the sentiment shares is double-precision
      arithmetic, rounded operation by operation (module [Double]); the
      averages of the aggregate scores are exact.
      [Math.round x] is [floor (x + 1/2)].
    - [Date.now()] reads a simulated clock kept in the state, and
      [await new Promise(r => setTimeout(r, ms))] advances that clock by
      [ms] (a non-positive delay does not wait).
    - Optional fields ([trend_category?], [sentiment?], missing metrics) are
      [option]s; JavaScript truthiness of strings is non-emptiness.
    - A [Set] is a [gset]; a plain object used as a dictionary is an
      association list in insertion order, enumerated by [Object.entries]
      in JavaScript's own-property order. *)

From Stdlib Require Import ZArith QArith Qround Qpower Qabs Qfield Field Lia Lqa Ascii String.
From stdpp Require Import base decidable option list gmap strings sorting.

Local Open Scope Z_scope.

(** ** Simulated clock *)

Module Clock.

(** [await new Promise(resolve => setTimeout(resolve, ms))] *)
Definition sleep (ms now : Z) : Z := now + Z.max 0 ms.

End Clock.

(** ** RedditProvider: rate limiting *)

Module RateLimit.

Definition MAX_REQUESTS_PER_MINUTE : nat := 100.
Definition MAX_REQUESTS_PER_10_MIN : nat := 996.

(** The static mutable fields of [RedditProvider], and the clock. *)
Record World := mkWorld {
  clock : Z;
  requestTimestamps : list Z;
  lastRequestTime : Z
}.

(** [requestTimestamps = []], [lastRequestTime = 0]. *)
Definition initial (now : Z) : World :=
  {| clock := now; requestTimestamps := []; lastRequestTime := 0 |}.

Definition sleep (ms : Z) (w : World) : World :=
  {| clock := Clock.sleep ms (clock w);
     requestTimestamps := requestTimestamps w;
     lastRequestTime := lastRequestTime w |}.

(** Time passing outside the limiter (network latency, other work). *)
Definition elapse (d : N) (w : World) : World :=
  {| clock := clock w + Z.of_N d;
     requestTimestamps := requestTimestamps w;
     lastRequestTime := lastRequestTime w |}.

(** [this.requestTimestamps[i]]; every use below is guarded by a length
    test that puts [i] in range. *)
Definition at_index (ts : list Z) (i : nat) : Z := default 0 (ts !! i).

(** [checkRateLimit()] *)
Definition checkRateLimit (w : World) : World :=
  let now := clock w in
  let ts := filter (λ timestamp, now - timestamp < 10 * 60 * 1000)
                   (requestTimestamps w) in
  let recentRequests :=
    length (filter (λ timestamp, now - timestamp < 60 * 1000) ts) in
  let w1 :=
    if decide (MAX_REQUESTS_PER_MINUTE ≤ recentRequests)%nat
    then sleep (60000 - (now - at_index ts (length ts - MAX_REQUESTS_PER_MINUTE))) w
    else w in
  let w2 :=
    if decide (MAX_REQUESTS_PER_10_MIN ≤ length ts)%nat
    then sleep (10 * 60 * 1000 - (now - at_index ts 0)) w1
    else w1 in
  let w3 :=
    if decide (now - lastRequestTime w < 600)
    then sleep (600 - (now - lastRequestTime w)) w2
    else w2 in
  {| clock := clock w3;
     requestTimestamps := ts ++ [clock w3];
     lastRequestTime := clock w3 |}.

(** A client of the limiter, seen from the clock: time passes, or a
    request goes through [checkRateLimit]. *)
Inductive Op := Elapse (d : N) | Acquire.

(** Runs the operations in order; the second component collects the
    timestamp recorded for each request let through, most recent first. *)
Fixpoint run (ops : list Op) (w : World) (recorded : list Z) : World * list Z :=
  match ops with
  | [] => (w, recorded)
  | Elapse d :: ops' => run ops' (elapse d w) recorded
  | Acquire :: ops' =>
      let w' := checkRateLimit w in
      run ops' w' (clock w' :: recorded)
  end.

(** The rolling window of width [width] ending at [c]: what the filters of
    [checkRateLimit] select at time [c]. *)
Definition in_window (width c t : Z) : Prop := c - t < width ∧ t ≤ c.

Definition window_count (width c : Z) (recorded : list Z) : nat :=
  length (filter (in_window width c) recorded).

End RateLimit.

(** ** Strings

    The string primitives of JavaScript the pipeline uses, on ASCII text. *)

Module Text.
Local Open Scope nat_scope.
Local Open Scope string_scope.

Definition truthy (s : string) : bool := negb (String.eqb s "").

(** [s || d] on strings *)
Definition or_else (s d : string) : string := if truthy s then s else d.

(** [o || d] on a possibly missing string *)
Definition opt_or (o : option string) (d : string) : string :=
  match o with Some s => or_else s d | None => d end.

Definition lower_char (c : ascii) : ascii :=
  let n := Ascii.N_of_ascii c in
  if (65 <=? n)%N && (n <=? 90)%N then Ascii.ascii_of_N (n + 32) else c.

Fixpoint toLowerCase (s : string) : string :=
  match s with
  | EmptyString => EmptyString
  | String c s' => String (lower_char c) (toLowerCase s')
  end.

Definition startsWith (s p : string) : bool := String.prefix p s.

Fixpoint includes (s needle : string) : bool :=
  String.prefix needle s ||
  match s with
  | EmptyString => false
  | String _ s' => includes s' needle
  end.

Fixpoint drop (n : nat) (s : string) : string :=
  match n, s with
  | S k, String _ s' => drop k s'
  | _, _ => s
  end.

(** [\w] *)
Definition isWordChar (c : ascii) : bool :=
  let n := Ascii.N_of_ascii c in
  ((48 <=? n) && (n <=? 57) || (65 <=? n) && (n <=? 90)
   || (97 <=? n) && (n <=? 122) || (n =? 95))%N.

Fixpoint word_prefix (s : string) : string :=
  match s with
  | String c s' => if isWordChar c then String c (word_prefix s') else EmptyString
  | EmptyString => EmptyString
  end.

(** [s.match(/p\w+/g) || []] for a literal prefix [p]: the matches from
    left to right, scanning on after each match.  [skip] counts the
    characters of the last match still to pass over. *)
Fixpoint match_tags (p s : string) (skip : nat) : list string :=
  match s with
  | EmptyString => []
  | String _ s' =>
      match skip with
      | S k => match_tags p s' k
      | O =>
          if String.prefix p s then
            let w := word_prefix (drop (String.length p) s) in
            if truthy w
            then (p ++ w) :: match_tags p s' (String.length (p ++ w) - 1)
            else match_tags p s' 0
          else match_tags p s' 0
      end
  end.

(** [s.replace(/&amp;/g, '&')] *)
Fixpoint unescape_amp (s : string) (skip : nat) : string :=
  match s with
  | EmptyString => EmptyString
  | String c s' =>
      match skip with
      | S k => unescape_amp s' k
      | O => if String.prefix "&amp;" s then String "&" (unescape_amp s' 4)
             else String c (unescape_amp s' 0)
      end
  end.

(** [s.split('_')[0]] *)
Fixpoint before_underscore (s : string) : string :=
  match s with
  | EmptyString => EmptyString
  | String c s' =>
      if Ascii.eqb c "_" then EmptyString else String c (before_underscore s')
  end.

(** [words.some(term => a.includes(term) || b.includes(term))] *)
Definition some_term_in (terms : list string) (a b : string) : bool :=
  existsb (λ term, includes a term || includes b term) terms.

(** [words.filter(word => text.includes(word)).length] *)
Definition count_present (words : list string) (text : string) : nat :=
  length (List.filter (λ word, includes text word) words).

End Text.

(** ** Plain objects used as dictionaries

    [{ [key: string]: V }]: the entries in insertion order.  Keys are taken
    to differ from the property names every object inherits
    ([constructor], [toString], ...). *)

Module Dict.
Local Open Scope nat_scope.

Definition t (V : Type) : Type := list (string * V).

Fixpoint get {V} (d : t V) (key : string) : option V :=
  match d with
  | [] => None
  | (k, v) :: d' => if String.eqb k key then Some v else get d' key
  end.

(** [d[key] = v]: overwrites in place, or appends a new property. *)
Fixpoint set {V} (d : t V) (key : string) (v : V) : t V :=
  match d with
  | [] => [(key, v)]
  | (k, v') :: d' =>
      if String.eqb k key then (k, v) :: d' else (k, v') :: set d' key v
  end.

Definition is_digit (c : ascii) : bool :=
  let n := Ascii.N_of_ascii c in ((48 <=? n) && (n <=? 57))%N.

Fixpoint digits_value (s : string) (acc : N) : option N :=
  match s with
  | EmptyString => Some acc
  | String c s' =>
      if is_digit c
      then digits_value s' (10 * acc + (Ascii.N_of_ascii c - 48))%N
      else None
  end.

(** An array index: a canonical decimal numeral below [2^32 - 1]. *)
Definition array_index (key : string) : option N :=
  match key with
  | EmptyString => None
  | String c rest =>
      if Ascii.eqb c "0" && Text.truthy rest then None
      else match digits_value key 0 with
           | Some n => if (n <? 4294967295)%N then Some n else None
           | None => None
           end
  end.

Definition is_index {V} (e : string * V) : bool :=
  match array_index e.1 with Some _ => true | None => false end.

Definition index_of {V} (e : string * V) : N :=
  default 0%N (array_index e.1).

Fixpoint insert_by_index {V} (e : string * V) (l : t V) : t V :=
  match l with
  | [] => [e]
  | e' :: l' =>
      if (index_of e <? index_of e')%N then e :: l
      else e' :: insert_by_index e l'
  end.

(** [Object.entries(d)]: array-index keys in ascending numeric order,
    then the other keys in insertion order. *)
Definition entries {V} (d : t V) : list (string * V) :=
  foldr insert_by_index [] (List.filter is_index d)
  ++ List.filter (λ e, negb (is_index e)) d.

(** [Object.keys(d)] *)
Definition keys {V} (d : t V) : list string := (entries d).*1.

End Dict.

(** ** Arrays *)

Module Array.

(** Insertion of [x] in front of a list sorted by the comparator [cmp]
    (negative when its first argument goes first): [x] passes the
    elements that strictly precede it and stops before an equal one, so
    equal elements keep their original order. *)
Fixpoint insert_sorted {A} (cmp : A → A → Z) (x : A) (l : list A) : list A :=
  match l with
  | [] => [x]
  | y :: l' => if cmp x y <=? 0 then x :: l else y :: insert_sorted cmp x l'
  end.

(** [array.sort(cmp)], a stable sort. *)
Definition sort {A} (cmp : A → A → Z) (l : list A) : list A :=
  foldr (insert_sorted cmp) [] l.

(** [array.slice(0, n)] *)
Definition slice0 {A} (n : nat) (l : list A) : list A := take n l.

End Array.

(** ** Numbers

    A JavaScript number is an IEEE 754 binary64.  Counters, timestamps and
    scores are integers and are kept as integers.  Where the code multiplies
    or divides into fractions, the result of each operation is the exact
    result rounded to 53 significant bits, to the nearest such number and to
    the even one of two equally near, with gradual underflow below
    [2^-1022]; a number is represented by its exact rational value.
    Overflow, which sets in at [2^1024], is out of the reach of the counters
    and timestamps of a post and is left out. *)

Module Double.

(** The [e] with [2^e <= x < 2^(e+1)], for a positive [x]. *)
Definition exponent (x : Q) : Z :=
  let e := Z.log2 (Qnum x) - Z.log2 (Zpos (Qden x)) in
  if Qle_bool (2 ^ e) x then e else e - 1.

(** The nearest integer, the even one of two equally near. *)
Definition nearest_even (q : Q) : Z :=
  let f := Qfloor q in
  match (q - inject_Z f ?= 1 # 2)%Q with
  | Lt => f
  | Gt => f + 1
  | Eq => if Z.even f then f else f + 1
  end.

(** The exponent of the format for [x]: no less than -1022, below which the
    numbers are subnormal and keep the spacing [2^-1074]. *)
Definition binade (x : Q) : Z := Z.max (exponent x) (-1022).

(** A positive number rounded to 53 significant bits, to fewer where it is
    subnormal. *)
Definition round_pos (x : Q) : Q :=
  let ulp := (2 ^ (binade x - 52))%Q in
  (inject_Z (nearest_even (x / ulp)) * ulp)%Q.

Definition round (x : Q) : Q :=
  match (x ?= 0)%Q with
  | Eq => 0%Q
  | Gt => round_pos x
  | Lt => (- round_pos (- x))%Q
  end.

(** The number a decimal stands for, in the source text or in a JSON
    response. *)
Definition literal (decimal : Q) : Q := round decimal.

Definition add (x y : Q) : Q := round (x + y).
Definition sub (x y : Q) : Q := round (x - y).
Definition mul (x y : Q) : Q := round (x * y).
Definition div (x y : Q) : Q := round (x / y).

End Double.

(** ** src/types/trending.ts *)

Inductive Sentiment := positive | negative | neutral.

Global Instance Sentiment_eq_dec : EqDecision Sentiment.
Proof. solve_decision. Defined.

(** [TrendingPost]; dates are milliseconds since the epoch. *)
Record TrendingPost := mkTrendingPost {
  id : string;
  platform : string;
  platform_post_id : string;
  author_username : string;
  author_display_name : string;
  author_followers : Z;
  content : string;
  media_urls : list string;
  hashtags : list string;
  mentions : list string;
  post_url : string;
  engagement_score : Z;
  likes : Z;
  shares : Z;
  comments : Z;
  views : Z;
  published_at : Z;
  discovered_at : Z;
  trend_category : option string;
  sentiment : option Sentiment
}.

(** [Math.round] *)
Definition Math_round (x : Q) : Z := Qfloor (x + (1 # 2))%Q.

(** [(a, b) => b.engagement_score - a.engagement_score] *)
Definition by_engagement_desc (a b : TrendingPost) : Z :=
  engagement_score b - engagement_score a.

(** ** src/providers/RedditProvider.ts: normalisation and scoring *)

Module RedditProvider.
Import RateLimit.
Local Open Scope string_scope.

(** [RedditPost].  [media] stands for [media?.reddit_video?.fallback_url]
    and [preview] for [preview?.images?.[0]?.source?.url]. *)
Record RedditPost := mkRedditPost {
  rid : string;
  title : string;
  selftext : string;
  author : string;
  subreddit : string;
  score : Z;
  upvote_ratio : Q;
  num_comments : Z;
  url : string;
  permalink : string;
  thumbnail : string;
  created_utc : Z;
  over_18 : bool;
  stickied : bool;
  is_video : bool;
  media : option string;
  preview : option string
}.

Definition BASE_URL : string := "https://www.reddit.com".
Definition MAX_ITEMS_PER_SUBREDDIT : Z := 1000.
Definition ITEMS_PER_REQUEST : Z := 100.

(** [x || d] on numbers *)
Definition num_or (x d : Q) : Q := if Qeq_bool x 0 then d else x.

Definition Qltb (x y : Q) : bool := negb (Qle_bool y x).

(** [post.upvote_ratio]: the field of the record holds the decimal of the
    response, this is the number [JSON.parse] makes of it. *)
Definition ratio (post : RedditPost) : Q := Double.literal (upvote_ratio post).

(** [isValidPost] *)
Definition isValidPost (post : RedditPost) : bool :=
  Text.truthy (title post)
  && (5 <? String.length (title post))%nat
  && negb (stickied post)
  && negb (over_18 post)
  && (50 <? score post)%Z
  && (5 <? num_comments post)%Z
  && Qltb (Double.literal (6 # 10)) (ratio post)
  && negb (String.eqb (author post) "[deleted]")
  && Text.truthy (subreddit post)
  && negb (Text.includes (Text.toLowerCase (title post)) "test").

(** [calculateRecencyBonus], at clock reading [now] *)
Definition calculateRecencyBonus (now createdUtc : Z) : Q :=
  let hoursAgo :=
    Double.div (Double.sub (Double.div (inject_Z now) 1000) (inject_Z createdUtc)) 3600 in
  if Qle_bool hoursAgo 2 then 100%Q
  else if Qle_bool hoursAgo 6 then 50%Q
  else if Qle_bool hoursAgo 12 then 25%Q
  else 0%Q.

(** [calculateEngagementScore] *)
Definition calculateEngagementScore (now : Z) (post : RedditPost) : Z :=
  let adjustedUpvotes :=
    Double.mul (inject_Z (score post)) (num_or (ratio post) (Double.literal (1 # 2))) in
  let commentWeight := inject_Z (num_comments post * 3) in
  let ratioBonus :=
    if Qltb (Double.literal (8 # 10)) (num_or (ratio post) 0)
    then Double.mul (inject_Z (score post)) (Double.literal (1 # 2)) else 0%Q in
  let recencyBonus := calculateRecencyBonus now (created_utc post) in
  Math_round
    (Double.add (Double.add (Double.add adjustedUpvotes commentWeight) ratioBonus)
       recencyBonus).

(** [categorizeRedditPost] *)
Definition categorizeRedditPost (post : RedditPost) : string :=
  let subreddit := Text.toLowerCase (subreddit post) in
  let content := Text.toLowerCase (title post ++ " " ++ Text.or_else (selftext post) "") in
  if Text.some_term_in
       ["technology"; "programming"; "webdev"; "javascript"; "python";
        "machinelearning"; "artificial"; "crypto"; "bitcoin"; "ethereum"]
       subreddit content then "Technology"
  else if Text.some_term_in
       ["movies"; "television"; "music"; "entertainment"; "celebrity";
        "netflix"; "gaming"; "games"] subreddit content then "Entertainment"
  else if Text.some_term_in
       ["sports"; "nfl"; "nba"; "soccer"; "football"; "basketball"; "hockey";
        "baseball"] subreddit content then "Sports"
  else if Text.some_term_in
       ["news"; "worldnews"; "politics"; "political"; "election"; "government"]
       subreddit content then "News & Politics"
  else if Text.some_term_in
       ["business"; "finance"; "investing"; "stocks"; "economy"; "entrepreneur";
        "startup"] subreddit content then "Business"
  else if Text.some_term_in
       ["food"; "fitness"; "fashion"; "travel"; "health"; "cooking"; "style";
        "beauty"] subreddit content then "Lifestyle"
  else if Text.some_term_in
       ["meme"; "dankmemes"; "funny"; "viral"; "internetculture"; "socialmedia"]
       subreddit content then "Social Media"
  else "General".

(** [extractMediaUrls] *)
Definition extractMediaUrls (post : RedditPost) : list string :=
  let u := url post in
  (if Text.truthy u
      && (Text.includes u ".jpg" || Text.includes u ".png"
          || Text.includes u ".gif" || Text.includes u ".mp4")
   then [u] else [])
  ++ (match media post with
      | Some m => if Text.truthy m then [m] else []
      | None => []
      end)
  ++ (match preview post with
      | Some p => if Text.truthy p then [Text.unescape_amp p 0] else []
      | None => []
      end)
  ++ (if Text.truthy (thumbnail post) && Text.startsWith (thumbnail post) "http"
      then [thumbnail post] else []).

(** [analyzeSentiment] *)
Definition analyzeSentiment (text : string) : Sentiment :=
  let positiveWords :=
    ["amazing"; "awesome"; "great"; "excellent"; "fantastic"; "wonderful";
     "love"; "best"; "incredible"; "brilliant"] in
  let negativeWords :=
    ["terrible"; "awful"; "horrible"; "worst"; "hate"; "disgusting";
     "disappointed"; "failed"; "disaster"; "tragic"] in
  let lowerText := Text.toLowerCase text in
  let positiveCount := Text.count_present positiveWords lowerText in
  let negativeCount := Text.count_present negativeWords lowerText in
  if (negativeCount <? positiveCount)%nat then positive
  else if (positiveCount <? negativeCount)%nat then negative
  else neutral.

Definition newline : string := String "010"%char EmptyString.

(** [transformPost], at clock reading [now] *)
Definition transformPost (now : Z) (post : RedditPost) : TrendingPost :=
  let hashtags :=
    ("#" ++ Text.toLowerCase (subreddit post)) :: Text.match_tags "#" (title post) 0 in
  let mentions := Text.match_tags "u/" (title post) 0 in
  let engagementScore := calculateEngagementScore now post in
  let category := categorizeRedditPost post in
  let mediaUrls := extractMediaUrls post in
  let content :=
    if Text.truthy (selftext post)
    then title post ++ newline ++ newline ++ selftext post
    else title post in
  {| id := "reddit_" ++ rid post;
     platform := "reddit";
     platform_post_id := subreddit post ++ "_" ++ rid post;
     author_username := author post;
     author_display_name := author post;
     author_followers := 0;
     content := content;
     media_urls := mediaUrls;
     hashtags := hashtags;
     mentions := mentions;
     post_url := BASE_URL ++ permalink post;
     engagement_score := engagementScore;
     likes := score post;
     shares := num_comments post;
     comments := num_comments post;
     views := 0;
     published_at := created_utc post * 1000;
     discovered_at := now;
     trend_category := Some category;
     sentiment := Some (analyzeSentiment (title post)) |}.

(** [transformRedditData] *)
Definition transformRedditData (now : Z) (posts : list RedditPost) : list TrendingPost :=
  transformPost now <$> List.filter isValidPost posts.

(** [removeDuplicatePosts]: the filter callback threads the [seen] set. *)
Fixpoint dedup_from (seen : gset string) (posts : list TrendingPost) : list TrendingPost :=
  match posts with
  | [] => []
  | post :: rest =>
      let key := platform_post_id post in
      if decide (key ∈ seen) then dedup_from seen rest
      else post :: dedup_from ({[key]} ∪ seen) rest
  end.

Definition removeDuplicatePosts (posts : list TrendingPost) : list TrendingPost :=
  dedup_from ∅ posts.

(** *** Paginated fetching *)

(** What one [fetch] of a listing page comes back with. *)
Inductive Response :=
| Rejected                                   (* [fetch] or [response.json()] throws *)
| Status (code : Z)                          (* a status outside 200..299: [!response.ok] *)
| Listing (children : list RedditPost) (cursor : option string).

Record Reply := mkReply { latency : N; response : Response }.

(** The remote side: the reply to the n-th request of the run. *)
Definition Server : Type := nat → Reply.

(** What the fetcher does that is visible from outside. *)
Inductive Event :=
| Request (subreddit : string) (page : Z) (cursor : option string)
| Backoff (ms : Z).

(** The surroundings of a fetch: limiter and clock, the number of requests
    issued so far and the events so far, most recent first. *)
Record Env := mkEnv { world : World; sent : nat; events : list Event }.

(** The local variables of the loop of [fetchMaxViralPosts]. *)
Record Locals := mkLocals {
  page : Z;
  after : option string;
  allPosts : list TrendingPost
}.

Inductive Flow :=
| Continue (e : Env) (l : Locals)
| Break (e : Env) (l : Locals)
| Throw (e : Env).

(** [data.data.after || null] *)
Definition cursor_or_null (c : option string) : option string :=
  match c with
  | Some a => if Text.truthy a then Some a else None
  | None => None
  end.

Definition backoffTime (page : Z) : Z := Z.min (1000 * 2 ^ page) 30000.

(** The body of the [for] loop, without the [page++] of its header. *)
Definition iteration (srv : Server) (subreddit : string) (e : Env) (l : Locals) : Flow :=
  let w := checkRateLimit (world e) in
  let reply := srv (sent e) in
  let e1 := {| world := elapse (latency reply) w;
               sent := S (sent e);
               events := Request subreddit (page l) (after l) :: events e |} in
  match response reply with
  | Rejected => Throw e1
  | Status code =>
      if decide (code = 429) then
        let ms := backoffTime (page l) in
        Continue {| world := sleep ms (world e1);
                    sent := sent e1;
                    events := Backoff ms :: events e1 |}
                 {| page := page l - 1; after := after l; allPosts := allPosts l |}
      else Break e1 l
  | Listing children cursor =>
      if decide (length children = 0%nat) then Break e1 l
      else
        let transformedPosts := transformRedditData (clock (world e1)) children in
        let posts := (allPosts l ++ transformedPosts)%list in
        match cursor_or_null cursor with
        | None => Break e1 {| page := page l; after := None; allPosts := posts |}
        | Some a => Continue e1 {| page := page l; after := Some a; allPosts := posts |}
        end
  end.

Inductive Run :=
| Running (e : Env) (l : Locals)     (* the fuel ran out inside the loop *)
| Left (e : Env) (l : Locals)        (* the loop was left *)
| Failed (e : Env).                  (* an exception escaped *)

(** [for (...; page < pagesNeeded; page++) { ... }], at most [fuel]
    iterations of it. *)
Fixpoint pages (fuel : nat) (srv : Server) (subreddit : string) (pagesNeeded : Z)
    (e : Env) (l : Locals) : Run :=
  if decide (page l < pagesNeeded) then
    match fuel with
    | O => Running e l
    | S fuel' =>
        match iteration srv subreddit e l with
        | Continue e' l' =>
            pages fuel' srv subreddit pagesNeeded e'
              {| page := page l' + 1; after := after l'; allPosts := allPosts l' |}
        | Break e' l' => Left e' l'
        | Throw e' => Failed e'
        end
    end
  else Left e l.

Inductive Outcome :=
| Pending (e : Env)                               (* still fetching when the fuel ran out *)
| Returned (e : Env) (posts : list TrendingPost)
| Thrown (e : Env).

Definition pagesNeededFor (maxItems : Z) : Z :=
  let targetItems := Z.min maxItems MAX_ITEMS_PER_SUBREDDIT in
  Qceiling (inject_Z targetItems / inject_Z ITEMS_PER_REQUEST).

(** [fetchMaxViralPosts(subreddit, maxItems, timeframe)] *)
Definition fetchMaxViralPosts (fuel : nat) (srv : Server) (e : Env)
    (subreddit : string) (maxItems : Z) : Outcome :=
  match pages fuel srv subreddit (pagesNeededFor maxItems) e
          {| page := 0; after := None; allPosts := [] |} with
  | Running e' _ => Pending e'
  | Left e' l => Returned e' (Array.sort by_engagement_desc (allPosts l))
  | Failed e' => Thrown e'
  end.

(** [fetchTrendingPosts], the legacy entry point *)
Definition fetchTrendingPosts (fuel : nat) (srv : Server) (e : Env)
    (subreddit : string) (limit : Z) : Outcome :=
  fetchMaxViralPosts fuel srv e subreddit limit.

(** The loop over the subreddits of [fetchMultiViralContent]; a fetch that
    throws is skipped. *)
Fixpoint collect (fuel : nat) (srv : Server) (e : Env) (subreddits : list string)
    (maxPostsPerSubreddit : Z) (allPosts : list TrendingPost) : Outcome :=
  match subreddits with
  | [] => Returned e allPosts
  | subreddit :: rest =>
      match fetchMaxViralPosts fuel srv e subreddit maxPostsPerSubreddit with
      | Pending e' => Pending e'
      | Returned e' posts =>
          collect fuel srv e' rest maxPostsPerSubreddit (allPosts ++ posts)%list
      | Thrown e' => collect fuel srv e' rest maxPostsPerSubreddit allPosts
      end
  end.

(** [fetchMultiViralContent(subreddits, maxPostsPerSubreddit)] *)
Definition fetchMultiViralContent (fuel : nat) (srv : Server) (e : Env)
    (subreddits : list string) (maxPostsPerSubreddit : Z) : Outcome :=
  match collect fuel srv e subreddits maxPostsPerSubreddit [] with
  | Returned e' allPosts =>
      Returned e' (Array.sort by_engagement_desc (removeDuplicatePosts allPosts))
  | other => other
  end.

(** The backoff delays of a run, oldest first. *)
Definition backoffs (evs : list Event) : list Z :=
  reverse (omap (λ ev, match ev with Backoff ms => Some ms | _ => None end) evs).

End RedditProvider.

(** ** The trending analysis service: Twitter normalisation and scoring *)

Module TrendingAnalysisService.
Local Open Scope string_scope.

(** [tweet.public_metrics]: any counter may be missing. *)
Record PublicMetrics := mkMetrics {
  like_count : option Z;
  retweet_count : option Z;
  reply_count : option Z;
  quote_count : option Z;
  bookmark_count : option Z;
  impression_count : option Z
}.

(** [{}] *)
Definition no_metrics : PublicMetrics := mkMetrics None None None None None None.

(** [ctx.domain?.name] and [ctx.entity?.name] *)
Record ContextAnnotation := mkContext {
  domain_name : option string;
  entity_name : option string
}.

Record Tweet := mkTweet {
  tid : string;
  text : option string;
  author_id : string;
  public_metrics : option PublicMetrics;
  media_keys : option (list string);          (* [attachments?.media_keys] *)
  context_annotations : option (list ContextAnnotation);
  created_at : option Z
}.

Record User := mkUser {
  uid : string;
  username : option string;
  name : option string;
  followers_count : option Z                   (* [public_metrics?.followers_count] *)
}.

Record TwitterData := mkTwitterData {
  data : option (list Tweet);
  users : option (list User)                   (* [includes?.users] *)
}.

(** A destructuring default [= 0], and [x || 0]: both give 0 for a missing
    counter and leave a present one alone. *)
Definition counter (x : option Z) : Z := default 0 x.

(** [calculateEngagementScore(metrics)] *)
Definition calculateEngagementScore (metrics : PublicMetrics) : Z :=
  let engagementScore :=
    Double.add
      (inject_Z (counter (like_count metrics) * 1
                 + counter (retweet_count metrics) * 3
                 + counter (reply_count metrics) * 4
                 + counter (quote_count metrics) * 3
                 + counter (bookmark_count metrics) * 2))
      (Double.mul (inject_Z (counter (impression_count metrics)))
         (Double.literal (1 # 1000))) in
  Math_round engagementScore.

(** [extractHashtags] *)
Definition extractHashtags (text : string) : list string :=
  Text.toLowerCase <$> Text.match_tags "#" text 0.

(** [extractMentions] *)
Definition extractMentions (text : string) : list string :=
  Text.toLowerCase <$> Text.match_tags "@" text 0.

(** [analyzeSentiment] *)
Definition analyzeSentiment (text : string) : Sentiment :=
  let positiveWords := ["amazing"; "great"; "awesome"; "love"; "best"; "incredible"] in
  let negativeWords := ["terrible"; "hate"; "worst"; "awful"; "bad"; "horrible"] in
  let lowerText := Text.toLowerCase text in
  let positiveCount := Text.count_present positiveWords lowerText in
  let negativeCount := Text.count_present negativeWords lowerText in
  if (negativeCount <? positiveCount)%nat then positive
  else if (positiveCount <? negativeCount)%nat then negative
  else neutral.

Record CategorySignals := mkSignals {
  sig_hashtags : list string;
  sig_keywords : list string;
  sig_contexts : list string
}.

(** The [categories] table of [determineTrendCategory], in source order. *)
Definition categories : list (string * CategorySignals) :=
  [ ("Technology",
     mkSignals ["#tech"; "#ai"; "#coding"; "#software"; "#app"; "#crypto";
                "#blockchain"; "#web3"; "#ml"]
               ["artificial intelligence"; "machine learning"; "blockchain";
                "cryptocurrency"; "software"; "app"; "tech"; "digital"]
               ["Technology"; "Software"; "Cryptocurrency"]);
    ("Entertainment",
     mkSignals ["#movie"; "#music"; "#celebrity"; "#show"; "#entertainment";
                "#netflix"; "#spotify"; "#viral"; "#trending"]
               ["movie"; "music"; "celebrity"; "actor"; "singer"; "show";
                "series"; "film"; "album"]
               ["Entertainment"; "Music"; "Movies"; "Television"]);
    ("Sports",
     mkSignals ["#football"; "#basketball"; "#soccer"; "#nfl"; "#nba"; "#sports";
                "#game"; "#fifa"]
               ["football"; "basketball"; "soccer"; "game"; "player"; "team";
                "match"; "championship"]
               ["Sports"; "Football"; "Basketball"; "Soccer"]);
    ("Business",
     mkSignals ["#business"; "#startup"; "#entrepreneur"; "#investing"; "#stocks";
                "#finance"; "#money"]
               ["business"; "startup"; "money"; "investment"; "finance"; "stocks";
                "market"; "economy"]
               ["Business"; "Finance"; "Entrepreneurship"]);
    ("Lifestyle",
     mkSignals ["#fashion"; "#food"; "#travel"; "#fitness"; "#health"; "#style";
                "#beauty"; "#wellness"]
               ["fashion"; "food"; "travel"; "fitness"; "health"; "style";
                "beauty"; "workout"]
               ["Fashion"; "Food"; "Travel"; "Health"]);
    ("News & Politics",
     mkSignals ["#news"; "#politics"; "#breaking"; "#election"; "#government";
                "#policy"]
               ["news"; "politics"; "election"; "government"; "president"; "vote";
                "policy"]
               ["Politics"; "Government"; "News"]);
    ("Social Media",
     mkSignals ["#viral"; "#trending"; "#meme"; "#tiktok"; "#instagram";
                "#twitter"; "#socialmedia"]
               ["viral"; "trending"; "meme"; "influencer"; "content creator";
                "social media"]
               ["Social Media"; "Internet Culture"]) ].

(** [array.includes(x)] on an array of strings *)
Definition mem (x : string) (l : list string) : bool := existsb (String.eqb x) l.

(** [name?.includes(context)], falsy when [name] is missing *)
Definition opt_includes (name : option string) (context : string) : bool :=
  match name with Some n => Text.includes n context | None => false end.

(** The first category of the table whose signals satisfy [test]. *)
Definition first_category (test : CategorySignals → bool) : option string :=
  fst <$> List.find (λ c, test c.2) categories.

(** [determineTrendCategory] *)
Definition determineTrendCategory (text : string) (hashtags : list string)
    (contextAnnotations : list ContextAnnotation) : string :=
  let lowerText := Text.toLowerCase text in
  match first_category (λ d,
          existsb (λ tag, mem (Text.toLowerCase tag) (sig_hashtags d)) hashtags) with
  | Some category => category
  | None =>
  match first_category (λ d,
          existsb (λ ctx,
            existsb (λ context, opt_includes (domain_name ctx) context
                                || opt_includes (entity_name ctx) context)
                    (sig_contexts d)) contextAnnotations) with
  | Some category => category
  | None =>
  match first_category (λ d,
          existsb (λ keyword, Text.includes lowerText keyword) (sig_keywords d)) with
  | Some category => category
  | None => "General"
  end end end.

(** The [usersMap] of [transformTwitterData]: a later user with the same
    id replaces an earlier one. *)
Definition usersMap (us : list User) : gmap string User :=
  foldl (λ m user, <[uid user := user]> m) ∅ us.

(** The object built for one tweet, at clock reading [now]. *)
Definition transformTweet (now : Z) (m : gmap string User) (tweet : Tweet) : TrendingPost :=
  let author := m !! author_id tweet in
  let author_username_raw := author ≫= username in
  let text := Text.opt_or (text tweet) "" in
  let hashtags := extractHashtags text in
  let mentions := extractMentions text in
  let trendCategory :=
    determineTrendCategory text hashtags (default [] (context_annotations tweet)) in
  let metrics := public_metrics tweet in
  {| id := tid tweet;
     platform := "twitter";
     platform_post_id := tid tweet;
     author_username := Text.opt_or author_username_raw "unknown";
     author_display_name := Text.opt_or (author ≫= name) "Unknown";
     author_followers := counter (author ≫= followers_count);
     content := text;
     media_urls := default [] (media_keys tweet);
     hashtags := hashtags;
     mentions := mentions;
     post_url := "https://twitter.com/" ++ Text.opt_or author_username_raw "user"
                 ++ "/status/" ++ tid tweet;
     engagement_score := calculateEngagementScore (default no_metrics metrics);
     likes := counter (metrics ≫= like_count);
     shares := counter (metrics ≫= retweet_count);
     comments := counter (metrics ≫= reply_count);
     views := counter (metrics ≫= impression_count);
     published_at := default now (created_at tweet);
     discovered_at := now;
     trend_category := Some trendCategory;
     sentiment := Some (analyzeSentiment text) |}.

(** The quality filter of [transformTwitterData] *)
Definition hasBasicQuality (post : TrendingPost) : bool :=
  Text.truthy (content post)
  && (5 <? String.length (content post))%nat
  && negb (String.eqb (author_username post) "unknown")
  && (0 <? engagement_score post)%Z.

(** [transformTwitterData] *)
Definition transformTwitterData (now : Z) (twitterData : TwitterData) : list TrendingPost :=
  match data twitterData with
  | None => []
  | Some tweets =>
      let m := usersMap (default [] (users twitterData)) in
      Array.slice0 100
        (Array.sort by_engagement_desc
           (List.filter hasBasicQuality (transformTweet now m <$> tweets)))
  end.

(** [removeDuplicatePosts] *)
Fixpoint dedup_from (seen : gset string) (posts : list TrendingPost) : list TrendingPost :=
  match posts with
  | [] => []
  | post :: rest =>
      let key := platform_post_id post in
      if decide (key ∈ seen) then dedup_from seen rest
      else post :: dedup_from ({[key]} ∪ seen) rest
  end.

Definition removeDuplicatePosts (posts : list TrendingPost) : list TrendingPost :=
  dedup_from ∅ posts.

(** *** Trend groups *)

Definition is_space (c : ascii) : bool :=
  let n := Ascii.N_of_ascii c in ((9 <=? n) && (n <=? 13) || (n =? 32))%N.

(** [text.split(/\s+/)] without the empty pieces a leading or trailing
    blank produces (the length filter of [extractKeywords] drops them
    anyway): [cur] is the word being read. *)
Fixpoint split_ws (s : string) (cur : string) : list string :=
  match s with
  | EmptyString => if Text.truthy cur then [cur] else []
  | String c s' =>
      if is_space c
      then (if Text.truthy cur then [cur] else []) ++ split_ws s' EmptyString
      else split_ws s' (cur ++ String c EmptyString)
  end.

(** [countOccurrences] *)
Definition countOccurrences (array : list string) : Dict.t Z :=
  foldl (λ acc item, Dict.set acc item (default 0 (Dict.get acc item) + 1)) [] array.

(** [extractKeywords] *)
Definition extractKeywords (text : string) : list string :=
  let words := split_ws (Text.toLowerCase text) EmptyString in
  let stopWords := ["the"; "is"; "at"; "which"; "on"; "and"; "a"; "to"; "are";
                    "as"; "was"; "with"; "for"] in
  let keywords :=
    List.filter (λ word, (3 <? String.length word)%nat && negb (mem word stopWords)) words in
  let keywordCounts := countOccurrences keywords in
  let count k := default 0 (Dict.get keywordCounts k) in
  Array.slice0 10 (Array.sort (λ a b, count b - count a) (Dict.keys keywordCounts)).

(** The candidate group keys of a post, in priority order. *)
Definition groupKeys (post : TrendingPost) : list string :=
  if String.eqb (platform post) "reddit" then
    let category := Text.opt_or (trend_category post) "General" in
    let subreddit := Text.or_else (Text.before_underscore (platform_post_id post)) "unknown" in
    let keywords := Array.slice0 3 (extractKeywords (Text.or_else (content post) "")) in
    category :: ("r/" ++ subreddit) :: keywords
  else
    let category := Text.opt_or (trend_category post) "General" in
    (Array.slice0 2 (hashtags post) ++ [category])%list.

(** [k && k !== '' && k !== 'undefined'] *)
Definition usable (k : string) : bool :=
  Text.truthy k && negb (String.eqb k "") && negb (String.eqb k "undefined").

(** [groupKeys.find(...) || post.trend_category || 'general'] *)
Definition groupKey (post : TrendingPost) : string :=
  match List.find usable (groupKeys post) with
  | Some k => k
  | None => Text.opt_or (trend_category post) "general"
  end.

(** The [forEach] that fills [groups] *)
Definition assign (groups : Dict.t (list TrendingPost)) (post : TrendingPost)
    : Dict.t (list TrendingPost) :=
  let key := groupKey post in
  Dict.set groups key (default [] (Dict.get groups key) ++ [post])%list.

Definition MIN_GROUP_SIZE : nat := 2.
Definition FALLBACK_GROUPS : nat := 5.

(** [(a, b) => b.length - a.length] on entries *)
Definition by_size_desc (a b : string * list TrendingPost) : Z :=
  Z.of_nat (length b.2) - Z.of_nat (length a.2).

(** The object [groups] once the [forEach] is over *)
Definition groupsOf (posts : list TrendingPost) : Dict.t (list TrendingPost) :=
  foldl assign [] posts.

(** [groupPostsByTrends] *)
Definition groupPostsByTrends (posts : list TrendingPost) : Dict.t (list TrendingPost) :=
  let groups := groupsOf posts in
  let filteredGroups :=
    foldl (λ acc e, if decide (MIN_GROUP_SIZE ≤ length e.2)%nat
                    then Dict.set acc e.1 e.2 else acc)
          [] (Dict.entries groups) in
  if decide (length (Dict.keys filteredGroups) = 0%nat) then
    let sortedGroups := Array.sort by_size_desc (Dict.entries groups) in
    foldl (λ acc e, Dict.set acc e.1 e.2) filteredGroups
          (Array.slice0 FALLBACK_GROUPS sortedGroups)
  else filteredGroups.

(** *** Sentiment mix *)






(** *** Aggregate scores *)

(** [posts.reduce((sum, post) => sum + (post.engagement_score || 0), 0)] *)
Definition totalEngagement (posts : list TrendingPost) : Z :=
  foldl (λ sum post, sum + engagement_score post) 0 posts.

(** [calculateTrendingScore] *)
Definition calculateTrendingScore (posts : list TrendingPost) : Z :=
  if decide (length posts = 0%nat) then 0
  else
    let avgEngagement :=
      (inject_Z (totalEngagement posts) / inject_Z (Z.of_nat (length posts)))%Q in
    Z.min (Math_round (avgEngagement / 100)%Q) 100.

(** [Math.min] on fractional numbers *)
Definition Qmin (x y : Q) : Q := if Qle_bool x y then x else y.

(** [calculateEnhancedViralityScore], at clock reading [now]; of [trends]
    and [sortedCategories] only the lengths are used. *)
Definition calculateEnhancedViralityScore {A B} (now : Z) (viralPosts : list TrendingPost)
    (trends : list A) (sortedCategories : list B) : Z :=
  if decide (length viralPosts = 0%nat) then 0
  else
    let avgEngagement :=
      (inject_Z (totalEngagement viralPosts)
       / inject_Z (Z.of_nat (length viralPosts)))%Q in
    let trendDiversity := Z.min (Z.of_nat (length trends) * 5) 30 in
    let categoryDiversity := Z.min (Z.of_nat (length sortedCategories) * 8) 40 in
    let recentPosts :=
      filter (λ post, now - 60 * 60 * 1000 < discovered_at post) viralPosts in
    let recencyBonus := Z.min (Z.of_nat (length recentPosts) * 2) 20 in
    let baseScore := Qmin (avgEngagement / 100)%Q 40%Q in
    let finalScore :=
      (baseScore + inject_Z trendDiversity + inject_Z categoryDiversity
       + inject_Z recencyBonus)%Q in
    Z.min (Math_round finalScore) 100.


End TrendingAnalysisService.

(** ** The discovery trigger: POST /api/trending/discover *)

Module DiscoverRoute.

(** What the [catch] of the handler makes of an error, which it reads off
    the message: the text [monthly limit exceeded]; else the text
    [rate limited], with the number in front of [ minutes] when the message
    has one (the sign, not being a digit, is no part of it); else neither. *)
Inductive Thrown :=
| MonthlyLimitExceeded
| RateLimited (minutes : option N)
| OtherFailure.

(** What a call of a collaborator comes to. *)
Inductive Step (A : Type) :=
| Done (a : A)
| Throws (err : Thrown).
Arguments Done {A} a.
Arguments Throws {A} err.

(** What the handler finds around it. *)
Record Env := mkEnv {
  testMode : bool;                         (* [?test=true] *)
  bearerToken : bool;                      (* [TWITTER_BEARER_TOKEN] is set *)
  now : Z;                                 (* [Date.now()] *)
  lastDiscovery : Step (option Z);         (* [getLastDiscoveryTime()] *)
  twitter : Step (list TrendingPost);      (* [fetchTwitterTrends(100)] *)
  stored : Step unit;                      (* [storeTrendingPosts] *)
  totalPosts : Step Z;                     (* the count query, [|| 0] applied *)
  analyses : Step nat;                     (* [analyzeTrends()]: how many analyses *)
  suggestions : Step nat                   (* the suggestions generated for them *)
}.


Inductive Response :=
| TestReport
| Deferred (minutesUntilNext : Z) (nextDiscoveryTime : Z)
| Discovered (newPosts : nat) (total : Z) (nAnalyses nSuggestions : nat) (availableAt : Z)
| NothingDiscovered (availableAt : Z)
| MonthlyLimit429
| RateLimit429 (waitMinutes : Z)
| Failure500.














End DiscoverRoute.

Module TAS := TrendingAnalysisService.
Module RP := RedditProvider.

(** * Vocabulary of the statements *)

(** ** Rate limiting *)

(** Every timestamp of the list lies at least [gap] above all the ones after
    it (the list has the most recent first). *)
Fixpoint spaced (gap : Z) (l : list Z) : Prop :=
  match l with
  | [] => True
  | x :: l' => Forall (λ t, t + gap ≤ x) l' ∧ spaced gap l'
  end.

(** What links the state of the limiter to the timestamps recorded so far. *)
Record LimiterInv (w : RateLimit.World) (recorded : list Z) : Prop := mkLimiterInv {
  inv_clock : Forall (λ t, t ≤ RateLimit.clock w) recorded;
  inv_last : Forall (λ t, t ≤ RateLimit.lastRequestTime w) recorded;
  inv_spaced : spaced 600 recorded;
  inv_kept : ∀ c, RateLimit.clock w ≤ c →
    filter (λ t, c - t < 600000) (RateLimit.requestTimestamps w)
    ≡ₚ filter (λ t, c - t < 600000) recorded;
  inv_long : ∀ c,
    (RateLimit.window_count 600000 c recorded ≤ RateLimit.MAX_REQUESTS_PER_10_MIN)%nat
}.

(** ** Paginated fetching *)

Definition run_env (r : RP.Run) : RP.Env :=
  match r with RP.Running e _ | RP.Left e _ | RP.Failed e => e end.

Definition outcome_env (o : RP.Outcome) : RP.Env :=
  match o with RP.Pending e | RP.Returned e _ | RP.Thrown e => e end.

(** A server that answers every request with HTTP 429. *)
Definition always_429 : RP.Server := λ _, RP.mkReply 0 (RP.Status 429).

(** A server that answers HTTP 429 to its first [k] requests and the status
    [code] from then on. *)
Definition flaky (k : nat) (code : Z) : RP.Server :=
  λ n, RP.mkReply 0 (RP.Status (if decide (n < k)%nat then 429 else code)).

(** The environment of a fetch that starts with nothing behind it. *)
Definition fresh (now : Z) : RP.Env := RP.mkEnv (RateLimit.initial now) 0 [].

(** The delays so far are in non-decreasing order and none exceeds the delay
    page [p] would get. *)
Definition ordered_up_to (p : Z) (evs : list RP.Event) : Prop :=
  StronglySorted Z.le (RP.backoffs evs)
  ∧ Forall (λ b, b ≤ RP.backoffTime p) (RP.backoffs evs).

(** A post that passes [isValidPost], with 100 upvotes and 10 comments. *)
Definition sample_post (name : string) (ratio : Q) : RP.RedditPost :=
  {| RP.rid := name; RP.title := "A remarkable story"; RP.selftext := "";
     RP.author := "someone"; RP.subreddit := "pics";
     RP.score := 100; RP.upvote_ratio := ratio; RP.num_comments := 10;
     RP.url := ""; RP.permalink := "/r/pics/" +:+ name; RP.thumbnail := "";
     RP.created_utc := 0; RP.over_18 := false; RP.stickied := false;
     RP.is_video := false; RP.media := None; RP.preview := None |}.

(** A server whose listing has six valid posts and no further page. *)
Definition six_posts : RP.Server :=
  λ _, RP.mkReply 0
         (RP.Listing ((λ name, sample_post name (9 # 10))
                        <$> ["a"; "b"; "c"; "d"; "e"; "f"]) None).

(** ** Scores *)

(** The recency bonus in the words of the specification: a step function of
    the time elapsed since publication, here in milliseconds. *)
Definition recency_bonus (elapsed : Z) : Z :=
  if decide (elapsed ≤ 2 * 3600000) then 100
  else if decide (elapsed ≤ 6 * 3600000) then 50
  else if decide (elapsed ≤ 12 * 3600000) then 25
  else 0.

(** The engagement counters of a tweet. *)
Inductive Counter := Likes | Retweets | Replies | Quotes | Bookmarks | Impressions.

Definition reading (c : Counter) (m : TAS.PublicMetrics) : Z :=
  TAS.counter match c with
              | Likes => TAS.like_count m
              | Retweets => TAS.retweet_count m
              | Replies => TAS.reply_count m
              | Quotes => TAS.quote_count m
              | Bookmarks => TAS.bookmark_count m
              | Impressions => TAS.impression_count m
              end.

(** The metrics [m1] and [m2] agree on every counter but [c]. *)
Definition differ_only_at (c : Counter) (m1 m2 : TAS.PublicMetrics) : Prop :=
  ∀ c', c' ≠ c → reading c' m1 = reading c' m2.

(** The engagement counters of a Reddit post. *)
Inductive RedditCounter := Upvotes | Comments.

Definition reddit_reading (c : RedditCounter) (p : RP.RedditPost) : Z :=
  match c with Upvotes => RP.score p | Comments => RP.num_comments p end.

(** The post [p] with the counter [c] set to [v] and all else unchanged. *)
Definition with_counter (c : RedditCounter) (v : Z) (p : RP.RedditPost) : RP.RedditPost :=
  match c with
  | Upvotes =>
      RP.mkRedditPost (RP.rid p) (RP.title p) (RP.selftext p) (RP.author p)
        (RP.subreddit p) v (RP.upvote_ratio p) (RP.num_comments p) (RP.url p)
        (RP.permalink p) (RP.thumbnail p) (RP.created_utc p) (RP.over_18 p)
        (RP.stickied p) (RP.is_video p) (RP.media p) (RP.preview p)
  | Comments =>
      RP.mkRedditPost (RP.rid p) (RP.title p) (RP.selftext p) (RP.author p)
        (RP.subreddit p) (RP.score p) (RP.upvote_ratio p) v (RP.url p)
        (RP.permalink p) (RP.thumbnail p) (RP.created_utc p) (RP.over_18 p)
        (RP.stickied p) (RP.is_video p) (RP.media p) (RP.preview p)
  end.

(** A tweet by a known author with ten likes, published at [created]. *)
Definition liked_tweet (created : Z) : TAS.Tweet :=
  TAS.mkTweet "1" (Some "hello world") "u1"
    (Some (TAS.mkMetrics (Some 10) None None None None None)) None None (Some created).

Definition its_author : gmap string TAS.User :=
  TAS.usersMap [TAS.mkUser "u1" (Some "alice") (Some "Alice") None].

(** ** Stored posts, groups and sentiment *)

(** A post as it may come back from the store; the fields not named are
    immaterial to the statements that use it. *)
Definition stored_post (source key text : string) (tags : list string)
    (label : option Sentiment) : TrendingPost :=
  {| id := key; platform := source; platform_post_id := key;
     author_username := "someone"; author_display_name := "Someone";
     author_followers := 0; content := text; media_urls := [];
     hashtags := tags; mentions := []; post_url := "";
     engagement_score := 0; likes := 0; shares := 0; comments := 0; views := 0;
     published_at := 0; discovered_at := 0;
     trend_category := None; sentiment := label |}.



Definition group_size (g : string * list TrendingPost) : nat := length g.2.

(** [a] is at least as large as [b]. *)
Definition larger {A} (size : A → nat) (a b : A) : Prop := (size b ≤ size a)%nat.

(** The comparator [(a, b) => size(b) - size(a)]. *)
Definition size_desc {A} (size : A → nat) (a b : A) : Z :=
  Z.of_nat (size b) - Z.of_nat (size a).

(** ** What the providers hand over *)

(** [a] sorts no lower than [b] under [key]. *)
Definition higher {A} (key : A → Z) (a b : A) : Prop := key b ≤ key a.

(** The comparator [(a, b) => key(b) - key(a)]. *)
Definition key_desc {A} (key : A → Z) (a b : A) : Z := key b - key a.

(** What the quality filter of the Reddit provider lets through, read on the
    normalized post. *)
Definition reddit_quality (p : TrendingPost) : Prop :=
  platform p = "reddit"%string ∧ 50 < likes p ∧ 5 < comments p
  ∧ shares p = comments p ∧ views p = 0
  ∧ author_username p ≠ "[deleted]"%string
  ∧ (5 < String.length (content p))%nat.

(** The post [p] is the normalization of a child of a listing that the
    server sent, and the child passed [isValidPost]. *)
Definition passed_filter (srv : RP.Server) (p : TrendingPost) : Prop :=
  ∃ (request : nat) (children : list RP.RedditPost) (cursor : option string)
    (post : RP.RedditPost) (now : Z),
    RP.response (srv request) = RP.Listing children cursor
    ∧ post ∈ children
    ∧ RP.isValidPost post = true
    ∧ p = RP.transformPost now post.

(** What the quality filter of [transformTwitterData] lets through. *)
Definition twitter_quality (p : TrendingPost) : Prop :=
  platform p = "twitter"%string
  ∧ platform_post_id p = id p
  ∧ 0 < engagement_score p
  ∧ author_username p ≠ "unknown"%string
  ∧ (5 < String.length (content p))%nat.

(** The posts a fetch returned; none while it is pending or when it threw. *)
Definition returned (o : RP.Outcome) : list TrendingPost :=
  match o with RP.Returned _ posts => posts | _ => [] end.

Definition is_pending (o : RP.Outcome) : bool :=
  match o with RP.Pending _ => true | _ => false end.

Definition is_thrown (o : RP.Outcome) : bool :=
  match o with RP.Thrown _ => true | _ => false end.

(** A server that never answers HTTP 429. *)
Definition never_429 (srv : RP.Server) : Prop :=
  ∀ n, RP.response (srv n) ≠ RP.Status 429.

(** A server with one page of three valid posts, then an empty page. *)
Definition one_page : RP.Server :=
  λ n, RP.mkReply 250
         (if decide (n = 0%nat)
          then RP.Listing ((λ name, sample_post name (9 # 10)) <$> ["a"; "b"; "c"])
                          (Some "t3_c")
          else RP.Listing [] None).

(** A server that rejects every request. *)
Definition unreachable : RP.Server := λ _, RP.mkReply 0 RP.Rejected.

(** Two children of a listing that pass [isValidPost]. *)
Definition two_children : list RP.RedditPost :=
  [sample_post "a" (9 # 10); sample_post "b" (9 # 10)].

Global Instance Op_eq_dec : EqDecision RateLimit.Op.
Proof. solve_decision. Defined.

(** The number of rate-limit checks among the operations. *)
Definition acquires (ops : list RateLimit.Op) : nat :=
  length (filter (λ op, op = RateLimit.Acquire) ops).

(** The limiter's own timestamps and its last request lie in the past. *)
Definition behind_clock (w : RateLimit.World) : Prop :=
  Forall (λ t, t ≤ RateLimit.clock w) (RateLimit.requestTimestamps w)
  ∧ RateLimit.lastRequestTime w ≤ RateLimit.clock w.

(** ** Tags, keywords and group keys *)

(** The labels a post can be categorised under. *)
Definition category_labels : list string :=
  ["Technology"; "Entertainment"; "Sports"; "News & Politics"; "Business";
   "Lifestyle"; "Social Media"; "General"]%string.

(** A tag as [/#\w+/], [/@\w+/] and [/u\/\w+/] match it: the marker and at
    least one more character. *)
Definition tag_shaped (marker : string) (t : string) : Prop :=
  String.prefix marker t = true ∧ (String.length marker < String.length t)%nat.

(** How often [k] occurs among [items]. *)
Definition occurrences (k : string) (items : list string) : nat :=
  length (filter (λ item, item = k) items).

Definition stop_words : list string :=
  ["the"; "is"; "at"; "which"; "on"; "and"; "a"; "to"; "are"; "as"; "was";
   "with"; "for"]%string.

Definition is_keyword (word : string) : Prop :=
  (3 < String.length word)%nat ∧ word ∉ stop_words.

Global Instance is_keyword_dec word : Decision (is_keyword word).
Proof. unfold is_keyword. apply _. Defined.

(** The words of a text that [extractKeywords] counts, in reading order. *)
Definition keyword_candidates (text : string) : list string :=
  filter is_keyword (TAS.split_ws (Text.toLowerCase text) EmptyString).

(** The posts whose group key is [key], in their original order. *)
Definition members_of (key : string) (posts : list TrendingPost) : list TrendingPost :=
  filter (λ post, TAS.groupKey post = key) posts.

(** A stored Reddit post of r/pics with the given text. *)
Definition reddit_row (text : string) : TrendingPost :=
  {| id := "reddit_1"; platform := "reddit"; platform_post_id := "pics_1";
     author_username := "someone"; author_display_name := "someone";
     author_followers := 0; content := text; media_urls := [];
     hashtags := ["#pics"]; mentions := []; post_url := "";
     engagement_score := 270; likes := 100; shares := 10; comments := 10; views := 0;
     published_at := 0; discovered_at := 0;
     trend_category := Some "Sports"%string; sentiment := Some neutral |}.

(** ** Aggregate scores *)

(** The two diversity terms of the enhanced virality score. *)
Definition diversity (trends categories : nat) : Z :=
  Z.min (Z.of_nat trends * 5) 30 + Z.min (Z.of_nat categories * 8) 40.

(** ** The discovery trigger *)


(** ** Pagination *)

(** What the fetcher holds after a reply, the page index and the cursor:
    a non-empty listing moves it on, any other reply leaves it where it
    is. *)
Definition after_reply (r : RP.Response) (position : Z * option string)
    : Z * option string :=
  match r with
  | RP.Listing children cursor =>
      if decide (length children = 0%nat) then position
      else (position.1 + 1, RP.cursor_or_null cursor)
  | _ => position
  end.

(** What it holds after the replies to the requests [first], ...,
    [first + n - 1]. *)
Fixpoint position_after (srv : RP.Server) (first n : nat) (position : Z * option string)
    : Z * option string :=
  match n with
  | O => position
  | S k => position_after srv (S first) k (after_reply (RP.response (srv first)) position)
  end.

(** The page requests among the events, oldest first. *)
Definition requests (evs : list RP.Event) : list (string * Z * option string) :=
  reverse (omap (λ ev, match ev with
                       | RP.Request s p c => Some (s, p, c)
                       | RP.Backoff _ => None
                       end) evs).

(** ** Normalized posts *)

(** A post as one of the two providers normalizes it. *)
Definition normalized (p : TrendingPost) : Prop :=
  (∃ now post, p = RP.transformPost now post)
  ∨ (∃ now users tweet, p = TAS.transformTweet now users tweet).

(** One post of each provider. *)
Definition mixed_feed : list TrendingPost :=
  [RP.transformPost 0 (sample_post "a" (9 # 10));
   TAS.transformTweet 0 its_author (liked_tweet 0)].

(** * Properties *)

(** ** Lists *)

Lemma filter_length_le {A} (P Q : A → Prop)
    `{!∀ x, Decision (P x), !∀ x, Decision (Q x)} (l : list A) :
  Forall (λ x, P x → Q x) l → (length (filter P l) ≤ length (filter Q l))%nat.
Proof.
  induction 1 as [|x l Hx _ IH]; [done|].
  rewrite !filter_cons. destruct (decide (P x)) as [HP|HP].
  - rewrite decide_True by auto. simpl. lia.
  - destruct (decide (Q x)); simpl; lia.
Qed.

(** ** Double-precision arithmetic *)

Section double.
Import Double.
Local Open Scope Q_scope.

Lemma pow2_pos (e : Z) : 0 < 2 ^ e.
Proof. by apply Qpower_0_lt. Qed.

Lemma pow2_le (a b : Z) : (a <= b)%Z → 2 ^ a <= 2 ^ b.
Proof. intros H. by apply Qpower_le_compat_l. Qed.

Lemma pow2_lt (a b : Z) : (a < b)%Z → 2 ^ a < 2 ^ b.
Proof. intros H. by apply Qpower_lt_compat_l. Qed.

Lemma pow2_add (a b : Z) : 2 ^ (a + b) == 2 ^ a * 2 ^ b.
Proof. by apply Qpower_plus. Qed.

Lemma pow2_Z (a : Z) : (0 <= a)%Z → inject_Z (2 ^ a) == 2 ^ a.
Proof. intros H. by rewrite Zpower_Qpower. Qed.

(** The exponent is the binade of the number. *)
Lemma exponent_spec (x : Q) :
  0 < x → 2 ^ exponent x <= x ∧ x < 2 ^ (exponent x + 1).
Proof.
  intros Hx. unfold exponent. destruct x as [n d]. cbn [Qnum Qden].
  assert (0 < n)%Z as Hn by (unfold Qlt in Hx; simpl in Hx; lia).
  destruct (Z.log2_spec n Hn) as [Hn1 Hn2].
  destruct (Z.log2_spec (Z.pos d) (Pos2Z.is_pos d)) as [Hd1 Hd2].
  pose proof (Z.log2_nonneg n) as Ha. pose proof (Z.log2_nonneg (Z.pos d)) as Hb.
  set (a := Z.log2 n) in *. set (b := Z.log2 (Z.pos d)) in *.
  assert (Heq : n # d == inject_Z n / inject_Z (Z.pos d)) by (by rewrite Qmake_Qdiv).
  assert (0 < inject_Z (Z.pos d)) as Hdpos by done.
  assert (Hlo : 2 ^ (a - b - 1) < n # d).
  { rewrite Heq. apply Qlt_shift_div_l; [done|].
    apply Qlt_le_trans with (2 ^ (a - b - 1) * 2 ^ (b + 1)).
    - apply Qmult_lt_l; [apply pow2_pos|]. rewrite <- pow2_Z by lia. by rewrite <- Zlt_Qlt.
    - rewrite <- pow2_add. replace (a - b - 1 + (b + 1))%Z with a by lia.
      rewrite <- pow2_Z by lia. by rewrite <- Zle_Qle. }
  assert (Hhi : n # d < 2 ^ (a - b + 1)).
  { rewrite Heq. apply Qlt_shift_div_r; [done|].
    apply Qlt_le_trans with (2 ^ (a + 1)).
    - rewrite <- pow2_Z by lia. by rewrite <- Zlt_Qlt.
    - replace (a + 1)%Z with (a - b + 1 + b)%Z by lia. rewrite pow2_add.
      apply Qmult_le_l; [apply pow2_pos|]. rewrite <- pow2_Z by lia. by rewrite <- Zle_Qle. }
  destruct (Qle_bool (2 ^ (a - b)) (n # d)) eqn:E.
  - apply Qle_bool_iff in E. by split.
  - replace (a - b - 1 + 1)%Z with (a - b)%Z by lia. split; [by apply Qlt_le_weak|].
    apply Qnot_le_lt. intros H%Qle_bool_iff. congruence.
Qed.

Lemma exponent_mono (x y : Q) : 0 < x → x <= y → (exponent x <= exponent y)%Z.
Proof.
  intros Hx Hxy. assert (0 < y) as Hy by (by eapply Qlt_le_trans).
  destruct (exponent_spec x Hx) as [Hx1 _]. destruct (exponent_spec y Hy) as [_ Hy2].
  destruct (Z_le_gt_dec (exponent x) (exponent y)) as [|Hgt]; [done|].
  exfalso. apply (Qlt_irrefl y).
  eapply Qlt_le_trans; [exact Hy2|]. eapply Qle_trans; [|exact Hxy].
  eapply Qle_trans; [|exact Hx1]. apply pow2_le. lia.
Qed.

Lemma nearest_even_floor (q : Q) :
  (Qfloor q <= nearest_even q <= Qfloor q + 1)%Z.
Proof.
  unfold nearest_even. cbv zeta. destruct (_ ?= _); [destruct (Z.even _)|..]; lia.
Qed.

Lemma nearest_even_mono (q q' : Q) : q <= q' → (nearest_even q <= nearest_even q')%Z.
Proof.
  intros Hq. pose proof (Qfloor_resp_le _ _ Hq) as Hf.
  pose proof (nearest_even_floor q) as H1. pose proof (nearest_even_floor q') as H2.
  destruct (Z.eq_dec (Qfloor q) (Qfloor q')) as [Heq|Hne]; [|lia].
  unfold nearest_even. cbv zeta. rewrite <- Heq.
  assert (q - inject_Z (Qfloor q) <= q' - inject_Z (Qfloor q)) as Hfrac.
  { apply Qplus_le_compat; [done|apply Qle_refl]. }
  destruct (q - inject_Z (Qfloor q) ?= 1 # 2) eqn:E1;
    destruct (q' - inject_Z (Qfloor q) ?= 1 # 2) eqn:E2;
    try destruct (Z.even (Qfloor q)); try lia; exfalso;
    repeat match goal with
    | H : (_ ?= _) = Eq |- _ => apply Qeq_alt in H
    | H : (_ ?= _) = Lt |- _ => apply Qlt_alt in H
    | H : (_ ?= _) = Gt |- _ => apply Qgt_alt in H
    end.
  all: first [ rewrite E1 in Hfrac; by apply Qle_not_lt in Hfrac
             | rewrite E2 in Hfrac; by apply Qle_not_lt in Hfrac
             | apply (Qle_not_lt _ _ Hfrac); by eapply Qlt_trans ].
Qed.

Lemma nearest_even_Z (n : Z) : nearest_even (inject_Z n) = n.
Proof.
  unfold nearest_even. cbv zeta. rewrite Qfloor_Z.
  assert (inject_Z n - inject_Z n == 0) as Heq by ring.
  assert ((inject_Z n - inject_Z n ?= 1 # 2) = Lt) as ->; [|done].
  apply Qlt_alt. by rewrite Heq.
Qed.

(** The nearest integer is within a half. *)
Lemma nearest_even_near (q : Q) : Qabs (inject_Z (nearest_even q) - q) <= 1 # 2.
Proof.
  pose proof (Qfloor_le q) as Hlo. pose proof (Qlt_floor q) as Hhi.
  rewrite inject_Z_plus in Hhi. change (inject_Z 1) with 1 in Hhi.
  apply Qabs_Qle_condition. unfold nearest_even. cbv zeta.
  destruct (q - inject_Z (Qfloor q) ?= 1 # 2) eqn:E;
    [apply Qeq_alt in E; destruct (Z.even _)|apply Qlt_alt in E|apply Qgt_alt in E];
    rewrite ?inject_Z_plus; change (inject_Z 1) with 1; lra.
Qed.

Lemma binade_spec (x : Q) : (exponent x <= binade x)%Z ∧ (-1022 <= binade x)%Z.
Proof. unfold binade. lia. Qed.

Lemma binade_mono (x y : Q) : 0 < x → x <= y → (binade x <= binade y)%Z.
Proof. intros Hx Hxy. pose proof (exponent_mono x y Hx Hxy). unfold binade. lia. Qed.

Lemma scaled_range (x : Q) :
  0 < x →
  x / 2 ^ (binade x - 52) < 2 ^ 53
  ∧ ((-1022 <= exponent x)%Z → 2 ^ 52 <= x / 2 ^ (binade x - 52)).
Proof.
  intros Hx. destruct (exponent_spec x Hx) as [H1 H2].
  destruct (binade_spec x) as [Hb _].
  pose proof (pow2_pos (binade x - 52)) as Hu.
  split.
  - apply Qlt_shift_div_r; [done|]. rewrite <- pow2_add.
    eapply Qlt_le_trans; [exact H2|]. apply pow2_le. lia.
  - intros Hn. apply Qle_shift_div_l; [done|]. rewrite <- pow2_add.
    eapply Qle_trans; [|exact H1]. apply pow2_le. unfold binade. lia.
Qed.

(** A positive number rounds within its binade, ends included; a subnormal
    one may round to 0. *)
Lemma round_pos_range (x : Q) :
  0 < x →
  0 <= round_pos x ∧ round_pos x <= 2 ^ (binade x + 1)
  ∧ ((-1022 <= exponent x)%Z → 2 ^ binade x <= round_pos x).
Proof.
  intros Hx. destruct (scaled_range x Hx) as [H2 H1].
  pose proof (pow2_pos (binade x - 52)) as Hu.
  unfold round_pos. cbv zeta.
  set (u := 2 ^ (binade x - 52)) in *. set (q := x / u) in *.
  assert (0 <= q) as Hq.
  { unfold q. apply Qle_shift_div_l; [done|]. lra. }
  assert (0 <= nearest_even q <= 2 ^ 53)%Z as [Hm0 Hm2].
  { split.
    - rewrite <- (nearest_even_Z 0). by apply nearest_even_mono.
    - rewrite <- (nearest_even_Z (2 ^ 53)). apply nearest_even_mono.
      rewrite pow2_Z by done. by apply Qlt_le_weak. }
  split; [|split].
  - apply Qmult_le_0_compat; [|by apply Qlt_le_weak].
    change 0 with (inject_Z 0). by rewrite <- Zle_Qle.
  - replace (binade x + 1)%Z with (53 + (binade x - 52))%Z by lia.
    rewrite pow2_add. fold u. apply Qmult_le_compat_r; [|by apply Qlt_le_weak].
    rewrite <- pow2_Z by done. by rewrite <- Zle_Qle.
  - intros Hn. specialize (H1 Hn).
    assert (2 ^ 52 <= nearest_even q)%Z as Hm1.
    { rewrite <- (nearest_even_Z (2 ^ 52)). apply nearest_even_mono.
      by rewrite pow2_Z. }
    replace (binade x) with (52 + (binade x - 52))%Z at 1 by lia.
    rewrite pow2_add. fold u. apply Qmult_le_compat_r; [|by apply Qlt_le_weak].
    rewrite <- pow2_Z by done. by rewrite <- Zle_Qle.
Qed.

Lemma round_pos_nonneg (x : Q) : 0 < x → 0 <= round_pos x.
Proof. intros Hx. by apply round_pos_range. Qed.

Lemma round_pos_mono (x y : Q) : 0 < x → x <= y → round_pos x <= round_pos y.
Proof.
  intros Hx Hxy. assert (0 < y) as Hy by (by eapply Qlt_le_trans).
  pose proof (binade_mono x y Hx Hxy) as He.
  destruct (Z.eq_dec (binade x) (binade y)) as [Heq|Hne].
  - unfold round_pos. cbv zeta. rewrite Heq.
    pose proof (pow2_pos (binade y - 52)) as Hu.
    apply Qmult_le_compat_r; [|by apply Qlt_le_weak].
    rewrite <- Zle_Qle. apply nearest_even_mono.
    apply Qmult_le_compat_r; [done|]. by apply Qlt_le_weak, Qinv_lt_0_compat.
  - destruct (round_pos_range x Hx) as (_ & Hx2 & _).
    destruct (round_pos_range y Hy) as (_ & _ & Hy1).
    destruct (binade_spec x) as [_ Hbx].
    assert (-1022 <= exponent y)%Z as Hn by (unfold binade in *; lia).
    eapply Qle_trans; [exact Hx2|]. eapply Qle_trans; [|exact (Hy1 Hn)].
    apply pow2_le. lia.
Qed.

Lemma round_pos_ext (x y : Q) : 0 < x → x == y → round_pos x == round_pos y.
Proof.
  intros Hx Hxy. assert (0 < y) as Hy by (by rewrite <- Hxy).
  apply Qle_antisym; apply round_pos_mono; try done.
  - rewrite Hxy. apply Qle_refl.
  - rewrite Hxy. apply Qle_refl.
Qed.

Lemma round_zero (x : Q) : x == 0 → round x = 0.
Proof. intros H. unfold round. by rewrite (proj1 (Qeq_alt x 0) H). Qed.

Lemma round_positive (x : Q) : 0 < x → round x = round_pos x.
Proof. intros H. unfold round. by rewrite (proj1 (Qgt_alt x 0) H). Qed.

Lemma round_negative (x : Q) : x < 0 → round x = - round_pos (- x).
Proof. intros H. unfold round. by rewrite (proj1 (Qlt_alt x 0) H). Qed.

Global Instance round_proper : Proper (Qeq ==> Qeq) round.
Proof.
  intros x y Hxy. destruct (Q_dec x 0) as [[Hlt|Hgt]|Heq].
  - rewrite (round_negative x Hlt), (round_negative y) by (by rewrite <- Hxy).
    apply Qopp_comp, round_pos_ext; [lra|by rewrite Hxy].
  - rewrite (round_positive x Hgt), (round_positive y) by (by rewrite <- Hxy).
    by apply round_pos_ext.
  - rewrite (round_zero x Heq), (round_zero y) by (by rewrite <- Hxy). done.
Qed.

(** Rounding keeps the order. *)
Lemma round_mono (x y : Q) : x <= y → round x <= round y.
Proof.
  intros Hxy.
  destruct (Q_dec x 0) as [[Hx|Hx]|Hx]; destruct (Q_dec y 0) as [[Hy|Hy]|Hy];
    rewrite ?(round_negative x), ?(round_positive x), ?(round_zero x),
            ?(round_negative y), ?(round_positive y), ?(round_zero y) by done;
    first [ lra
          | apply Qopp_le_compat, round_pos_mono; lra
          | apply round_pos_mono; lra
          | pose proof (round_pos_nonneg (- x) ltac:(lra));
            try pose proof (round_pos_nonneg y ltac:(lra)); lra
          | pose proof (round_pos_nonneg y ltac:(lra)); lra ].
Qed.

(** Rounding moves a number by at most half a unit in its last place. *)
Lemma round_pos_near (x : Q) :
  0 < x → Qabs (round_pos x - x) <= 2 ^ (binade x - 53).
Proof.
  intros Hx. pose proof (pow2_pos (binade x - 52)) as Hu.
  unfold round_pos. cbv zeta.
  set (u := 2 ^ (binade x - 52)) in *.
  pose proof (nearest_even_near (x / u)) as Hn.
  assert (2 ^ (binade x - 53) == (1 # 2) * u) as ->.
  { unfold u. replace (binade x - 53)%Z with (-1 + (binade x - 52))%Z by lia.
    by rewrite pow2_add. }
  assert (inject_Z (nearest_even (x / u)) * u - x
          == (inject_Z (nearest_even (x / u)) - x / u) * u) as ->.
  { field. lra. }
  rewrite Qabs_Qmult, (Qabs_pos u) by lra.
  apply Qmult_le_compat_r; [done|lra].
Qed.

(** A positive number below [2^m], for [m] of more than -1022, is in a
    binade below [m]. *)
Lemma binade_below (x : Q) (m : Z) :
  0 < x → x < 2 ^ m → (-1022 < m)%Z → (binade x < m)%Z.
Proof.
  intros Hx Hlt Hm. destruct (exponent_spec x Hx) as [He _].
  assert (exponent x < m)%Z; [|unfold binade; lia].
  destruct (Z_lt_ge_dec (exponent x) m) as [|Hge]; [done|]. exfalso.
  pose proof (pow2_le m (exponent x) ltac:(lia)) as Hp. lra.
Qed.


(** Below [2^52] a number moves by at most a quarter. *)
Lemma round_near_quarter (x : Q) : Qabs x < 2 ^ 52 → Qabs (round x - x) <= 1 # 4.
Proof.
  assert (Hpos : ∀ y, 0 < y → y < 2 ^ 52 → Qabs (round_pos y - y) <= 1 # 4).
  { intros y Hy Hlt. eapply Qle_trans; [by apply round_pos_near|].
    pose proof (binade_below y 52 Hy Hlt ltac:(lia)) as Hsmall.
    change (1 # 4) with (2 ^ (-2)). apply pow2_le. lia. }
  intros Hx. destruct (Q_dec x 0) as [[Hneg|Hp]|Hz].
  - rewrite (round_negative x Hneg).
    assert (- round_pos (- x) - x == - (round_pos (- x) - - x)) as -> by ring.
    rewrite Qabs_opp. apply Hpos; [lra|]. by rewrite <- (Qabs_neg x) by lra.
  - rewrite (round_positive x Hp). apply Hpos; [done|]. by rewrite <- (Qabs_pos x) by lra.
  - rewrite (round_zero x Hz), Hz. by vm_compute.
Qed.

Global Instance nearest_even_proper : Proper (Qeq ==> eq) nearest_even.
Proof.
  intros q q' Hq. unfold nearest_even. cbv zeta.
  assert (Qfloor q = Qfloor q') as -> by by rewrite Hq.
  assert ((q - inject_Z (Qfloor q') ?= 1 # 2) = (q' - inject_Z (Qfloor q') ?= 1 # 2)) as ->;
    [|done].
  by rewrite Hq.
Qed.

(** A number whose significand is an integer is left alone. *)
Lemma round_pos_fixed (x : Q) (m : Z) :
  0 < x → x / 2 ^ (binade x - 52) == inject_Z m → round_pos x == x.
Proof.
  intros Hx Hm. pose proof (pow2_pos (binade x - 52)) as Hu.
  unfold round_pos. cbv zeta. rewrite Hm, nearest_even_Z, <- Hm. field. lra.
Qed.

(** So are the integers below [2^53], scaled by a power of 2 that is no
    less than the spacing of the subnormal numbers. *)
Lemma round_pos_dyadic (n j : Z) :
  (0 < n < 2 ^ 53)%Z → (-1074 <= j)%Z →
  round_pos (inject_Z n * 2 ^ j) == inject_Z n * 2 ^ j.
Proof.
  intros [Hn Hlt] Hj'. pose proof (pow2_pos j) as Hj.
  assert (0 < inject_Z n) as Hn' by (change 0 with (inject_Z 0); by rewrite <- Zlt_Qlt).
  assert (0 < inject_Z n * 2 ^ j) as Hx by (by apply Qmult_lt_0_compat).
  assert (inject_Z n * 2 ^ j < 2 ^ (53 + j)) as Hbelow.
  { rewrite pow2_add. apply Qmult_lt_compat_r; [done|].
    rewrite <- (pow2_Z 53) by lia. by rewrite <- Zlt_Qlt. }
  pose proof (binade_below _ (53 + j) Hx Hbelow ltac:(lia)) as Hsmall.
  set (b := binade (inject_Z n * 2 ^ j)) in *.
  apply (round_pos_fixed _ (n * 2 ^ (52 + j - b))); [done|].
  fold b. rewrite inject_Z_mult, pow2_Z by lia.
  replace (52 + j - b)%Z with (j + - (b - 52))%Z by lia.
  rewrite pow2_add, Qpower_opp. field.
  pose proof (pow2_pos (b - 52)). lra.
Qed.

Lemma round_dyadic (x : Q) (n j : Z) :
  x == inject_Z n * 2 ^ j → (Z.abs n < 2 ^ 53)%Z → (-1074 <= j)%Z → round x == x.
Proof.
  intros Hx Hn Hj'. pose proof (pow2_pos j) as Hj.
  destruct (Z.lt_trichotomy n 0) as [Hneg|[->|Hpos]].
  - assert (x < 0) as Hlt.
    { rewrite Hx. assert (inject_Z n < 0) by (change 0 with (inject_Z 0); by rewrite <- Zlt_Qlt).
      assert (0 < inject_Z (- n) * 2 ^ j).
      { apply Qmult_lt_0_compat; [|done]. change 0 with (inject_Z 0).
        rewrite <- Zlt_Qlt. lia. }
      rewrite inject_Z_opp in *. lra. }
    rewrite (round_negative x Hlt).
    assert (- x == inject_Z (- n) * 2 ^ j) as Hx' by (rewrite Hx, inject_Z_opp; ring).
    rewrite (round_pos_ext (- x) _ ltac:(lra) Hx').
    rewrite round_pos_dyadic by lia. rewrite <- Hx'. ring.
  - rewrite (round_zero x); [|rewrite Hx; ring]. rewrite Hx. ring.
  - assert (0 < x) as Hgt.
    { rewrite Hx. apply Qmult_lt_0_compat; [|done]. change 0 with (inject_Z 0).
      by rewrite <- Zlt_Qlt. }
    rewrite (round_positive x Hgt), (round_pos_ext x _ Hgt Hx).
    rewrite round_pos_dyadic by lia. by rewrite Hx.
Qed.

(** In particular the integers. *)
Lemma round_Z (n : Z) : (Z.abs n < 2 ^ 53)%Z → round (inject_Z n) == inject_Z n.
Proof.
  intros Hn. apply (round_dyadic _ n 0); [|done|lia]. change (2 ^ 0) with 1. ring.
Qed.

(** A lower and an upper bound of that kind pass through the rounding. *)
Lemma round_ge_dyadic (x : Q) (n j : Z) :
  (Z.abs n < 2 ^ 53)%Z → (-1074 <= j)%Z →
  inject_Z n * 2 ^ j <= x → inject_Z n * 2 ^ j <= round x.
Proof.
  intros Hn Hj Hle. rewrite <- (round_dyadic (inject_Z n * 2 ^ j) n j) by done.
  by apply round_mono.
Qed.

Lemma round_le_dyadic (x : Q) (n j : Z) :
  (Z.abs n < 2 ^ 53)%Z → (-1074 <= j)%Z →
  x <= inject_Z n * 2 ^ j → round x <= inject_Z n * 2 ^ j.
Proof.
  intros Hn Hj Hle. rewrite <- (round_dyadic (inject_Z n * 2 ^ j) n j) by done.
  by apply round_mono.
Qed.

End double.

(** ** The rate limiter *)

Section rate_limit.
Import RateLimit.

Lemma sleep_clock ms w : clock (sleep ms w) = clock w + Z.max 0 ms.
Proof. done. Qed.

Lemma checkRateLimit_last w :
  lastRequestTime (checkRateLimit w) = clock (checkRateLimit w).
Proof. done. Qed.

Lemma checkRateLimit_timestamps w :
  requestTimestamps (checkRateLimit w) =
  filter (λ t, clock w - t < 10 * 60 * 1000) (requestTimestamps w)
  ++ [clock (checkRateLimit w)].
Proof. done. Qed.

(** The clock never runs backwards through a check. *)
Lemma checkRateLimit_clock_ge w : clock w ≤ clock (checkRateLimit w).
Proof.
  unfold checkRateLimit. cbn -[filter Z.mul].
  repeat case_decide; rewrite ?sleep_clock; lia.
Qed.

(** Two requests are at least 600 ms apart. *)
Lemma checkRateLimit_spacing w :
  lastRequestTime w + 600 ≤ clock (checkRateLimit w).
Proof.
  unfold checkRateLimit. cbn -[filter Z.mul].
  repeat case_decide; rewrite ?sleep_clock; lia.
Qed.

(** With 996 requests in the last ten minutes, the check waits until the
    oldest of them has left the window. *)
Lemma checkRateLimit_long_wait w :
  let ts := filter (λ t, clock w - t < 10 * 60 * 1000) (requestTimestamps w) in
  (MAX_REQUESTS_PER_10_MIN ≤ length ts)%nat →
  at_index ts 0 + 600000 ≤ clock (checkRateLimit w).
Proof.
  intros ts Hlen. unfold checkRateLimit. cbn -[filter Z.mul].
  fold ts. rewrite (decide_True (P := (MAX_REQUESTS_PER_10_MIN ≤ length ts)%nat)) by done.
  repeat case_decide; rewrite ?sleep_clock; lia.
Qed.

(** Timestamps [gap] apart: a window of [m] gaps holds at most [m]. *)
Lemma spaced_window gap l c (m : nat) :
  0 ≤ gap → spaced gap l →
  (window_count (gap * Z.of_nat m) c l ≤ m)%nat.
Proof.
  intros Hgap. unfold window_count. revert c m.
  induction l as [|x l IH]; intros c m Hsp; [simpl; lia|].
  destruct Hsp as [Hx Hsp]. rewrite filter_cons.
  destruct (decide (in_window (gap * Z.of_nat m) c x)) as [Hin|Hout]; [|by apply IH].
  destruct Hin as [Hlo Hhi].
  destruct m as [|m]; [exfalso; rewrite Z.mul_0_r in Hlo; lia|]. simpl length.
  apply le_n_S. etrans; [|apply (IH (x - gap) m Hsp)].
  apply filter_length_le. eapply Forall_impl; [exact Hx|].
  intros t Ht [Hlo' _]. rewrite Nat2Z.inj_succ, Z.mul_succ_r in Hlo'.
  simpl in Ht. split; lia.
Qed.

Lemma LimiterInv_initial now : LimiterInv (initial now) [].
Proof. split; try done. intros c. unfold window_count. simpl. lia. Qed.

Lemma LimiterInv_elapse d w recorded :
  LimiterInv w recorded → LimiterInv (elapse d w) recorded.
Proof.
  intros [H1 H2 H3 H4 H5]. split; simpl; try done.
  - eapply Forall_impl; [exact H1|]. intros t Ht. simpl in Ht. lia.
  - intros c Hc. apply H4. lia.
Qed.

(** At most 995 earlier requests fall in the ten minutes that end where
    [checkRateLimit] records the new one. *)
Lemma checkRateLimit_room w recorded :
  LimiterInv w recorded →
  (length (filter (λ t, (clock (checkRateLimit w) - t < 600000)%Z) recorded)
   < MAX_REQUESTS_PER_10_MIN)%nat.
Proof.
  intros [H1 H2 H3 H4 H5].
  pose proof (checkRateLimit_long_wait w) as Hwait. cbv zeta in Hwait.
  pose proof (checkRateLimit_clock_ge w) as HnowT.
  pose proof (H4 (clock w) (Z.le_refl _)) as HFR.
  change (10 * 60 * 1000) with 600000 in Hwait.
  remember (clock (checkRateLimit w)) as T eqn:HT.
  remember (clock w) as now eqn:Hnow.
  remember (filter (λ t, now - t < 600000) (requestTimestamps w)) as F eqn:HF.
  remember (filter (λ t, now - t < 600000) recorded) as R eqn:HR.
  assert (HlenR : (length R ≤ MAX_REQUESTS_PER_10_MIN)%nat).
  { etrans; [|apply (H5 now)]. unfold window_count. subst R.
    apply filter_length_le. eapply Forall_impl; [exact H1|].
    intros t Ht Hlt. simpl in Ht. split; [lia|done]. }
  destruct (decide (MAX_REQUESTS_PER_10_MIN ≤ length F)%nat) as [Hfull|Hroom].
  - specialize (Hwait Hfull).
    destruct F as [|f0 F'];
      [simpl in Hfull; unfold MAX_REQUESTS_PER_10_MIN in Hfull; lia|].
    unfold at_index in Hwait. simpl in Hwait.
    assert (Hf0 : now - f0 < 600000).
    { assert (f0 ∈ f0 :: F') as Hin by left.
      rewrite HF in Hin. apply list_elem_of_filter in Hin. lia. }
    assert (length (filter (λ t, (T - t < 600000)%Z) recorded)
            ≤ length (filter (λ t, (f0 < t)%Z) R))%nat as Hle.
    { subst R. rewrite list_filter_filter. apply filter_length_le.
      apply Forall_forall. intros t _ Ht. lia. }
    rewrite <- HFR in Hle. rewrite filter_cons_False in Hle by lia.
    pose proof (length_filter (λ t, f0 < t) F') as HF'.
    rewrite <- HFR in HlenR. simpl in HlenR. lia.
  - rewrite HFR in Hroom.
    assert (length (filter (λ t, (T - t < 600000)%Z) recorded) ≤ length R)%nat; [|lia].
    subst R. apply filter_length_le. apply Forall_forall. intros t _ Ht. lia.
Qed.

Lemma LimiterInv_checkRateLimit w recorded :
  LimiterInv w recorded →
  LimiterInv (checkRateLimit w) (clock (checkRateLimit w) :: recorded).
Proof.
  intros HI. pose proof (checkRateLimit_room w recorded HI) as Hroom.
  destruct HI as [H1 H2 H3 H4 H5].
  pose proof (checkRateLimit_clock_ge w) as Hge.
  pose proof (checkRateLimit_spacing w) as Hsp.
  pose proof (checkRateLimit_last w) as Hlast.
  pose proof (checkRateLimit_timestamps w) as Hts.
  change (10 * 60 * 1000) with 600000 in Hts.
  remember (checkRateLimit w) as w' eqn:Hw'. clear Hw'.
  remember (clock w') as T eqn:HT.
  split.
  - rewrite <- HT. constructor; [lia|].
    eapply Forall_impl; [exact H1|]. intros t Ht. simpl in Ht. lia.
  - rewrite Hlast. constructor; [lia|].
    eapply Forall_impl; [exact H1|]. intros t Ht. simpl in Ht. lia.
  - split; [|done]. eapply Forall_impl; [exact H2|].
    intros t Ht. simpl in Ht. lia.
  - intros c Hc. rewrite <- HT in Hc. rewrite Hts.
    rewrite filter_app, list_filter_filter_l by (intros; lia).
    rewrite H4 by lia. rewrite (filter_cons _ T recorded).
    rewrite filter_cons, filter_nil.
    destruct (decide (c - T < 600000)); [|by rewrite app_nil_r].
    by rewrite Permutation_app_comm.
  - intros c. unfold window_count. rewrite filter_cons.
    destruct (decide (in_window 600000 c T)) as [[Hlo Hhi]|Hout]; [|apply H5].
    simpl length.
    assert (length (filter (in_window 600000 c) recorded)
            ≤ length (filter (λ t, (T - t < 600000)%Z) recorded))%nat; [|lia].
    apply filter_length_le. apply Forall_forall. intros t _ [Ht _]. lia.
Qed.

Lemma LimiterInv_run ops w recorded :
  LimiterInv w recorded →
  LimiterInv (run ops w recorded).1 (run ops w recorded).2.
Proof.
  revert w recorded. induction ops as [|[d|] ops IH]; intros w recorded HI; simpl.
  - done.
  - by apply IH, LimiterInv_elapse.
  - by apply IH, LimiterInv_checkRateLimit.
Qed.

(** Three requests in a row from a cold start are recorded 600 ms apart. *)
Example run_three :
  (run [Acquire; Acquire; Elapse 100; Acquire] (initial 0) []).2 = [1800; 1200; 600].
Proof. reflexivity. Qed.

(** A hundred requests in a row are recorded 600 ms apart, the last at
    60000; the next one waits 600 ms for the first to leave the minute and
    600 ms more for the spacing. *)
Example run_into_minute_limit :
  head (run (replicate 101 Acquire) (initial 0) []).2 = Some 61200.
Proof. by vm_compute. Qed.
End rate_limit.

(** A window given by its first instant is a window given by its last. *)
Lemma window_from_start (width a : Z) (recorded : list Z) :
  length (filter (λ t, a ≤ t < a + width) recorded)
  = RateLimit.window_count width (a + width - 1) recorded.
Proof.
  unfold RateLimit.window_count. f_equal. apply list_filter_iff.
  intros t. unfold RateLimit.in_window. lia.
Qed.

(** C2.  Whatever the sequence of rate-limit checks and of time passing
    between them, started from the initial limiter at any clock reading, the
    timestamps recorded for the requests let through never number more than
    100 in a rolling 60-second window, nor more than 996 in a rolling
    10-minute window.  A window of width [W] is taken half-open, as
    [checkRateLimit] itself counts: the timestamps [t] with [c - W < t <= c]
    when it is given by its end [c], or with [a <= t < a + W] when it is
    given by its start [a]. *)
Theorem C2_rate_ceiling (ops : list RateLimit.Op) (start c : Z) :
  let recorded := (RateLimit.run ops (RateLimit.initial start) []).2 in
  (RateLimit.window_count 60000 c recorded ≤ RateLimit.MAX_REQUESTS_PER_MINUTE)%nat
  ∧ (RateLimit.window_count 600000 c recorded ≤ RateLimit.MAX_REQUESTS_PER_10_MIN)%nat
  ∧ (length (filter (λ t, (c ≤ t < c + 60000)%Z) recorded)
     ≤ RateLimit.MAX_REQUESTS_PER_MINUTE)%nat
  ∧ (length (filter (λ t, (c ≤ t < c + 600000)%Z) recorded)
     ≤ RateLimit.MAX_REQUESTS_PER_10_MIN)%nat.
Proof.
  intros recorded.
  pose proof (LimiterInv_run ops _ _ (LimiterInv_initial start)) as [_ _ Hsp _ Hlong].
  fold recorded in Hsp, Hlong.
  assert (Hshort : ∀ c', (RateLimit.window_count 60000 c' recorded
                          ≤ RateLimit.MAX_REQUESTS_PER_MINUTE)%nat).
  { intros c'. apply (spaced_window 600 _ c' 100); [lia|done]. }
  rewrite !window_from_start. auto.
Qed.

(** ** Paginated fetching: backoff and retries *)

Section fetch.
Import RateLimit RedditProvider.

Lemma backoffTime_cap p : backoffTime p ≤ 30000.
Proof. unfold backoffTime. lia. Qed.

Lemma backoffTime_mono p q : 0 ≤ p ≤ q → backoffTime p ≤ backoffTime q.
Proof.
  intros Hpq. unfold backoffTime.
  assert (2 ^ p ≤ 2 ^ q) by (apply Z.pow_le_mono_r; lia). lia.
Qed.

Lemma backoffs_request sub p c evs :
  backoffs (Request sub p c :: evs) = backoffs evs.
Proof. done. Qed.

Lemma backoffs_backoff ms evs :
  backoffs (Backoff ms :: evs) = backoffs evs ++ [ms].
Proof. unfold backoffs. simpl. by rewrite reverse_cons. Qed.

Lemma ordered_up_to_mono p q evs :
  0 ≤ p ≤ q → ordered_up_to p evs → ordered_up_to q evs.
Proof.
  intros Hpq [Hs Hb]. split; [done|].
  eapply Forall_impl; [exact Hb|]. intros b Hle. simpl in Hle.
  pose proof (backoffTime_mono p q Hpq). lia.
Qed.

Lemma ordered_up_to_backoff p evs :
  ordered_up_to p evs → ordered_up_to p (Backoff (backoffTime p) :: evs).
Proof.
  intros [Hs Hb]. split; rewrite backoffs_backoff.
  - apply StronglySorted_app_2; [|done|repeat constructor].
    intros x1 x2 Hx1 ->%list_elem_of_singleton.
    by eapply Forall_forall in Hb.
  - apply Forall_app. split; [done|]. by repeat constructor.
Qed.

(** The order of the delays survives any number of iterations. *)
Lemma pages_ordered fuel srv sub pn e l :
  0 ≤ page l → ordered_up_to (page l) (events e) →
  ∃ p, ordered_up_to p (events (run_env (pages fuel srv sub pn e l))).
Proof.
  revert e l. induction fuel as [|fuel IH]; intros e l Hp Hord; simpl.
  - case_decide; simpl; eauto.
  - case_decide; [|simpl; eauto].
    unfold iteration. destruct (response (srv (sent e))) as [|code|children cursor].
    + simpl. eauto.
    + case_decide.
      * apply IH; simpl; [lia|].
        replace (page l - 1 + 1) with (page l) by lia.
        by apply ordered_up_to_backoff.
      * simpl. eauto.
    + case_decide; [simpl; eauto|].
      destruct (cursor_or_null cursor); [|simpl; eauto].
      apply IH; simpl; [lia|].
      apply (ordered_up_to_mono (page l)); [lia|done].
Qed.

(** On HTTP 429 the loop goes round again with the same locals. *)
Lemma pages_retry fuel srv sub pn e l :
  page l < pn →
  response (srv (sent e)) = Status 429 →
  pages (S fuel) srv sub pn e l =
  pages fuel srv sub pn
    {| world := sleep (backoffTime (page l))
                  (elapse (latency (srv (sent e))) (checkRateLimit (world e)));
       sent := S (sent e);
       events := Backoff (backoffTime (page l))
                 :: Request sub (page l) (after l) :: events e |}
    l.
Proof.
  intros Hp Hr. simpl. rewrite decide_True by done.
  unfold iteration. rewrite Hr. rewrite decide_True by done.
  f_equal. destruct l as [p a ps]. simpl. f_equal. lia.
Qed.

(** [k] answers 429 and then another error status: [k] retries, then the
    loop is left with what it had. *)
Lemma pages_retries k : ∀ fuel srv sub pn e l code,
  page l < pn →
  (∀ i, (i < k)%nat → response (srv (sent e + i)%nat) = Status 429) →
  response (srv (sent e + k)%nat) = Status code → code ≠ 429 →
  ∃ e', pages (S (k + fuel)) srv sub pn e l = Left e' l
        ∧ sent e' = S (sent e + k)
        ∧ backoffs (events e') =
          backoffs (events e) ++ replicate k (backoffTime (page l)).
Proof.
  induction k as [|k IH]; intros fuel srv sub pn e l code Hp H429 Hcode Hne.
  - rewrite Nat.add_0_r in Hcode. eexists. split; [|split].
    + simpl. rewrite decide_True by done. unfold iteration.
      rewrite Hcode. rewrite decide_False by done. reflexivity.
    + simpl. lia.
    + simpl. by rewrite app_nil_r.
  - change (S (S k + fuel)) with (S (S (k + fuel))).
    rewrite pages_retry; [|done|].
    2:{ specialize (H429 0%nat). rewrite Nat.add_0_r in H429. apply H429. lia. }
    edestruct (IH fuel srv sub pn) as (e' & Hrun & Hsent & Hb); [exact Hp| | |exact Hne|].
    3:{ exists e'. split; [exact Hrun|]. split.
        - rewrite Hsent. simpl. lia.
        - rewrite Hb. cbn [events]. rewrite backoffs_backoff, backoffs_request.
          rewrite <- app_assoc. f_equal. }
    + intros i Hi. cbn [sent].
      replace (S (sent e) + i)%nat with (sent e + S i)%nat by lia.
      apply H429. lia.
    + cbn [sent]. replace (S (sent e) + k)%nat with (sent e + S k)%nat by lia. done.
Qed.

(** Against a server that always answers 429 the loop is never left. *)
Lemma pages_always_429 fuel : ∀ sub pn e l,
  page l < pn → ∃ e', pages fuel always_429 sub pn e l = Running e' l.
Proof.
  induction fuel as [|fuel IH]; intros sub pn e l Hp.
  - simpl. rewrite decide_True by done. eauto.
  - rewrite pages_retry by done. by apply IH.
Qed.

Lemma fetch_ordered fuel srv sub maxItems w n :
  let evs := events (outcome_env
               (fetchMaxViralPosts fuel srv (mkEnv w n []) sub maxItems)) in
  StronglySorted Z.le (backoffs evs) ∧ Forall (λ ms, ms ≤ 30000) (backoffs evs).
Proof.
  intros evs.
  destruct (pages_ordered fuel srv sub (pagesNeededFor maxItems) (mkEnv w n [])
              {| page := 0; after := None; allPosts := [] |}) as (p & Hs & Hb).
  { simpl. lia. }
  { split; simpl; constructor. }
  assert (Heq : evs = events (run_env (pages fuel srv sub (pagesNeededFor maxItems)
                  (mkEnv w n []) {| page := 0; after := None; allPosts := [] |}))).
  { subst evs. unfold fetchMaxViralPosts. by destruct (pages _ _ _ _ _ _). }
  rewrite Heq. split; [done|].
  eapply Forall_impl; [exact Hb|]. intros b Hle. simpl in Hle.
  pose proof (backoffTime_cap p). lia.
Qed.
End fetch.

(** C1, as the code has it.  While the request for a page is answered with
    HTTP 429 the fetcher sleeps [min (1000 * 2^page) 30000] ms and goes round
    the loop again with the same page index, the same cursor and the same
    posts.  So [k] such answers followed by another error status cost
    exactly [k] retries, whatever [k] is, their delays all equal and at most
    30000 ms, before the loop is left with the posts collected so far.  Over
    a whole fetch, whatever the server does, the backoff delays are in
    non-decreasing order and none exceeds 30000 ms. *)
Theorem C1_backoff_and_retry (k fuel : nat) (srv : RP.Server) (sub : string)
    (pn : Z) (e : RP.Env) (l : RP.Locals) (code : Z) :
  RP.page l < pn →
  (∀ i, (i < k)%nat → RP.response (srv (RP.sent e + i)%nat) = RP.Status 429) →
  RP.response (srv (RP.sent e + k)%nat) = RP.Status code → code ≠ 429 →
  (∃ e', RP.pages (S (k + fuel)) srv sub pn e l = RP.Left e' l
         ∧ RP.sent e' = S (RP.sent e + k)
         ∧ RP.backoffs (RP.events e') =
           RP.backoffs (RP.events e) ++ replicate k (RP.backoffTime (RP.page l)))
  ∧ RP.backoffTime (RP.page l) ≤ 30000
  ∧ (k ≠ 0%nat →
     RP.pages (S (k + fuel)) srv sub pn e l =
     RP.pages (k + fuel) srv sub pn
       {| RP.world := RateLimit.sleep (RP.backoffTime (RP.page l))
                        (RateLimit.elapse (RP.latency (srv (RP.sent e)))
                           (RateLimit.checkRateLimit (RP.world e)));
          RP.sent := S (RP.sent e);
          RP.events := RP.Backoff (RP.backoffTime (RP.page l))
                       :: RP.Request sub (RP.page l) (RP.after l) :: RP.events e |}
       l)
  ∧ (∀ fuel' srv' sub' maxItems w n,
       let evs := RP.events (outcome_env
                    (RP.fetchMaxViralPosts fuel' srv' (RP.mkEnv w n []) sub' maxItems)) in
       StronglySorted Z.le (RP.backoffs evs)
       ∧ Forall (λ ms, ms ≤ 30000) (RP.backoffs evs)).
Proof.
  intros Hp H429 Hcode Hne. split; [|split; [|split]].
  - by eapply pages_retries.
  - apply backoffTime_cap.
  - intros Hk. apply pages_retry; [done|].
    specialize (H429 0%nat). rewrite Nat.add_0_r in H429. apply H429. lia.
  - intros fuel' srv' sub' maxItems w n. apply fetch_ordered.
Qed.

(** Two answers 429 and then a 500 on the first page: two retries of
    1000 ms each, three requests, and the loop is left. *)
Lemma C1_backoff_and_retry_witness :
  ∃ e', RP.pages 3 (flaky 2 500) "popular" 10 (fresh 0)
          {| RP.page := 0; RP.after := None; RP.allPosts := [] |}
        = RP.Left e' {| RP.page := 0; RP.after := None; RP.allPosts := [] |}
        ∧ RP.sent e' = 3%nat
        ∧ RP.backoffs (RP.events e') = [1000; 1000].
Proof.
  apply (C1_backoff_and_retry 2 0 (flaky 2 500) "popular" 10 (fresh 0)
           {| RP.page := 0; RP.after := None; RP.allPosts := [] |} 500).
  - by vm_compute.
  - intros i Hi. destruct i as [|[|i]]; [reflexivity|reflexivity|lia].
  - reflexivity.
  - discriminate.
Defined.

(** C1 fails as stated: against a server that answers 429 to every request
    the fetcher never abandons the source; no amount of fuel lets
    [fetchMaxViralPosts] return. *)
Lemma C1_retries_forever :
  ¬ ∃ fuel e posts,
      RP.fetchMaxViralPosts fuel always_429 (fresh 0) "popular" 1000
      = RP.Returned e posts.
Proof.
  intros (fuel & e & posts & H). unfold RP.fetchMaxViralPosts in H.
  edestruct (pages_always_429 fuel "popular" (RP.pagesNeededFor 1000)) as [e' He'];
    [|rewrite He' in H; discriminate].
  by vm_compute.
Qed.

(** C7, at an input where the code goes over the ceiling: asked for at most
    5 items, [fetchMaxViralPosts] fetches one page and returns all six valid
    posts the page holds, and so does [fetchMultiViralContent] for that one
    subreddit. *)
Theorem C7_ceiling_exceeded :
  match RP.fetchMaxViralPosts 1 six_posts (fresh 0) "pics" 5 with
  | RP.Returned _ posts => length posts = 6%nat
  | _ => False
  end
  ∧ match RP.fetchMultiViralContent 1 six_posts (fresh 0) ["pics"] 5 with
    | RP.Returned _ posts => length posts = 6%nat
    | _ => False
    end.
Proof. split; by vm_compute. Qed.

(** ** Engagement scores *)

Global Instance Math_round_proper : Proper (Qeq ==> eq) Math_round.
Proof. intros x y Hxy. unfold Math_round. by rewrite Hxy. Qed.

Lemma Math_round_le (x y : Q) : (x <= y)%Q → Math_round x ≤ Math_round y.
Proof.
  intros Hxy. unfold Math_round. apply Qfloor_resp_le.
  apply Qplus_le_compat; [done|apply Qle_refl].
Qed.

Lemma Math_round_thousandths (n : Z) : Math_round (n # 1000) = (n + 500) / 1000.
Proof.
  unfold Math_round.
  assert (Heq : ((n # 1000) + (1 # 2) == (n + 500) # 1000)%Q).
  { unfold Qeq, Qplus. simpl. lia. }
  rewrite Heq. reflexivity.
Qed.

Lemma Qfloor_unique (x : Q) (m : Z) :
  (inject_Z m <= x)%Q → (x < inject_Z (m + 1))%Q → Qfloor x = m.
Proof.
  intros Hlo Hhi.
  assert (m ≤ Qfloor x) by (rewrite <- (Qfloor_Z m); by apply Qfloor_resp_le).
  assert (Qfloor x < m + 1); [|lia].
  rewrite Zlt_Qlt. eapply Qle_lt_trans; [apply Qfloor_le|done].
Qed.

(** Integers read as rationals, for linear arithmetic. *)
Ltac in_Q :=
  unfold Z.sub in *;
  repeat first [ rewrite inject_Z_plus in * | rewrite inject_Z_mult in *
               | rewrite inject_Z_opp in * ];
  repeat match goal with
  | |- context [inject_Z (Zpos ?p)] =>
      change (inject_Z (Zpos p)) with (Zpos p # 1)%Q
  | H : context [inject_Z (Zpos ?p)] |- _ =>
      change (inject_Z (Zpos p)) with (Zpos p # 1)%Q in H
  end.

Ltac pow2_numerals :=
  change (2 ^ 53) with 9007199254740992 in *;
  change (2 ^ 40) with 1099511627776 in *.

(** The double nearest to 0.001 lies just above it. *)
Lemma thousandth_bounds :
  (1 # 1000 <= Double.literal (1 # 1000))%Q
  ∧ (Double.literal (1 # 1000) <= (1 # 1000) + (1 # 2 ^ 65))%Q.
Proof. split; by vm_compute. Qed.

(** Counters of less than [2^40] are out of the reach of the rounding. *)
Lemma twitter_score_rounds (S i : Z) :
  0 ≤ i < 2 ^ 40 → Z.abs S < 2 ^ 40 →
  Math_round (Double.add (inject_Z S) (Double.mul (inject_Z i) (Double.literal (1 # 1000))))
  = S + (i + 500) / 1000.
Proof.
  intros Hi HS. destruct thousandth_bounds as [Hc1 Hc2].
  set (c := Double.literal (1 # 1000)) in *.
  set (k := (i + 500) / 1000).
  assert (1000 * k ≤ i + 500 ∧ i + 500 ≤ 1000 * k + 999) as [Hk1 Hk2].
  { subst k. pose proof (Z.mul_div_le (i + 500) 1000 ltac:(lia)).
    pose proof (Z.mul_succ_div_gt (i + 500) 1000 ltac:(lia)). lia. }
  pow2_numerals.
  assert (0 ≤ k ∧ k < 1099511627776) as [Hk0 HkB] by lia.
  assert (0 <= inject_Z i)%Q as Hi0 by (change 0%Q with (inject_Z 0); rewrite <- Zle_Qle; lia).
  assert (inject_Z i <= 1099511627776)%Q as HiB.
  { change 1099511627776%Q with (inject_Z 1099511627776). rewrite <- Zle_Qle. lia. }
  assert (1000 * inject_Z k <= inject_Z i + 500)%Q as Hk1q.
  { rewrite Zle_Qle in Hk1. by in_Q. }
  assert (inject_Z i + 500 <= 1000 * inject_Z k + 999)%Q as Hk2q.
  { rewrite Zle_Qle in Hk2. by in_Q. }
  assert (inject_Z i * (1 # 1000) <= inject_Z i * c)%Q as HP1.
  { rewrite !(Qmult_comm (inject_Z i)). by apply Qmult_le_compat_r. }
  assert (inject_Z i * c <= inject_Z i * ((1 # 1000) + (1 # 2 ^ 65)))%Q as HP2.
  { rewrite !(Qmult_comm (inject_Z i)). by apply Qmult_le_compat_r. }
  change (2 ^ 65)%positive with 36893488147419103232%positive in HP2.
  unfold Double.add, Double.mul.
  set (P := (inject_Z i * c)%Q) in *.
  assert (inject_Z (2 * k - 1) * 2 ^ (-1) <= Double.round P)%Q as Hf1.
  { apply round_ge_dyadic; [lia|lia|]. change (2 ^ (-1))%Q with (1 # 2)%Q. in_Q. lra. }
  assert (Double.round P <= inject_Z (2048 * k + 1023) * 2 ^ (-11))%Q as Hf2.
  { apply round_le_dyadic; [lia|lia|]. change (2 ^ (-11))%Q with (1 # 2048)%Q. in_Q. lra. }
  set (f := Double.round P) in *.
  assert (inject_Z (2 * (S + k) - 1) * 2 ^ (-1) <= Double.round (inject_Z S + f))%Q as Hy1.
  { apply round_ge_dyadic; [lia|lia|]. change (2 ^ (-1))%Q with (1 # 2)%Q in *. in_Q. lra. }
  assert (Double.round (inject_Z S + f) <= inject_Z (2048 * (S + k) + 1023) * 2 ^ (-11))%Q
    as Hy2.
  { apply round_le_dyadic; [lia|lia|]. change (2 ^ (-11))%Q with (1 # 2048)%Q in *. in_Q. lra. }
  unfold Math_round. apply Qfloor_unique.
  - change (2 ^ (-1))%Q with (1 # 2)%Q in *. in_Q. lra.
  - change (2 ^ (-11))%Q with (1 # 2048)%Q in *. in_Q. lra.
Qed.

(** The score of a tweet, in integers. *)
Lemma twitter_score_closed (m : TAS.PublicMetrics) :
  let engagement :=
    TAS.counter (TAS.like_count m) + 3 * TAS.counter (TAS.retweet_count m)
    + 4 * TAS.counter (TAS.reply_count m) + 3 * TAS.counter (TAS.quote_count m)
    + 2 * TAS.counter (TAS.bookmark_count m) in
  0 ≤ TAS.counter (TAS.impression_count m) < 2 ^ 40 → Z.abs engagement < 2 ^ 40 →
  TAS.calculateEngagementScore m
  = engagement + (TAS.counter (TAS.impression_count m) + 500) / 1000.
Proof.
  intros engagement Hi HS. unfold TAS.calculateEngagementScore. cbv zeta.
  replace (TAS.counter (TAS.like_count m) * 1 + TAS.counter (TAS.retweet_count m) * 3
           + TAS.counter (TAS.reply_count m) * 4 + TAS.counter (TAS.quote_count m) * 3
           + TAS.counter (TAS.bookmark_count m) * 2) with engagement by (subst engagement; lia).
  by apply twitter_score_rounds.
Qed.

(** The hours since publication, as the code computes them, compared with
    a whole number of hours. *)
Lemma Qle_bool_hoursAgo (now created h : Z) :
  Z.abs created < 2 ^ 40 → 0 ≤ h ≤ 12 →
  Qle_bool
    (Double.div (Double.sub (Double.div (inject_Z now) 1000) (inject_Z created)) 3600)
    (inject_Z h)
  = bool_decide (now - created * 1000 ≤ h * 3600000).
Proof.
  intros Hc Hh. pow2_numerals. unfold Double.div, Double.sub.
  set (a := Double.round (inject_Z now / 1000)).
  set (b := Double.round (a - inject_Z created)).
  destruct (decide (now - created * 1000 ≤ h * 3600000)) as [Hle|Hgt].
  - rewrite bool_decide_eq_true_2 by done. apply Qle_bool_iff.
    assert (inject_Z now <= 1000 * inject_Z created + 3600000 * inject_Z h)%Q as Hq.
    { assert (now ≤ 1000 * created + 3600000 * h) as H by lia.
      rewrite Zle_Qle in H. by in_Q. }
    assert (a <= inject_Z (created + 3600 * h) * 2 ^ 0)%Q as Ha.
    { apply round_le_dyadic; [lia|lia|]. change (2 ^ 0)%Q with 1%Q.
      apply Qle_shift_div_r; [done|]. in_Q. lra. }
    assert (b <= inject_Z (3600 * h) * 2 ^ 0)%Q as Hb.
    { apply round_le_dyadic; [lia|lia|]. change (2 ^ 0)%Q with 1%Q in *. in_Q. lra. }
    rewrite <- (Qmult_1_r (inject_Z h)). change 1%Q with (2 ^ 0)%Q.
    apply round_le_dyadic; [lia|lia|]. change (2 ^ 0)%Q with 1%Q in *.
    apply Qle_shift_div_r; [done|]. in_Q. lra.
  - rewrite bool_decide_eq_false_2 by done.
    destruct (Qle_bool _ _) eqn:Hb'; [|done]. exfalso. apply Qle_bool_iff in Hb'.
    assert (1000 * inject_Z created + 3600000 * inject_Z h + 1 <= inject_Z now)%Q as Hq.
    { assert (1000 * created + 3600000 * h + 1 ≤ now) as H by lia.
      rewrite Zle_Qle in H. by in_Q. }
    assert (inject_Z (1024 * (created + 3600 * h) + 1) * 2 ^ (-10) <= a)%Q as Ha.
    { apply round_ge_dyadic; [lia|lia|]. change (2 ^ (-10))%Q with (1 # 1024)%Q.
      apply Qle_shift_div_l; [done|]. in_Q. lra. }
    assert (inject_Z (1024 * (3600 * h) + 1) * 2 ^ (-10) <= b)%Q as Hb.
    { apply round_ge_dyadic; [lia|lia|]. change (2 ^ (-10))%Q with (1 # 1024)%Q in *. in_Q. lra. }
    assert (inject_Z (4194304 * h + 1) * 2 ^ (-22) <= Double.round (b / 3600))%Q as Hc'.
    { apply round_ge_dyadic; [lia|lia|]. change (2 ^ (-10))%Q with (1 # 1024)%Q in *.
      change (2 ^ (-22))%Q with (1 # 4194304)%Q.
      apply Qle_shift_div_l; [done|]. in_Q. lra. }
    change (2 ^ (-22))%Q with (1 # 4194304)%Q in Hc'. in_Q. lra.
Qed.

(** [calculateRecencyBonus] is the step function of the elapsed time, for
    publication times of less than [2^40] seconds. *)
Lemma calculateRecencyBonus_steps (now created : Z) :
  Z.abs created < 2 ^ 40 →
  RP.calculateRecencyBonus now created = inject_Z (recency_bonus (now - created * 1000)).
Proof.
  intros Hc. unfold RP.calculateRecencyBonus, recency_bonus. cbv zeta.
  change 2%Q with (inject_Z 2). change 6%Q with (inject_Z 6).
  change 12%Q with (inject_Z 12).
  rewrite (Qle_bool_hoursAgo now created 2), (Qle_bool_hoursAgo now created 6),
    (Qle_bool_hoursAgo now created 12) by (done || lia).
  repeat case_bool_decide; repeat case_decide; try reflexivity; lia.
Qed.

(** Whatever the clock and the publication time, the bonus is one of the
    four steps, and it never grows with the clock. *)
Lemma calculateRecencyBonus_range (now created : Z) :
  (0 <= RP.calculateRecencyBonus now created <= 100)%Q.
Proof.
  unfold RP.calculateRecencyBonus. cbv zeta.
  repeat destruct (Qle_bool _ _); split; by vm_compute.
Qed.

Lemma calculateRecencyBonus_decays (now later created : Z) :
  now ≤ later →
  (RP.calculateRecencyBonus later created <= RP.calculateRecencyBonus now created)%Q.
Proof.
  intros Hle. unfold RP.calculateRecencyBonus. cbv zeta.
  set (h1 := Double.div (Double.sub (Double.div (inject_Z now) 1000) (inject_Z created)) 3600).
  set (h2 := Double.div (Double.sub (Double.div (inject_Z later) 1000) (inject_Z created))
               3600).
  assert (h1 <= h2)%Q as Hh.
  { unfold h1, h2, Double.div, Double.sub.
    apply round_mono, Qmult_le_compat_r; [|done].
    apply round_mono, Qplus_le_compat; [|apply Qle_refl].
    apply round_mono, Qmult_le_compat_r; [|done]. by rewrite <- Zle_Qle. }
  assert (∀ t, Qle_bool h2 t = true → Qle_bool h1 t = true) as Hstep.
  { intros t Ht%Qle_bool_iff. apply Qle_bool_iff. by eapply Qle_trans. }
  destruct (Qle_bool h2 2) eqn:H2; [rewrite (Hstep 2%Q H2); by vm_compute|].
  destruct (Qle_bool h2 6) eqn:H6;
    [rewrite (Hstep 6%Q H6); destruct (Qle_bool h1 2); by vm_compute|].
  destruct (Qle_bool h2 12) eqn:H12;
    [rewrite (Hstep 12%Q H12); destruct (Qle_bool h1 2), (Qle_bool h1 6); by vm_compute|].
  destruct (Qle_bool h1 2), (Qle_bool h1 6), (Qle_bool h1 12); by vm_compute.
Qed.

Lemma num_or_nonneg (x d : Q) : (0 <= x)%Q → (0 <= d)%Q → (0 <= RP.num_or x d)%Q.
Proof. intros ??. unfold RP.num_or. by destruct (Qeq_bool x 0). Qed.

Lemma round_nonneg (x : Q) : (0 <= x)%Q → (0 <= Double.round x)%Q.
Proof.
  intros H. eapply Qle_trans; [|apply (round_mono 0 x H)]. by vm_compute.
Qed.

Lemma ratio_nonneg (p : RP.RedditPost) : (0 <= RP.upvote_ratio p)%Q → (0 <= RP.ratio p)%Q.
Proof. apply round_nonneg. Qed.

Lemma add_mono (x x' y y' : Q) :
  (x <= x')%Q → (y <= y')%Q → (Double.add x y <= Double.add x' y')%Q.
Proof. intros ??. apply round_mono. by apply Qplus_le_compat. Qed.

Lemma mul_mono_l (x x' y : Q) :
  (0 <= y)%Q → (x <= x')%Q → (Double.mul x y <= Double.mul x' y)%Q.
Proof. intros ??. apply round_mono. by apply Qmult_le_compat_r. Qed.

Lemma reddit_score_mono (now : Z) (c : RedditCounter) (v : Z) (p : RP.RedditPost) :
  (0 <= RP.upvote_ratio p)%Q → reddit_reading c p < v →
  RP.calculateEngagementScore now p ≤ RP.calculateEngagementScore now (with_counter c v p).
Proof.
  intros Hr%ratio_nonneg Hlt. unfold RP.calculateEngagementScore. apply Math_round_le.
  unfold RP.ratio in *. destruct c; simpl in *.
  - repeat apply add_mono; try apply Qle_refl.
    + apply mul_mono_l; [by apply num_or_nonneg|].
      rewrite <- Zle_Qle. lia.
    + destruct (RP.Qltb _ _); [|apply Qle_refl].
      apply mul_mono_l; [done|]. rewrite <- Zle_Qle. lia.
  - repeat apply add_mono; try apply Qle_refl.
    rewrite <- Zle_Qle. lia.
Qed.

Lemma twitter_score_mono (c : Counter) (m1 m2 : TAS.PublicMetrics) :
  differ_only_at c m1 m2 → reading c m1 < reading c m2 →
  TAS.calculateEngagementScore m1 ≤ TAS.calculateEngagementScore m2.
Proof.
  intros Hsame Hlt.
  pose proof (Hsame Likes) as HL. pose proof (Hsame Retweets) as HR.
  pose proof (Hsame Replies) as HP. pose proof (Hsame Quotes) as HQ.
  pose proof (Hsame Bookmarks) as HB. pose proof (Hsame Impressions) as HI.
  unfold reading in *. unfold TAS.calculateEngagementScore. cbv zeta.
  apply Math_round_le, add_mono.
  - rewrite <- Zle_Qle.
    destruct c;
      repeat match goal with
      | H : ?c' ≠ ?c → _ |- _ =>
          first [ specialize (H ltac:(discriminate)) | clear H ]
      end; lia.
  - apply mul_mono_l; [by vm_compute|]. rewrite <- Zle_Qle.
    destruct c; try (rewrite HI by done; lia). lia.
Qed.

(** C3, as the code has it.  The score of a normalised tweet is the
    rounding to the nearest integer of
    [likes + 3 shares + 4 comments + 3 quotes + 2 bookmarks] plus the
    double-precision product of the views and 0.001, with no recency bonus;
    for counters of less than [2^40] that is the sum plus a thousandth of
    the views rounded to the nearest integer.  The score of a normalised
    Reddit post is the rounding to the nearest integer of
    [likes * r + 3 comments + (likes * 0.5 when the upvote ratio exceeds
    0.8) + recency bonus], each product and each sum being a
    double-precision one, taken from left to right; [r] is the upvote ratio
    (0.5 when it is 0), the shares carry no weight of their own, and the
    recency bonus is the step function of the time since publication: 100
    up to 2 hours, 50 up to 6 hours, 25 up to 12 hours, 0 beyond
    (publication times being less than [2^40] seconds from the epoch). *)
Theorem C3_engagement_score_formulas :
  (∀ now m tweet,
     let p := TAS.transformTweet now m tweet in
     let metrics := default TAS.no_metrics (TAS.public_metrics tweet) in
     let engagement :=
       likes p + 3 * shares p + 4 * comments p
       + 3 * TAS.counter (TAS.quote_count metrics)
       + 2 * TAS.counter (TAS.bookmark_count metrics) in
     engagement_score p
     = Math_round
         (Double.add (inject_Z engagement)
            (Double.mul (inject_Z (views p)) (Double.literal (1 # 1000))))
     ∧ (0 ≤ views p < 2 ^ 40 → Z.abs engagement < 2 ^ 40 →
        engagement_score p = engagement + (views p + 500) / 1000))
  ∧ (∀ now post,
       let p := RP.transformPost now post in
       let ratio := RP.ratio post in
       let adjusted_upvotes :=
         Double.mul (inject_Z (likes p)) (RP.num_or ratio (Double.literal (1 # 2))) in
       let ratio_bonus :=
         if RP.Qltb (Double.literal (8 # 10)) (RP.num_or ratio 0)
         then Double.mul (inject_Z (likes p)) (Double.literal (1 # 2)) else 0%Q in
       Z.abs (RP.created_utc post) < 2 ^ 40 →
       engagement_score p =
         Math_round
           (Double.add
              (Double.add (Double.add adjusted_upvotes (inject_Z (comments p * 3)))
                 ratio_bonus)
              (inject_Z (recency_bonus (discovered_at p - published_at p))))).
Proof.
  split.
  - intros now m tweet. simpl. split.
    + unfold TAS.calculateEngagementScore. cbv zeta.
      destruct (TAS.public_metrics tweet); simpl; do 3 f_equal; lia.
    + intros Hv He. rewrite twitter_score_closed.
      * by destruct (TAS.public_metrics tweet).
      * by destruct (TAS.public_metrics tweet).
      * destruct (TAS.public_metrics tweet); simpl in *; lia.
  - intros now post. simpl. intros Hc. unfold RP.calculateEngagementScore.
    by rewrite calculateRecencyBonus_steps.
Qed.

(** A tweet with ten likes and a thousand views scores 11; a Reddit post
    with 100 upvotes at a ratio of 0.9 and 10 comments scores 270 when it
    is fresh. *)
Lemma C3_engagement_score_formulas_witness :
  engagement_score
    (TAS.transformTweet 0 its_author
       (TAS.mkTweet "1" (Some "hello world") "u1"
          (Some (TAS.mkMetrics (Some 10) None None None None (Some 1000))) None None (Some 0)))
  = 10 + 3 * 0 + 4 * 0 + 3 * 0 + 2 * 0 + (1000 + 500) / 1000
  ∧ engagement_score (RP.transformPost 0 (sample_post "a" (9 # 10))) = 270.
Proof.
  split.
  - apply (proj2 (proj1 C3_engagement_score_formulas 0 its_author
                    (TAS.mkTweet "1" (Some "hello world") "u1"
                       (Some (TAS.mkMetrics (Some 10) None None None None (Some 1000)))
                       None None (Some 0)))); by vm_compute.
  - rewrite (proj2 C3_engagement_score_formulas 0 (sample_post "a" (9 # 10)));
      by vm_compute.
Defined.

(** The rounding of the products shows in the score: 150 upvotes at a ratio
    of 0.69 and 6 comments make 121 once the post is older than twelve
    hours, the product being just below 103.5, and 222 while the post is
    fresh, the sum being 221.5. *)
Example reddit_score_rounds_products :
  let post := with_counter Upvotes 150 (with_counter Comments 6 (sample_post "a" (69 # 100))) in
  RP.calculateEngagementScore (RP.created_utc post * 1000 + 13 * 3600000) post = 121
  ∧ RP.calculateEngagementScore (RP.created_utc post * 1000) post = 222
  ∧ (Double.mul 150 (RP.ratio post) < 1035 # 10)%Q.
Proof. by vm_compute. Qed.

(** C3 fails as stated.  Two valid Reddit posts with the same likes, shares,
    comments, views and age get different scores (200 and 270), so the score
    is no function of the counters and the elapsed time; and a tweet that
    passes the quality filter scores the same whether it is discovered at
    the moment it is published or a day later, so no bonus that is positive
    for fresh posts and zero after half a day enters the score of a tweet. *)
Lemma C3_counterexample :
  (¬ ∃ score_of : Z → Z → Z → Z → Z → Z,
       ∀ now post, RP.isValidPost post = true →
         let p := RP.transformPost now post in
         engagement_score p =
           score_of (likes p) (shares p) (comments p) (views p)
                    (discovered_at p - published_at p))
  ∧ (¬ ∃ (w1 w2 w3 w4 w5 : Q) (bonus : Z → Q),
         (0 < bonus 0%Z)%Q ∧ (bonus (24 * 3600000)%Z == 0)%Q ∧
         ∀ now m tweet,
           let p := TAS.transformTweet now m tweet in
           let metrics := default TAS.no_metrics (TAS.public_metrics tweet) in
           TAS.hasBasicQuality p = true →
           (inject_Z (engagement_score p) ==
              w1 * inject_Z (likes p) + w2 * inject_Z (shares p)
              + w3 * inject_Z (comments p)
              + w4 * inject_Z (TAS.counter (TAS.quote_count metrics)
                               + TAS.counter (TAS.bookmark_count metrics))%Z
              + w5 * inject_Z (views p)
              + bonus (discovered_at p - published_at p)%Z)%Q).
Proof.
  split.
  - intros [score_of H].
    pose proof (H 0 (sample_post "a" (7 # 10)) eq_refl) as Ha.
    pose proof (H 0 (sample_post "a" (9 # 10)) eq_refl) as Hb.
    vm_compute in Ha, Hb. congruence.
  - intros (w1 & w2 & w3 & w4 & w5 & bonus & Hpos & Hzero & H).
    pose proof (H (24 * 3600000) its_author (liked_tweet (24 * 3600000)) eq_refl) as Hfresh.
    pose proof (H (24 * 3600000) its_author (liked_tweet 0) eq_refl) as Hold.
    cbn [TAS.transformTweet likes shares comments views engagement_score
         discovered_at published_at liked_tweet TAS.public_metrics TAS.created_at
         default] in Hfresh, Hold.
    rewrite Z.sub_diag in Hfresh. rewrite Z.sub_0_r in Hold.
    rewrite Hold in Hfresh. apply Qplus_inj_l in Hfresh.
    rewrite Hzero in Hfresh. rewrite <- Hfresh in Hpos.
    by apply Qlt_irrefl in Hpos.
Qed.

(** C4.  Raising exactly one engagement counter of a tweet (likes,
    retweets, replies, quotes, bookmarks or impressions), or exactly one of a
    Reddit post (upvotes or comments) whose upvote ratio is not negative,
    never lowers the engagement score. *)
Theorem C4_score_monotone (c : Counter) (m1 m2 : TAS.PublicMetrics)
    (now : Z) (rc : RedditCounter) (v : Z) (post : RP.RedditPost) :
  differ_only_at c m1 m2 → reading c m1 < reading c m2 →
  (0 <= RP.upvote_ratio post)%Q → reddit_reading rc post < v →
  TAS.calculateEngagementScore m1 ≤ TAS.calculateEngagementScore m2
  ∧ RP.calculateEngagementScore now post
    ≤ RP.calculateEngagementScore now (with_counter rc v post).
Proof.
  intros Hsame Hlt Hratio Hv. split.
  - by eapply twitter_score_mono.
  - by apply reddit_score_mono.
Qed.

(** Five more retweets on a tweet, one more upvote on a Reddit post. *)
Lemma C4_score_monotone_witness :
  TAS.calculateEngagementScore (TAS.mkMetrics (Some 10) None None None None (Some 1000))
  ≤ TAS.calculateEngagementScore (TAS.mkMetrics (Some 10) (Some 5) None None None (Some 1000))
  ∧ RP.calculateEngagementScore 0 (sample_post "a" (7 # 10))
    ≤ RP.calculateEngagementScore 0 (with_counter Upvotes 101 (sample_post "a" (7 # 10))).
Proof.
  apply (C4_score_monotone Retweets
           (TAS.mkMetrics (Some 10) None None None None (Some 1000))
           (TAS.mkMetrics (Some 10) (Some 5) None None None (Some 1000))
           0 Upvotes 101 (sample_post "a" (7 # 10))).
  - intros c' Hc'. by destruct c'.
  - by vm_compute.
  - by vm_compute.
  - by vm_compute.
Defined.

(** The scenario of the specification: five retweets outweigh a thousand
    views. *)
Example active_signals_dominate :
  TAS.calculateEngagementScore (TAS.mkMetrics (Some 10) (Some 0) (Some 0) None None (Some 1000))
  < TAS.calculateEngagementScore (TAS.mkMetrics (Some 10) (Some 5) (Some 0) None None (Some 0)).
Proof. by vm_compute. Qed.

(** C10.  A normalised Reddit post has its shares equal to its comments,
    both being the [num_comments] of the source post. *)
Theorem C10_reddit_shares_are_comments (now : Z) (post : RP.RedditPost) :
  shares (RP.transformPost now post) = comments (RP.transformPost now post)
  ∧ comments (RP.transformPost now post) = RP.num_comments post.
Proof. done. Qed.

(** ** Deduplication *)

Lemma dedup_same_reddit seen posts : RP.dedup_from seen posts = TAS.dedup_from seen posts.
Proof.
  revert seen. induction posts as [|p posts IH]; intros seen; simpl; [done|].
  by rewrite !IH.
Qed.

Lemma dedup_from_snoc seen pre post :
  TAS.dedup_from seen (pre ++ [post]) =
  TAS.dedup_from seen pre
  ++ (if decide (platform_post_id post ∈ seen
                 ∨ platform_post_id post ∈ platform_post_id <$> pre)
      then [] else [post]).
Proof.
  revert seen. induction pre as [|p pre IH]; intros seen; simpl.
  - destruct (decide (platform_post_id post ∈ seen)) as [Hin|Hout].
    + rewrite decide_True by auto. done.
    + rewrite decide_False; [done|]. intros [?|Hin]; [done|]. by apply elem_of_nil in Hin.
  - destruct (decide (platform_post_id p ∈ seen)) as [Hin|Hout].
    + rewrite IH. f_equal. apply decide_ext. rewrite elem_of_cons.
      split; [tauto|]. intros [?|[->|?]]; auto.
    + simpl. rewrite IH. f_equal. f_equal. apply decide_ext.
      rewrite elem_of_cons, elem_of_union, elem_of_singleton. tauto.
Qed.

(** C6, as the code has it.  Going through the posts in order, both
    [removeDuplicatePosts] drop a post exactly when an earlier post of the
    same call has the same [platform_post_id], and keep it otherwise; neither
    the source nor the text of a post has any part in it. *)
Theorem C6_dedup_by_platform_post_id (pre : list TrendingPost) (post : TrendingPost) :
  let seen_before := platform_post_id post ∈ platform_post_id <$> pre in
  TAS.removeDuplicatePosts (pre ++ [post]) =
    TAS.removeDuplicatePosts pre ++ (if decide seen_before then [] else [post])
  ∧ RP.removeDuplicatePosts (pre ++ [post]) =
    RP.removeDuplicatePosts pre ++ (if decide seen_before then [] else [post]).
Proof.
  intros seen_before.
  assert (Hsnoc : TAS.dedup_from ∅ (pre ++ [post]) =
                  TAS.dedup_from ∅ pre ++ (if decide seen_before then [] else [post])).
  { rewrite dedup_from_snoc. f_equal. apply decide_ext.
    split; [intros [Hin|?]; [by apply elem_of_empty in Hin|done]|by right]. }
  split; [exact Hsnoc|].
  unfold RP.removeDuplicatePosts. rewrite !dedup_same_reddit. exact Hsnoc.
Qed.

(** C6 fails as stated: a tweet and a Reddit post that share a
    [platform_post_id] are not both kept; the second is dropped. *)
Lemma C6_counterexample :
  let tweet := stored_post "twitter" "a_1" "first text" [] None in
  let thread := stored_post "reddit" "a_1" "second text" [] None in
  platform tweet ≠ platform thread
  ∧ TAS.removeDuplicatePosts [tweet; thread] = [tweet]
  ∧ RP.removeDuplicatePosts [tweet; thread] = [tweet].
Proof. split; [done|]. split; by vm_compute. Qed.

(** ** The discovery gate *)

Section gate.
Import DiscoverRoute.







End gate.




(** ** Sentiment mix *)


Section sentiment.
Import TrendingAnalysisService.








End sentiment.




(** ** Dictionaries and sorting *)

Section dict.
Context {V : Type}.
Implicit Types (d : Dict.t V) (e : string * V).

Lemma String_eqb_decide (a b : string) : String.eqb a b = bool_decide (a = b).
Proof.
  destruct (String.eqb_spec a b); symmetry;
    [by apply bool_decide_eq_true|by apply bool_decide_eq_false].
Qed.

(** Setting a key that is not there appends an entry. *)
Lemma Dict_set_fresh d k v : k ∉ d.*1 → Dict.set d k v = d ++ [(k, v)].
Proof.
  induction d as [|[k' v'] d IH]; intros Hk; simpl; [done|].
  rewrite String_eqb_decide. rewrite fmap_cons, not_elem_of_cons in Hk.
  destruct Hk as [Hne Hk]. rewrite bool_decide_eq_false_2 by done.
  by rewrite IH.
Qed.

Lemma Dict_set_keys_present d k v : k ∈ d.*1 → (Dict.set d k v).*1 = d.*1.
Proof.
  induction d as [|[k' v'] d IH]; intros Hk; simpl.
  - by apply elem_of_nil in Hk.
  - rewrite String_eqb_decide. rewrite fmap_cons, elem_of_cons in Hk.
    case_bool_decide; [done|]. rewrite !fmap_cons. f_equal.
    apply IH. destruct Hk as [->|Hk]; [done|exact Hk].
Qed.

Lemma Dict_set_NoDup d k v : NoDup d.*1 → NoDup (Dict.set d k v).*1.
Proof.
  intros Hd. destruct (decide (k ∈ d.*1)) as [Hin|Hout].
  - by rewrite Dict_set_keys_present.
  - rewrite Dict_set_fresh by done. rewrite fmap_app. simpl.
    apply NoDup_app. split; [done|]. split; [|apply NoDup_singleton].
    intros x Hx ->%list_elem_of_singleton. done.
Qed.

Lemma Dict_set_nonempty d k v : Dict.set d k v ≠ [].
Proof. destruct d as [|[k' v'] d]; simpl; [done|]. by destruct (String.eqb k' k). Qed.

Lemma insert_by_index_perm e l : Dict.insert_by_index e l ≡ₚ e :: l.
Proof.
  induction l as [|e' l IH]; simpl; [done|].
  destruct (_ <? _)%N; [done|]. rewrite IH. apply Permutation_swap.
Qed.

Lemma List_filter_split (f : string * V → bool) l :
  List.filter f l ++ List.filter (λ e, negb (f e)) l ≡ₚ l.
Proof.
  induction l as [|e l IH]; simpl; [done|].
  destruct (f e); simpl.
  - by rewrite IH.
  - rewrite <- Permutation_middle. by rewrite IH.
Qed.

(** [Object.entries] enumerates exactly the entries of the object. *)
Lemma Dict_entries_perm d : Dict.entries d ≡ₚ d.
Proof.
  unfold Dict.entries.
  assert (Hsort : ∀ l : list (string * V), foldr Dict.insert_by_index [] l ≡ₚ l).
  { induction l as [|e l IH]; simpl; [done|]. by rewrite insert_by_index_perm, IH. }
  rewrite Hsort. apply List_filter_split.
Qed.

(** Copying the entries that satisfy [P], their keys being distinct,
    appends them in order. *)
Lemma foldl_set_distinct (P : string * V → Prop) `{!∀ e, Decision (P e)} l acc :
  NoDup (acc ++ l).*1 →
  foldl (λ acc e, if decide (P e) then Dict.set acc e.1 e.2 else acc) acc l
  = acc ++ filter P l.
Proof.
  revert acc. induction l as [|[k v] l IH]; intros acc Hnd; simpl.
  - by rewrite app_nil_r.
  - rewrite filter_cons. destruct (decide (P (k, v))) as [HP|HP]; simpl.
    + rewrite Dict_set_fresh.
      * rewrite IH; [by rewrite <- app_assoc|].
        by rewrite <- app_assoc.
      * rewrite fmap_app in Hnd. apply NoDup_app in Hnd as (_ & Hdisj & _).
        intros Hin. apply (Hdisj k Hin). simpl. left.
    + apply IH. rewrite fmap_app in *. simpl in Hnd.
      apply NoDup_app in Hnd as (H1 & H2 & H3). apply NoDup_cons in H3 as [H3 H4].
      apply NoDup_app. split; [done|]. split; [|done].
      intros x Hx Hx'. apply (H2 x Hx). by right.
Qed.

Lemma foldl_set_all l acc :
  NoDup (acc ++ l).*1 → foldl (λ acc e, Dict.set acc e.1 e.2) acc l = acc ++ l.
Proof.
  revert acc. induction l as [|[k v] l IH]; intros acc Hnd; simpl.
  - by rewrite app_nil_r.
  - rewrite Dict_set_fresh.
    + rewrite IH; by rewrite <- app_assoc.
    + rewrite fmap_app in Hnd. apply NoDup_app in Hnd as (_ & Hdisj & _).
      intros Hin. apply (Hdisj k Hin). simpl. left.
Qed.
End dict.

Section sorting.
Context {A : Type} (size : A → nat).

Lemma insert_sorted_perm (c : A → A → Z) x l : Array.insert_sorted c x l ≡ₚ x :: l.
Proof.
  induction l as [|y l IH]; simpl; [done|].
  destruct (_ <=? _); [done|]. rewrite IH. apply Permutation_swap.
Qed.

Lemma sort_perm (c : A → A → Z) l : Array.sort c l ≡ₚ l.
Proof.
  unfold Array.sort. induction l as [|x l IH]; simpl; [done|].
  by rewrite insert_sorted_perm, IH.
Qed.

Lemma insert_sorted_desc x l :
  StronglySorted (larger size) l →
  StronglySorted (larger size) (Array.insert_sorted (size_desc size) x l).
Proof.
  induction 1 as [|y l Hs IH Hy]; simpl; [repeat constructor|].
  destruct (Z.leb_spec (size_desc size x y) 0) as [Hle|Hgt]; unfold size_desc in *.
  - constructor; [by constructor|].
    constructor; [unfold larger; lia|].
    eapply Forall_impl; [exact Hy|]. unfold larger. intros z Hz. simpl in Hz. lia.
  - constructor; [done|].
    rewrite insert_sorted_perm. constructor; [unfold larger; lia|done].
Qed.

(** Sorting by descending size puts larger elements first. *)
Lemma sort_desc l : StronglySorted (larger size) (Array.sort (size_desc size) l).
Proof.
  unfold Array.sort. induction l as [|x l IH]; simpl; [constructor|].
  by apply insert_sorted_desc.
Qed.

Lemma take_larger_than_rest n l a b :
  StronglySorted (larger size) l → a ∈ take n l → b ∈ l → b ∉ take n l →
  larger size a b.
Proof.
  intros Hs Ha Hb Hnb.
  rewrite <- (take_drop n l) in Hs, Hb.
  apply StronglySorted_app in Hs as (H12 & _ & _).
  apply elem_of_app in Hb as [Hb|Hb]; [done|]. by apply H12.
Qed.
End sorting.

(** ** Trend groups *)

Section groups.
Import TrendingAnalysisService.

Lemma groupsOf_NoDup posts : NoDup (groupsOf posts).*1.
Proof.
  unfold groupsOf.
  assert (H : ∀ acc, NoDup acc.*1 → NoDup (foldl assign acc posts).*1).
  { induction posts as [|p posts IH]; intros acc Hacc; simpl; [done|].
    by apply IH, Dict_set_NoDup. }
  apply H. constructor.
Qed.

Lemma foldl_assign_nonempty posts acc : acc ≠ [] → foldl assign acc posts ≠ [].
Proof.
  revert acc. induction posts as [|p posts IH]; intros acc Hacc; simpl; [done|].
  apply IH, Dict_set_nonempty.
Qed.

Lemma groupsOf_nonempty posts : posts ≠ [] → groupsOf posts ≠ [].
Proof.
  unfold groupsOf. destruct posts as [|p posts]; [done|]. intros _. simpl.
  apply foldl_assign_nonempty, Dict_set_nonempty.
Qed.

Lemma filtered_groups (E : list (string * list TrendingPost)) :
  NoDup E.*1 →
  foldl (λ acc e, if decide (MIN_GROUP_SIZE ≤ length e.2)%nat
                  then Dict.set acc e.1 e.2 else acc) [] E
  = filter (λ g, (MIN_GROUP_SIZE ≤ group_size g)%nat) E.
Proof.
  intros Hnd.
  by rewrite (foldl_set_distinct (λ g, (MIN_GROUP_SIZE ≤ group_size g)%nat) E []).
Qed.

Lemma copied_groups (E : list (string * list TrendingPost)) :
  NoDup E.*1 → foldl (λ acc e, Dict.set acc e.1 e.2) [] E = E.
Proof. intros Hnd. by rewrite (foldl_set_all E []). Qed.

Lemma NoDup_keys_take n (E : list (string * list TrendingPost)) :
  NoDup E.*1 → NoDup (take n E).*1.
Proof.
  intros Hnd. rewrite fmap_take. rewrite <- (take_drop n E.*1) in Hnd.
  by apply NoDup_app in Hnd as (? & _ & _).
Qed.

(** What [groupPostsByTrends] returns, case by case. *)
Lemma groupPostsByTrends_cases posts :
  let groups := Dict.entries (groupsOf posts) in
  let large := filter (λ g, (MIN_GROUP_SIZE ≤ group_size g)%nat) groups in
  groupPostsByTrends posts =
  if decide (large = []) then take FALLBACK_GROUPS (Array.sort by_size_desc groups)
  else large.
Proof.
  intros groups large. unfold groupPostsByTrends.
  assert (Hnd : NoDup groups.*1).
  { subst groups. rewrite Dict_entries_perm. apply groupsOf_NoDup. }
  fold groups. rewrite (filtered_groups groups Hnd). fold large.
  assert (Hlen : length (Dict.keys large) = length large).
  { unfold Dict.keys. by rewrite length_fmap, Dict_entries_perm. }
  rewrite Hlen. destruct large as [|g large'] eqn:Hlarge; simpl length.
  - rewrite decide_True by done. rewrite decide_True by done.
    unfold Array.slice0. apply copied_groups, NoDup_keys_take.
    by rewrite sort_perm.
  - rewrite decide_False by done. by rewrite decide_False by done.
Qed.
End groups.

(** C5.  For a non-empty list of posts the clusterer returns at least one
    group, and only groups it formed.  When some group has at least 2
    members, it returns exactly the groups with at least 2 members.  When no
    group has, it returns 5 groups (all of them if there are fewer), none
    smaller than a group left out. *)
Theorem C5_small_groups_dropped (posts : list TrendingPost) :
  posts ≠ [] →
  let groups := TAS.groupsOf posts in
  let kept := TAS.groupPostsByTrends posts in
  kept ≠ []
  ∧ (∀ g, g ∈ kept → g ∈ groups)
  ∧ ((∃ g, g ∈ groups ∧ (TAS.MIN_GROUP_SIZE ≤ length g.2)%nat) →
     ∀ g, g ∈ kept ↔ g ∈ groups ∧ (TAS.MIN_GROUP_SIZE ≤ length g.2)%nat)
  ∧ ((∀ g, g ∈ groups → (length g.2 < TAS.MIN_GROUP_SIZE)%nat) →
     length kept = (TAS.FALLBACK_GROUPS `min` length groups)%nat
     ∧ ∀ g g', g ∈ kept → g' ∈ groups → g' ∉ kept → (length g'.2 ≤ length g.2)%nat).
Proof.
  intros Hne groups kept.
  pose proof (groupPostsByTrends_cases posts) as Hcases. cbv zeta in Hcases.
  fold kept groups in Hcases.
  pose proof (Dict_entries_perm groups) as Hperm.
  pose proof (groupsOf_nonempty posts Hne) as Hgroups. fold groups in Hgroups.
  set (E := Dict.entries groups) in *.
  set (large := filter (λ g, (TAS.MIN_GROUP_SIZE ≤ group_size g)%nat) E) in *.
  set (sorted := Array.sort TAS.by_size_desc E) in *.
  assert (Hsorted : sorted ≡ₚ groups) by (subst sorted; by rewrite sort_perm).
  assert (Hin_large : ∀ g, g ∈ large ↔ g ∈ groups ∧ (TAS.MIN_GROUP_SIZE ≤ length g.2)%nat).
  { intros g. subst large. rewrite list_elem_of_filter, Hperm. unfold group_size. tauto. }
  destruct (decide (large = [])) as [Hnone|Hsome].
  - assert (Hkept_in : ∀ g, g ∈ kept → g ∈ groups).
    { intros g Hg. rewrite Hcases in Hg. rewrite <- Hsorted.
      by apply elem_of_take in Hg as (? & ?%list_elem_of_lookup_2 & _). }
    split; [|split; [exact Hkept_in|split]].
    + rewrite Hcases. destruct sorted as [|g sorted'] eqn:Hs; [|done].
      apply Permutation_nil_l in Hsorted. done.
    + intros (g & Hg & Hsize). exfalso.
      assert (g ∈ large) as Hgl by (by apply Hin_large).
      rewrite Hnone in Hgl. by apply elem_of_nil in Hgl.
    + intros _. split.
      * rewrite Hcases, length_take. by rewrite Hsorted.
      * intros g g' Hg Hg' Hng'. rewrite Hcases in Hg, Hng'.
        apply (take_larger_than_rest group_size TAS.FALLBACK_GROUPS sorted g g');
          [exact (sort_desc group_size E)|done| by rewrite Hsorted |done].
  - assert (Hkept : ∀ g, g ∈ kept ↔ g ∈ groups ∧ (TAS.MIN_GROUP_SIZE ≤ length g.2)%nat).
    { intros g. rewrite Hcases. apply Hin_large. }
    split; [by rewrite Hcases|]. split; [intros g Hg; by apply Hkept|].
    split; [intros _; exact Hkept|].
    intros Hsmall. exfalso. destruct large as [|g large'] eqn:Hl; [done|].
    assert (g ∈ g :: large') as Hg by left. apply Hin_large in Hg as [Hg Hsz].
    specialize (Hsmall g Hg). lia.
Qed.

(** Three posts, two of them under the same hashtag. *)
Lemma C5_small_groups_dropped_witness :
  TAS.groupPostsByTrends
    [stored_post "twitter" "1" "one" ["#a"] None;
     stored_post "twitter" "2" "two" ["#a"] None;
     stored_post "twitter" "3" "three" ["#b"] None] ≠ [].
Proof.
  apply (C5_small_groups_dropped
           [stored_post "twitter" "1" "one" ["#a"] None;
            stored_post "twitter" "2" "two" ["#a"] None;
            stored_post "twitter" "3" "three" ["#b"] None]).
  discriminate.
Defined.

(** The two scenarios of the specification: groups of 4, 3 and 2 posts all
    survive; ten posts each in a group of its own leave five groups. *)
Example groups_4_3_2 :
  (λ g, (g.1, length g.2)) <$>
    TAS.groupPostsByTrends
      (((λ k, stored_post "twitter" k "text" ["#a"] None) <$> ["1"; "2"; "3"; "4"])
       ++ ((λ k, stored_post "twitter" k "text" ["#b"] None) <$> ["5"; "6"; "7"])
       ++ ((λ k, stored_post "twitter" k "text" ["#c"] None) <$> ["8"; "9"]))
  = [("#a", 4%nat); ("#b", 3%nat); ("#c", 2%nat)].
Proof. by vm_compute. Qed.

Example ten_singletons :
  (TAS.groupPostsByTrends
     ((λ k, stored_post "twitter" k "text" ["#" +:+ k] None)
        <$> ["a"; "b"; "c"; "d"; "e"; "f"; "g"; "h"; "i"; "j"])).*1
  = ["#a"; "#b"; "#c"; "#d"; "#e"].
Proof. by vm_compute. Qed.

(** * Further properties of the pipeline *)

(** ** Tags and strings *)

Section text.
Local Open Scope string_scope.

Lemma prefix_app (p w : string) : String.prefix p (p ++ w) = true.
Proof.
  induction p as [|c p IH]; simpl; [by destruct w|].
  by destruct (ascii_dec c c).
Qed.

Lemma length_app_string (a b : string) :
  String.length (a ++ b) = (String.length a + String.length b)%nat.
Proof. induction a as [|c a IH]; simpl; [done|]. by rewrite IH. Qed.

Lemma truthy_length (s : string) : Text.truthy s = true → (0 < String.length s)%nat.
Proof. destruct s; [done|simpl; lia]. Qed.

Lemma match_tags_shape p s : ∀ skip, Forall (tag_shaped p) (Text.match_tags p s skip).
Proof.
  induction s as [|c s IH]; intros skip; [constructor|].
  cbn [Text.match_tags].
  destruct skip; [|apply IH].
  destruct (String.prefix p (String c s)); [|apply IH].
  destruct (Text.truthy _) eqn:Hw; [|apply IH].
  constructor; [|apply IH]. split; [apply prefix_app|].
  rewrite length_app_string. apply truthy_length in Hw. lia.
Qed.

Lemma toLowerCase_length s : String.length (Text.toLowerCase s) = String.length s.
Proof. induction s as [|c s IH]; simpl; [done|]. by rewrite IH. Qed.

Lemma toLowerCase_tag (marker : ascii) t :
  Text.lower_char marker = marker →
  tag_shaped (String marker "") t → tag_shaped (String marker "") (Text.toLowerCase t).
Proof.
  intros Hm [Hp Hl]. split; [|by rewrite toLowerCase_length].
  destruct t as [|c t]; [done|]. simpl in *.
  destruct (ascii_dec marker c) as [<-|]; [|done].
  rewrite Hm. destruct (ascii_dec marker marker); [|done]. by destruct (Text.toLowerCase t).
Qed.

Lemma tag_usable (marker : ascii) t :
  marker ≠ "u"%char → tag_shaped (String marker "") t → TAS.usable t = true.
Proof.
  intros Hm [Hp _]. destruct t as [|c t]; [done|]. simpl in Hp.
  destruct (ascii_dec marker c) as [<-|]; [|done].
  unfold TAS.usable. simpl.
  destruct (Ascii.eqb_spec marker "u") as [->|]; [done|]. done.
Qed.
End text.

(** ** Sorting by a score *)

Section sort_by_key.
Context {A : Type} (key : A → Z).

Lemma insert_sorted_key_desc x l :
  StronglySorted (higher key) l →
  StronglySorted (higher key) (Array.insert_sorted (key_desc key) x l).
Proof.
  induction 1 as [|y l Hs IH Hy]; simpl; [repeat constructor|].
  destruct (Z.leb_spec (key_desc key x y) 0) as [Hle|Hgt]; unfold key_desc in *.
  - constructor; [by constructor|].
    constructor; [unfold higher; lia|].
    eapply Forall_impl; [exact Hy|]. unfold higher. intros z Hz. simpl in Hz. lia.
  - constructor; [done|].
    rewrite insert_sorted_perm. constructor; [unfold higher; lia|done].
Qed.

Lemma sort_key_desc l : StronglySorted (higher key) (Array.sort (key_desc key) l).
Proof.
  unfold Array.sort. induction l as [|x l IH]; simpl; [constructor|].
  by apply insert_sorted_key_desc.
Qed.
End sort_by_key.

Lemma sort_by_engagement posts :
  StronglySorted (higher engagement_score) (Array.sort by_engagement_desc posts)
  ∧ Array.sort by_engagement_desc posts ≡ₚ posts.
Proof. split; [exact (sort_key_desc engagement_score posts)|apply sort_perm]. Qed.

(** ** What the Reddit provider returns *)

Section reddit_posts.
Import RateLimit RedditProvider.

Lemma transformPost_quality now post :
  isValidPost post = true → reddit_quality (transformPost now post).
Proof.
  unfold isValidPost. rewrite !andb_true_iff, !negb_true_iff.
  intros (((((((((Ht & Hlen) & _) & _) & Hs) & Hc) & _) & Ha) & _) & _).
  apply Nat.ltb_lt in Hlen. apply Z.ltb_lt in Hs. apply Z.ltb_lt in Hc.
  apply String.eqb_neq in Ha.
  unfold reddit_quality, transformPost. simpl.
  repeat split; try done.
  destruct (Text.truthy (selftext post)); [|done].
  rewrite length_app_string. lia.
Qed.

Lemma transformRedditData_quality now children :
  Forall reddit_quality (transformRedditData now children).
Proof.
  unfold transformRedditData. apply Forall_fmap, Forall_forall.
  intros post Hin. apply list_elem_of_In, filter_In in Hin as [_ Hv].
  by apply transformPost_quality.
Qed.

Lemma transformRedditData_length now children :
  (length (transformRedditData now children) ≤ length children)%nat.
Proof.
  unfold transformRedditData. rewrite length_fmap.
  induction children as [|c cs IH]; simpl; [done|].
  destruct (isValidPost c); simpl; lia.
Qed.

(** Whatever holds of every transformed page holds of the posts a run of
    the loop has collected. *)
Lemma transformRedditData_passed srv request now children cursor :
  response (srv request) = Listing children cursor →
  Forall (passed_filter srv) (transformRedditData now children).
Proof.
  intros Hresp. unfold transformRedditData. apply Forall_fmap, Forall_forall.
  intros post Hin. apply list_elem_of_In, filter_In in Hin as [Hin Hv].
  exists request, children, cursor, post, now. by rewrite list_elem_of_In.
Qed.

Lemma pages_allPosts (P : TrendingPost → Prop) fuel srv sub pn e l :
  (∀ request now children cursor,
     response (srv request) = Listing children cursor →
     Forall P (transformRedditData now children)) →
  Forall P (allPosts l) →
  match pages fuel srv sub pn e l with
  | Running _ l' | Left _ l' => Forall P (allPosts l')
  | Failed _ => True
  end.
Proof.
  intros HP. revert e l. induction fuel as [|fuel IH]; intros e l Hl; simpl.
  - by case_decide.
  - case_decide; [|done].
    unfold iteration.
    destruct (response (srv (sent e))) as [|code|children cursor] eqn:Hresp.
    + done.
    + case_decide; [|done]. by apply IH.
    + case_decide; [done|].
      assert (Forall P (allPosts l ++ transformRedditData
                (clock (elapse (latency (srv (sent e))) (checkRateLimit (world e))))
                children)) as Hall.
      { apply Forall_app. split; [done|by eapply HP]. }
      destruct (cursor_or_null cursor); [by apply IH|done].
Qed.

Lemma fetchMaxViralPosts_Forall (P : TrendingPost → Prop) fuel srv e sub m :
  (∀ request now children cursor,
     response (srv request) = Listing children cursor →
     Forall P (transformRedditData now children)) →
  Forall P (returned (fetchMaxViralPosts fuel srv e sub m)).
Proof.
  intros HP. unfold fetchMaxViralPosts.
  pose proof (pages_allPosts P fuel srv sub (pagesNeededFor m) e
                {| page := 0; after := None; allPosts := [] |} HP) as H.
  destruct (pages _ _ _ _ _ _); simpl; [done| |done].
  rewrite sort_perm. apply H. constructor.
Qed.

Lemma collect_Forall (P : TrendingPost → Prop) fuel srv subs m : ∀ e acc,
  (∀ request now children cursor,
     response (srv request) = Listing children cursor →
     Forall P (transformRedditData now children)) →
  Forall P acc →
  Forall P (returned (collect fuel srv e subs m acc)).
Proof.
  induction subs as [|sub subs IH]; intros e acc HP Hacc; simpl; [done|].
  pose proof (fetchMaxViralPosts_Forall P fuel srv e sub m HP) as H.
  destruct (fetchMaxViralPosts fuel srv e sub m); simpl in *; [done| |].
  - apply IH; [done|]. apply Forall_app. by split.
  - by apply IH.
Qed.
End reddit_posts.

(** ** Deduplication, in full *)

Section dedup.
Import TrendingAnalysisService.

Lemma dedup_from_sublist seen posts : sublist (dedup_from seen posts) posts.
Proof.
  revert seen. induction posts as [|p posts IH]; intros seen; simpl; [done|].
  case_decide; [apply sublist_cons; apply IH|apply sublist_skip; apply IH].
Qed.

Lemma dedup_from_ids seen posts key :
  key ∈ (platform_post_id <$> dedup_from seen posts)
  ↔ (key ∉ seen) ∧ key ∈ (platform_post_id <$> posts).
Proof.
  revert seen. induction posts as [|p posts IH]; intros seen; cbn [dedup_from].
  - rewrite fmap_nil, elem_of_nil. tauto.
  - case_decide as Hin.
    + rewrite IH, fmap_cons, elem_of_cons. split; [tauto|].
      intros [Hk [->|Hk']]; [done|tauto].
    + rewrite !fmap_cons, !elem_of_cons, IH, elem_of_union, elem_of_singleton.
      split; [intros [->|[Hk Hk']]; tauto|].
      intros [Hk [->|Hk']]; [by left|].
      destruct (decide (key = platform_post_id p)); tauto.
Qed.

Lemma dedup_from_NoDup seen posts : NoDup (platform_post_id <$> dedup_from seen posts).
Proof.
  revert seen. induction posts as [|p posts IH]; intros seen; cbn [dedup_from];
    [constructor|].
  case_decide; [apply IH|]. rewrite fmap_cons. constructor; [|apply IH].
  rewrite dedup_from_ids, elem_of_union, elem_of_singleton. tauto.
Qed.

(** Posts with distinct, unseen ids all pass. *)
Lemma dedup_from_distinct seen posts :
  NoDup (platform_post_id <$> posts) →
  (∀ key, key ∈ (platform_post_id <$> posts) → key ∉ seen) →
  dedup_from seen posts = posts.
Proof.
  revert seen. induction posts as [|p posts IH]; intros seen Hnd Hseen;
    cbn [dedup_from]; [done|].
  rewrite fmap_cons in Hnd, Hseen. apply NoDup_cons in Hnd as [Hp Hnd].
  rewrite decide_False by (apply Hseen; left).
  f_equal. apply IH; [done|]. intros key Hk.
  rewrite elem_of_union, elem_of_singleton. intros [->|Hs]; [done|].
  by apply (Hseen key); [right|].
Qed.
End dedup.

(** ** Termination and the request budget *)

Section fetch_bounds.
Import RateLimit RedditProvider.

Lemma pagesNeededFor_closed m : pagesNeededFor m = - (- Z.min m 1000 / 100).
Proof.
  unfold pagesNeededFor, MAX_ITEMS_PER_SUBREDDIT, ITEMS_PER_REQUEST. cbv zeta.
  assert (Heq : (inject_Z (Z.min m 1000) / inject_Z 100 == Z.min m 1000 # 100)%Q).
  { unfold Qeq, Qdiv, Qmult, Qinv, inject_Z. simpl. lia. }
  rewrite Heq. reflexivity.
Qed.

Lemma pagesNeededFor_bounds m :
  pagesNeededFor m ≤ 10
  ∧ Z.min m 1000 ≤ 100 * pagesNeededFor m < Z.min m 1000 + 100.
Proof.
  rewrite pagesNeededFor_closed.
  pose proof (Z.div_mod (- Z.min m 1000) 100 ltac:(lia)) as Hdm.
  pose proof (Z.mod_pos_bound (- Z.min m 1000) 100 ltac:(lia)) as Hmod.
  lia.
Qed.

Lemma pages_terminates fuel : ∀ srv sub pn e l,
  never_429 srv → (Z.to_nat (pn - page l) ≤ fuel)%nat →
  match pages fuel srv sub pn e l with
  | Running _ _ => False
  | Left e' _ | Failed e' => (sent e' ≤ sent e + Z.to_nat (pn - page l))%nat
  end.
Proof.
  induction fuel as [|fuel IH]; intros srv sub pn e l Hsrv Hfuel; simpl.
  - case_decide; [lia|simpl; lia].
  - case_decide as Hp; [|simpl; lia].
    unfold iteration. pose proof (Hsrv (sent e)) as Hn.
    destruct (response (srv (sent e))) as [|code|children cursor].
    + simpl. lia.
    + case_decide; [congruence|]. simpl. lia.
    + case_decide; [simpl; lia|].
      destruct (cursor_or_null cursor); [|simpl; lia].
      specialize (IH srv sub pn
        {| world := elapse (latency (srv (sent e))) (checkRateLimit (world e));
           sent := S (sent e);
           events := Request sub (page l) (after l) :: events e |}
        {| page := page l + 1; after := Some s;
           allPosts := allPosts l ++ transformRedditData
             (clock (elapse (latency (srv (sent e))) (checkRateLimit (world e))))
             children |} Hsrv).
      simpl in IH. cbn [page allPosts after].
      match goal with |- match ?r with _ => _ end =>
        match type of IH with _ → match ?r' with _ => _ end => change r with r' end end.
      destruct (pages _ _ _ _ _ _); [apply IH; lia| |]; (etrans; [apply IH; lia|lia]).
Qed.
Lemma fetchMaxViralPosts_bound fuel srv e sub maxItems :
  never_429 srv → (10 ≤ fuel)%nat →
  is_pending (fetchMaxViralPosts fuel srv e sub maxItems) = false
  ∧ (sent (outcome_env (fetchMaxViralPosts fuel srv e sub maxItems)) ≤ sent e + 10)%nat.
Proof.
  intros Hsrv Hfuel. unfold fetchMaxViralPosts.
  pose proof (pagesNeededFor_bounds maxItems) as [Hpn _].
  pose proof (pages_terminates fuel srv sub (pagesNeededFor maxItems) e
                {| page := 0; after := None; allPosts := [] |} Hsrv) as Hrun.
  simpl in Hrun.
  destruct (pages _ _ _ _ _ _); simpl in *.
  - exfalso. apply Hrun. lia.
  - split; [done|]. etrans; [apply Hrun; lia|lia].
  - split; [done|]. etrans; [apply Hrun; lia|lia].
Qed.
End fetch_bounds.

(** ** Fetching under the limiter *)

Section fetch_limiter.
Import RateLimit RedditProvider.

Lemma run_app ops1 ops2 w recorded :
  run (ops1 ++ ops2) w recorded
  = run ops2 (run ops1 w recorded).1 (run ops1 w recorded).2.
Proof.
  revert w recorded. induction ops1 as [|[d|] ops1 IH]; intros w recorded; simpl; auto.
Qed.

Lemma acquires_app ops1 ops2 : acquires (ops1 ++ ops2) = (acquires ops1 + acquires ops2)%nat.
Proof. unfold acquires. by rewrite filter_app, length_app. Qed.

Lemma sleep_elapse ms w : sleep ms w = elapse (Z.to_N ms) w.
Proof. unfold sleep, elapse, Clock.sleep. f_equal. lia. Qed.

(** What is recorded beside the limiter does not steer it. *)
Lemma run_world_indep ops w r1 r2 : (run ops w r1).1 = (run ops w r2).1.
Proof.
  revert w r1 r2. induction ops as [|[d|] ops IH]; intros w r1 r2; simpl; auto.
Qed.

(** The limiter goes through a run of the loop as through a sequence of
    its own operations, with one check for each request sent. *)
Lemma pages_limiter fuel : ∀ srv sub pn e l recorded,
  ∃ ops, (run ops (world e) recorded).1 = world (run_env (pages fuel srv sub pn e l))
         ∧ sent (run_env (pages fuel srv sub pn e l)) = (sent e + acquires ops)%nat.
Proof.
  induction fuel as [|fuel IH]; intros srv sub pn e l recorded; simpl.
  - exists []. case_decide; simpl; split; auto with lia.
  - case_decide; [|exists []; simpl; split; auto with lia].
    unfold iteration.
    set (first := [Acquire; Elapse (latency (srv (sent e)))]).
    assert (Hfirst : acquires first = 1%nat) by done.
    destruct (response (srv (sent e))) as [|code|children cursor].
    + exists first. simpl. split; [done|lia].
    + case_decide; [|exists first; simpl; split; [done|lia]].
      lazymatch goal with
      | |- context [pages fuel srv sub pn ?e' ?l'] =>
          destruct (IH srv sub pn e' l' recorded) as (ops & Hw & Hs)
      end.
      exists (first ++ Elapse (Z.to_N (backoffTime (page l))) :: ops).
      rewrite run_app, acquires_app. split.
      * rewrite <- Hw. cbn [world]. rewrite (sleep_elapse (backoffTime (page l))).
        simpl. apply run_world_indep.
      * rewrite Hs. simpl. unfold acquires at 2. rewrite filter_cons_False by done.
        fold (acquires ops). lia.
    + case_decide; [exists first; simpl; split; [done|lia]|].
      destruct (cursor_or_null cursor); [|exists first; simpl; split; [done|lia]].
      lazymatch goal with
      | |- context [pages fuel srv sub pn ?e' ?l'] =>
          destruct (IH srv sub pn e' l' recorded) as (ops & Hw & Hs)
      end.
      exists (first ++ ops).
      rewrite run_app, acquires_app. split.
      * rewrite <- Hw. simpl. apply run_world_indep.
      * rewrite Hs. simpl. lia.
Qed.

Lemma fetchMaxViralPosts_limiter fuel srv e sub m recorded :
  ∃ ops, (run ops (world e) recorded).1
         = world (outcome_env (fetchMaxViralPosts fuel srv e sub m))
         ∧ sent (outcome_env (fetchMaxViralPosts fuel srv e sub m))
           = (sent e + acquires ops)%nat.
Proof.
  destruct (pages_limiter fuel srv sub (pagesNeededFor m) e
              {| page := 0; after := None; allPosts := [] |} recorded) as (ops & Hw & Hs).
  exists ops. unfold fetchMaxViralPosts. by destruct (pages _ _ _ _ _ _).
Qed.

Lemma collect_limiter fuel srv subs m : ∀ e acc recorded,
  ∃ ops, (run ops (world e) recorded).1
         = world (outcome_env (collect fuel srv e subs m acc))
         ∧ sent (outcome_env (collect fuel srv e subs m acc))
           = (sent e + acquires ops)%nat.
Proof.
  induction subs as [|sub subs IH]; intros e acc recorded; simpl.
  - exists []. simpl. split; auto with lia.
  - destruct (fetchMaxViralPosts_limiter fuel srv e sub m recorded) as (ops1 & Hw1 & Hs1).
    destruct (fetchMaxViralPosts fuel srv e sub m) as [e1|e1 posts|e1]; simpl in *.
    + by exists ops1.
    + destruct (IH e1 (acc ++ posts) (run ops1 (world e) recorded).2) as (ops2 & Hw2 & Hs2).
      exists (ops1 ++ ops2). rewrite run_app, acquires_app, Hw1. split; [done|lia].
    + destruct (IH e1 acc (run ops1 (world e) recorded).2) as (ops2 & Hw2 & Hs2).
      exists (ops1 ++ ops2). rewrite run_app, acquires_app, Hw1. split; [done|lia].
Qed.
End fetch_limiter.

(** X1.  Whatever page of a listing [transformRedditData] is given, every
    post it returns is marked as a Reddit post, has more than 50 upvotes and
    more than 5 comments, counts its comments as shares, has no views, an
    author other than [deleted] and a text of more than 5 characters; it returns no more posts than the
    page has children, and when every child passes [isValidPost] it returns
    the normalized children, one for one and in order. *)
Theorem transformRedditData_keeps_quality (now : Z) (children : list RP.RedditPost) :
  let posts := RP.transformRedditData now children in
  Forall reddit_quality posts
  ∧ (length posts ≤ length children)%nat
  ∧ (Forall (λ c, RP.isValidPost c = true) children →
     posts = RP.transformPost now <$> children).
Proof.
  intros posts. split; [apply transformRedditData_quality|].
  split; [apply transformRedditData_length|].
  intros Hall. subst posts. unfold RP.transformRedditData. f_equal.
  induction Hall as [|c cs Hc _ IH]; simpl; [done|]. by rewrite Hc, IH.
Qed.

Lemma transformRedditData_keeps_quality_witness :
  RP.transformRedditData 0 two_children = RP.transformPost 0 <$> two_children.
Proof.
  apply (proj2 (proj2 (transformRedditData_keeps_quality 0 two_children))).
  by repeat constructor.
Defined.

(** X2.  The posts [fetchMaxViralPosts] returns are in descending order of
    engagement score, and each of them passed the quality filter: it is the
    normalization of a child of a listing the server sent, and [isValidPost]
    holds of that child; so it has more than 50 upvotes, more than 5
    comments, an author other than [deleted] and a text of more than 5
    characters.  This holds whatever the server answered and however many
    pages were read. *)
Theorem fetchMaxViralPosts_sorted_quality (fuel : nat) (srv : RP.Server) (e : RP.Env)
    (sub : string) (maxItems : Z) :
  let posts := returned (RP.fetchMaxViralPosts fuel srv e sub maxItems) in
  StronglySorted (higher engagement_score) posts
  ∧ Forall (passed_filter srv) posts
  ∧ Forall reddit_quality posts.
Proof.
  intros posts. split; [|split].
  - subst posts. unfold RP.fetchMaxViralPosts.
    destruct (RP.pages _ _ _ _ _ _); simpl; [constructor| |constructor].
    apply sort_by_engagement.
  - apply fetchMaxViralPosts_Forall. intros request now children cursor.
    apply transformRedditData_passed.
  - apply fetchMaxViralPosts_Forall. intros. apply transformRedditData_quality.
Qed.

(** X3.  The posts [fetchMultiViralContent] returns are in descending order
    of engagement score, no two of them share a [platform_post_id], and each
    of them passed the quality filter: it is the normalization of a child of
    a listing the server sent, and [isValidPost] holds of that child. *)
Theorem fetchMultiViralContent_unique_sorted (fuel : nat) (srv : RP.Server) (e : RP.Env)
    (subs : list string) (maxItems : Z) :
  let posts := returned (RP.fetchMultiViralContent fuel srv e subs maxItems) in
  StronglySorted (higher engagement_score) posts
  ∧ NoDup (platform_post_id <$> posts)
  ∧ Forall (passed_filter srv) posts
  ∧ Forall reddit_quality posts.
Proof.
  intros posts. subst posts. unfold RP.fetchMultiViralContent.
  pose proof (collect_Forall reddit_quality fuel srv subs maxItems e []
                (λ _ now children _ _, transformRedditData_quality now children)
                (Forall_nil_2 _)) as Hq.
  pose proof (collect_Forall (passed_filter srv) fuel srv subs maxItems e []
                (transformRedditData_passed srv) (Forall_nil_2 _)) as Hp.
  destruct (RP.collect _ _ _ _ _ _) as [e'|e' allPosts|e']; simpl in *;
    [by repeat constructor| |by repeat constructor].
  assert (∀ P : TrendingPost → Prop, Forall P allPosts →
            Forall P (Array.sort by_engagement_desc (RP.removeDuplicatePosts allPosts)))
    as Hkept.
  { intros P HP. rewrite (proj2 (sort_by_engagement _)). unfold RP.removeDuplicatePosts.
    rewrite dedup_same_reddit.
    apply Forall_forall. intros p Hin. eapply Forall_forall; [exact HP|].
    eapply sublist_subseteq; [apply dedup_from_sublist|exact Hin]. }
  split; [apply sort_by_engagement|]. split; [|split; by apply Hkept].
  rewrite (proj2 (sort_by_engagement _)). unfold RP.removeDuplicatePosts.
  rewrite dedup_same_reddit. apply dedup_from_NoDup.
Qed.

(** X4.  Against a server that never answers HTTP 429,
    [fetchMaxViralPosts] comes to an end (ten iterations of its loop are
    enough) and sends at most 10 requests, whatever [maxItems] is: the page
    budget is capped at ceil(1000 / 100). *)
Theorem fetchMaxViralPosts_terminates (fuel : nat) (srv : RP.Server) (e : RP.Env)
    (sub : string) (maxItems : Z) :
  never_429 srv → (10 ≤ fuel)%nat →
  let o := RP.fetchMaxViralPosts fuel srv e sub maxItems in
  is_pending o = false
  ∧ (RP.sent (outcome_env o) ≤ RP.sent e + 10)%nat
  ∧ (RP.sent e ≤ RP.sent (outcome_env o))%nat.
Proof.
  intros Hsrv Hfuel o. subst o.
  destruct (fetchMaxViralPosts_bound fuel srv e sub maxItems Hsrv Hfuel) as [Hp Hb].
  destruct (fetchMaxViralPosts_limiter fuel srv e sub maxItems []) as (ops & _ & Hs).
  split; [done|]. split; [done|lia].
Qed.

Lemma fetchMaxViralPosts_terminates_witness :
  let o := RP.fetchMaxViralPosts 10 one_page (fresh 0) "pics" 1000 in
  is_pending o = false
  ∧ (RP.sent (outcome_env o) ≤ RP.sent (fresh 0) + 10)%nat
  ∧ (RP.sent (fresh 0) ≤ RP.sent (outcome_env o))%nat.
Proof.
  apply (fetchMaxViralPosts_terminates 10 one_page (fresh 0) "pics" 1000).
  - intros n. unfold one_page. simpl. by case_decide.
  - lia.
Defined.

(** X5.  Asked for no items ([maxItems] zero or negative),
    [fetchMaxViralPosts] returns the empty list without a request, a wait or
    a rate-limit check. *)
Theorem fetchMaxViralPosts_nothing_asked (fuel : nat) (srv : RP.Server) (e : RP.Env)
    (sub : string) (maxItems : Z) :
  maxItems ≤ 0 → RP.fetchMaxViralPosts fuel srv e sub maxItems = RP.Returned e [].
Proof.
  intros Hm. unfold RP.fetchMaxViralPosts.
  pose proof (pagesNeededFor_bounds maxItems) as [_ Hpn].
  destruct fuel; simpl; rewrite decide_False by lia; reflexivity.
Qed.

Lemma fetchMaxViralPosts_nothing_asked_witness :
  RP.fetchMaxViralPosts 5 always_429 (fresh 0) "pics" 0 = RP.Returned (fresh 0) [].
Proof. apply (fetchMaxViralPosts_nothing_asked 5 always_429 (fresh 0) "pics" 0). lia. Defined.

Lemma run_recorded_length ops w r :
  length (RateLimit.run ops w r).2 = (length r + acquires ops)%nat.
Proof.
  unfold acquires. revert w r.
  induction ops as [|[d|] ops IH]; intros w r; cbn [RateLimit.run snd].
  - rewrite filter_nil. simpl. lia.
  - rewrite IH. by rewrite filter_cons_False.
  - rewrite IH. rewrite filter_cons_True by done. simpl. lia.
Qed.

(** X6.  The requests of a whole [fetchMultiViralContent], across all its
    subreddits, pages, retries and backoffs, go through the limiter one
    check each, so that at most 100 of them fall in any rolling minute and at
    most 996 in any rolling ten minutes. *)
Theorem fetchMultiViralContent_rate_limited (fuel : nat) (srv : RP.Server)
    (subs : list string) (maxItems start c : Z) :
  let e' := outcome_env (RP.fetchMultiViralContent fuel srv (fresh start) subs maxItems) in
  ∃ ops,
    let r := RateLimit.run ops (RateLimit.initial start) [] in
    RP.world e' = r.1
    ∧ length r.2 = RP.sent e'
    ∧ (RateLimit.window_count 60000 c r.2 ≤ RateLimit.MAX_REQUESTS_PER_MINUTE)%nat
    ∧ (RateLimit.window_count 600000 c r.2 ≤ RateLimit.MAX_REQUESTS_PER_10_MIN)%nat.
Proof.
  intros e'.
  destruct (collect_limiter fuel srv subs maxItems (fresh start) [] []) as (ops & Hw & Hs).
  assert (He' : e' = outcome_env (RP.collect fuel srv (fresh start) subs maxItems [])).
  { subst e'. unfold RP.fetchMultiViralContent. by destruct (RP.collect _ _ _ _ _ _). }
  exists ops. cbv zeta. rewrite He', <- Hw, Hs. simpl.
  pose proof (LimiterInv_run ops _ _ (LimiterInv_initial start)) as [_ _ Hsp _ Hlong].
  split; [done|]. split; [|split; [|apply Hlong]].
  - rewrite run_recorded_length. simpl. reflexivity.
  - apply (spaced_window 600 _ c 100); [lia|done].
Qed.

(** X7.  The two [removeDuplicatePosts] (provider and service) are the same
    function.  Its result has pairwise distinct [platform_post_id]s, is a
    subsequence of its input (order kept, first occurrences), has the same
    ids as the input, is left unchanged by a second pass, and is the input
    itself when the ids of the input are already distinct. *)
Theorem removeDuplicatePosts_unique (posts : list TrendingPost) :
  let kept := TAS.removeDuplicatePosts posts in
  RP.removeDuplicatePosts posts = kept
  ∧ NoDup (platform_post_id <$> kept)
  ∧ sublist kept posts
  ∧ (∀ key, key ∈ (platform_post_id <$> kept) ↔ key ∈ (platform_post_id <$> posts))
  ∧ TAS.removeDuplicatePosts kept = kept
  ∧ (NoDup (platform_post_id <$> posts) → kept = posts).
Proof.
  intros kept. subst kept. unfold TAS.removeDuplicatePosts, RP.removeDuplicatePosts.
  split; [apply dedup_same_reddit|]. split; [apply dedup_from_NoDup|].
  split; [apply dedup_from_sublist|]. split.
  - intros key. rewrite dedup_from_ids. split; [tauto|]. intros H. split; [|done].
    apply not_elem_of_empty.
  - split.
    + apply dedup_from_distinct; [apply dedup_from_NoDup|].
      intros key _. apply not_elem_of_empty.
    + intros Hnd. apply dedup_from_distinct; [done|].
      intros key _. apply not_elem_of_empty.
Qed.


Lemma removeDuplicatePosts_unique_witness :
  TAS.removeDuplicatePosts (RP.transformPost 0 <$> two_children)
  = RP.transformPost 0 <$> two_children.
Proof.
  apply (proj2 (proj2 (proj2 (proj2 (proj2
           (removeDuplicatePosts_unique (RP.transformPost 0 <$> two_children))))))).
  apply NoDup_cons. split; [by intros [=]%list_elem_of_singleton|apply NoDup_singleton].
Defined.

(** ** Group keys *)

Section group_keys.
Local Open Scope string_scope.

Ltac in_list := by repeat first [apply list_elem_of_here | apply list_elem_of_further].

Lemma categorizeRedditPost_label post : RP.categorizeRedditPost post ∈ category_labels.
Proof.
  unfold RP.categorizeRedditPost, category_labels. cbv zeta.
  repeat (destruct (Text.some_term_in _ _ _); [in_list|]). in_list.
Qed.

Lemma first_category_label test c :
  TAS.first_category test = Some c → c ∈ category_labels.
Proof.
  unfold TAS.first_category, TAS.categories, category_labels. cbn [List.find snd].
  repeat (destruct (test _); [intros [= <-]; cbn [fst]; in_list|]). done.
Qed.

Lemma determineTrendCategory_label text tags ctxs :
  TAS.determineTrendCategory text tags ctxs ∈ category_labels.
Proof.
  unfold TAS.determineTrendCategory. cbv zeta.
  repeat (destruct (TAS.first_category _) eqn:E; [by eapply first_category_label|clear E]).
  unfold category_labels. in_list.
Qed.

Lemma label_usable c : c ∈ category_labels → TAS.usable c = true ∧ Text.truthy c = true.
Proof.
  unfold category_labels. rewrite !elem_of_cons, elem_of_nil.
  intros H. repeat (destruct H as [->|H]; [done|]). done.
Qed.

Lemma usable_subreddit s : TAS.usable ("r/" ++ s) = true.
Proof. done. Qed.

Lemma groupKey_reddit (p : TrendingPost) :
  platform p = "reddit" →
  let category := Text.opt_or (trend_category p) "General" in
  TAS.groupKey p =
    if String.eqb category "undefined"
    then "r/" ++ Text.or_else (Text.before_underscore (platform_post_id p)) "unknown"
    else category.
Proof.
  intros Hp. unfold TAS.groupKey, TAS.groupKeys. rewrite Hp. cbv zeta.
  change ("reddit" =? "reddit") with true. cbn [List.find].
  assert (Text.truthy (Text.opt_or (trend_category p) "General") = true) as Ht.
  { unfold Text.opt_or, Text.or_else. destruct (trend_category p) as [c|]; [|done].
    by destruct (Text.truthy c) eqn:?. }
  unfold TAS.usable at 1. rewrite Ht.
  assert ((Text.opt_or (trend_category p) "General" =? "") = false) as ->.
  { unfold Text.truthy in Ht. by destruct (_ =? ""). }
  cbn [andb negb].
  destruct (_ =? "undefined"); cbn [negb]; [|done].
  by rewrite usable_subreddit.
Qed.
Lemma groupKey_transformPost now post :
  TAS.groupKey (RP.transformPost now post) = RP.categorizeRedditPost post.
Proof.
  rewrite groupKey_reddit by done. cbv zeta. cbn [trend_category RP.transformPost Text.opt_or].
  pose proof (label_usable _ (categorizeRedditPost_label post)) as [Hu Ht].
  unfold Text.or_else. rewrite Ht.
  unfold TAS.usable in Hu. rewrite Ht in Hu.
  destruct (_ =? "undefined"); [|done].
  by rewrite andb_false_r in Hu.
Qed.

Lemma extractHashtags_shape s : Forall (tag_shaped "#") (TAS.extractHashtags s).
Proof.
  unfold TAS.extractHashtags. rewrite Forall_fmap.
  eapply Forall_impl; [apply match_tags_shape|].
  intros t Ht. by apply (toLowerCase_tag "#"%char).
Qed.

Lemma extractMentions_shape s : Forall (tag_shaped "@") (TAS.extractMentions s).
Proof.
  unfold TAS.extractMentions. rewrite Forall_fmap.
  eapply Forall_impl; [apply match_tags_shape|].
  intros t Ht. by apply (toLowerCase_tag "@"%char).
Qed.

Lemma groupKey_transformTweet now m tweet :
  let post := TAS.transformTweet now m tweet in
  ∃ category,
    trend_category post = Some category
    ∧ category ∈ category_labels
    ∧ TAS.groupKey post = match hashtags post with tag :: _ => tag | [] => category end.
Proof.
  cbv zeta. eexists. split; [done|]. split; [apply determineTrendCategory_label|].
  unfold TAS.groupKey, TAS.groupKeys.
  cbn [platform hashtags trend_category TAS.transformTweet].
  change ("twitter" =? "reddit") with false. cbv iota.
  set (text := Text.opt_or _ _).
  pose proof (extractHashtags_shape text) as Htags.
  pose proof (label_usable _ (determineTrendCategory_label text (TAS.extractHashtags text)
    (default [] (TAS.context_annotations tweet)))) as [Hu Ht].
  destruct (TAS.extractHashtags text) as [|tag tags] eqn:E.
  - cbn [Array.slice0 take app List.find Text.opt_or default].
    unfold Text.or_else. rewrite Ht. cbn [List.find]. by rewrite Hu.
  - apply Forall_cons in Htags as [Htag _].
    apply (tag_usable "#"%char) in Htag; [|done].
    unfold Array.slice0. cbn [take app List.find]. by rewrite Htag.
Qed.

Lemma groupKey_normalized p :
  normalized p → TAS.groupKey p ∈ category_labels ∨ tag_shaped "#" (TAS.groupKey p).
Proof.
  intros [(now & post & ->)|(now & users & tweet & ->)].
  - left. rewrite groupKey_transformPost. apply categorizeRedditPost_label.
  - destruct (groupKey_transformTweet now users tweet) as (c & Hc & Hl & Hk).
    rewrite Hk. pose proof (extractHashtags_shape (Text.opt_or (TAS.text tweet) "")) as Htags.
    cbn [hashtags TAS.transformTweet].
    destruct (TAS.extractHashtags _) as [|tag tags]; [by left|right].
    by apply Forall_cons in Htags as [? _].
Qed.
End group_keys.

(** X8.  The group key of a stored Reddit post depends on its category and
    its [platform_post_id] only: the keywords extracted from its content are
    never used, since the category or the r/subreddit candidate precedes
    them and one of these two is always usable. *)
Theorem groupKey_reddit_ignores_keywords (p q : TrendingPost) :
  platform p = "reddit"%string → platform q = "reddit"%string →
  trend_category p = trend_category q →
  platform_post_id p = platform_post_id q →
  TAS.groupKey p = TAS.groupKey q
  ∧ (TAS.groupKey p = Text.opt_or (trend_category p) "General"
     ∨ String.prefix "r/" (TAS.groupKey p) = true).
Proof.
  intros Hp Hq Hc Hi. rewrite !groupKey_reddit by done. cbv zeta.
  rewrite Hc, Hi. split; [done|].
  destruct (_ =? "undefined")%string; [right; apply prefix_app|by left].
Qed.

Lemma groupKey_reddit_ignores_keywords_witness :
  TAS.groupKey (reddit_row "football tonight") = TAS.groupKey (reddit_row "budget cooking")
  ∧ (TAS.groupKey (reddit_row "football tonight")
       = Text.opt_or (trend_category (reddit_row "football tonight")) "General"
     ∨ String.prefix "r/" (TAS.groupKey (reddit_row "football tonight")) = true).
Proof.
  apply (groupKey_reddit_ignores_keywords
           (reddit_row "football tonight") (reddit_row "budget cooking"));
    reflexivity.
Defined.

(** X9.  A post normalized by the Reddit provider is grouped under its
    category, which is one of the eight category labels. *)
Theorem groupKey_normalized_reddit (now : Z) (post : RP.RedditPost) :
  TAS.groupKey (RP.transformPost now post) = RP.categorizeRedditPost post
  ∧ RP.categorizeRedditPost post ∈ category_labels.
Proof. split; [apply groupKey_transformPost|apply categorizeRedditPost_label]. Qed.

(** X10.  A normalized tweet has hashtags of the form [#] plus at least one
    character and mentions of the form [@] plus at least one character; its
    category is one of the eight category labels; and it is grouped under
    its first hashtag, or under its category when it has no hashtag. *)
Theorem groupKey_normalized_tweet (now : Z) (m : gmap string TAS.User) (tweet : TAS.Tweet) :
  let post := TAS.transformTweet now m tweet in
  Forall (tag_shaped "#") (hashtags post)
  ∧ Forall (tag_shaped "@") (mentions post)
  ∧ ∃ category,
      trend_category post = Some category
      ∧ category ∈ category_labels
      ∧ TAS.groupKey post = match hashtags post with tag :: _ => tag | [] => category end.
Proof.
  cbv zeta. split; [apply extractHashtags_shape|]. split; [apply extractMentions_shape|].
  apply groupKey_transformTweet.
Qed.

(** ** Counting and keywords *)

Section dict_reads.
Context {V : Type}.
Implicit Types d : Dict.t V.

Lemma Dict_get_set d k k' v :
  Dict.get (Dict.set d k v) k' = if decide (k' = k) then Some v else Dict.get d k'.
Proof.
  induction d as [|[k0 v0] d IH]; simpl.
  - rewrite String_eqb_decide. case_bool_decide; subst; by case_decide.
  - rewrite !String_eqb_decide. case_bool_decide as H0; simpl; rewrite !String_eqb_decide.
    + subst k0. case_bool_decide; subst; by case_decide.
    + case_bool_decide as H1; [subst k0; by case_decide|]. apply IH.
Qed.

Lemma Dict_get_elem d k v : NoDup d.*1 → (k, v) ∈ d ↔ Dict.get d k = Some v.
Proof.
  induction d as [|[k0 v0] d IH]; simpl; intros Hnd.
  - split; [by intros ?%elem_of_nil|done].
  - apply NoDup_cons in Hnd as [Hk0 Hnd].
    rewrite String_eqb_decide, elem_of_cons. case_bool_decide as H0.
    + subst k0. split.
      * intros [[= <-]|Hin]; [done|]. destruct Hk0. apply list_elem_of_fmap. by exists (k, v).
      * intros [= <-]. by left.
    + rewrite <- IH by done. split; [intros [[= ? ?]|?]; [congruence|done]|by right].
Qed.

Lemma Dict_get_None d k : Dict.get d k = None ↔ k ∉ d.*1.
Proof.
  induction d as [|[k0 v0] d IH]; simpl.
  - split; [intros _ ?%elem_of_nil; done|done].
  - rewrite String_eqb_decide, not_elem_of_cons. case_bool_decide as H0.
    + split; [done|]. by intros [? _].
    + rewrite IH. split; [done|]. by intros [_ ?].
Qed.
End dict_reads.

Section counting.
Import TrendingAnalysisService.

Lemma countOccurrences_snoc items item :
  countOccurrences (items ++ [item]) =
  Dict.set (countOccurrences items) item
    (default 0 (Dict.get (countOccurrences items) item) + 1).
Proof. unfold countOccurrences. by rewrite foldl_app. Qed.

Lemma countOccurrences_NoDup items : NoDup (countOccurrences items).*1.
Proof.
  induction items as [|item items IH] using rev_ind; [constructor|].
  rewrite countOccurrences_snoc. by apply Dict_set_NoDup.
Qed.

Lemma occurrences_snoc k items item :
  occurrences k (items ++ [item]) =
  (occurrences k items + if decide (item = k) then 1 else 0)%nat.
Proof.
  unfold occurrences. rewrite filter_app, length_app. f_equal.
  rewrite filter_cons, filter_nil. by case_decide.
Qed.

Lemma countOccurrences_get items k :
  Dict.get (countOccurrences items) k =
  if decide (occurrences k items = 0%nat) then None else Some (Z.of_nat (occurrences k items)).
Proof.
  induction items as [|item items IH] using rev_ind; [done|].
  rewrite countOccurrences_snoc, Dict_get_set, occurrences_snoc.
  destruct (decide (k = item)) as [->|Hne].
  - rewrite IH. rewrite (decide_True (P := item = item)) by done.
    rewrite (decide_False (P := (_ + 1 = 0)%nat)) by lia.
    case_decide as H0; simpl; f_equal; lia.
  - rewrite (decide_False (P := item = k)) by congruence. by rewrite IH, Nat.add_0_r.
Qed.

Lemma occurrences_pos k items : (0 < occurrences k items)%nat ↔ k ∈ items.
Proof.
  unfold occurrences. induction items as [|i items IH]; simpl.
  - rewrite elem_of_nil. split; [lia|done].
  - rewrite filter_cons, elem_of_cons. case_decide as Hi; simpl.
    + split; [by left|lia].
    + rewrite IH. split; [by right|]. by intros [->|?].
Qed.

Lemma countOccurrences_keys items k : k ∈ (countOccurrences items).*1 ↔ k ∈ items.
Proof.
  rewrite <- (occurrences_pos k items).
  destruct (decide (k ∈ (countOccurrences items).*1)) as [Hin|Hout].
  - split; [|done]. intros _.
    destruct (decide (occurrences k items = 0%nat)) as [H0|]; [|lia].
    exfalso. revert Hin. apply Dict_get_None. rewrite countOccurrences_get. by rewrite decide_True.
  - split; [done|]. intros Hpos.
    apply Dict_get_None in Hout. rewrite countOccurrences_get in Hout.
    rewrite decide_False in Hout by lia. done.
Qed.
End counting.

Lemma Dict_bump_sum (d : Dict.t Z) k :
  foldr Z.add 0 (Dict.set d k (default 0 (Dict.get d k) + 1)).*2 = foldr Z.add 0 d.*2 + 1.
Proof.
  induction d as [|[k0 v0] d IH]; [done|].
  cbn [Dict.set Dict.get].
  destruct (String.eqb k0 k); rewrite !fmap_cons; cbn [foldr snd default from_option]; [unfold Datatypes.id; lia|].
  rewrite IH. lia.
Qed.

(** X11.  [countOccurrences] has one entry for each distinct item and no
    other, the entry of an item holds the number of its occurrences, and the
    counts add up to the length of the array. *)
Theorem countOccurrences_counts (items : list string) :
  let counts := TAS.countOccurrences items in
  NoDup counts.*1
  ∧ (∀ k, k ∈ Dict.keys counts ↔ k ∈ items)
  ∧ (∀ k, k ∈ items → Dict.get counts k = Some (Z.of_nat (occurrences k items)))
  ∧ (∀ k, k ∉ items → Dict.get counts k = None)
  ∧ foldr Z.add 0 counts.*2 = Z.of_nat (length items).
Proof.
  cbv zeta. split; [apply countOccurrences_NoDup|].
  split.
  { intros k. unfold Dict.keys. rewrite (Dict_entries_perm (TAS.countOccurrences items)).
    apply countOccurrences_keys. }
  split.
  { intros k Hk. rewrite countOccurrences_get. apply occurrences_pos in Hk.
    by rewrite decide_False by lia. }
  split.
  { intros k Hk. rewrite countOccurrences_get. rewrite decide_True; [done|].
    destruct (decide (occurrences k items = 0%nat)); [done|].
    destruct Hk. apply occurrences_pos. lia. }
  induction items as [|item items IH] using rev_ind; [done|].
  rewrite countOccurrences_snoc, length_app, Dict_bump_sum, IH. simpl. lia.
Qed.

Section keywords.
Import TrendingAnalysisService.

Lemma mem_elem_of x l : mem x l = true ↔ x ∈ l.
Proof.
  unfold mem. induction l as [|y l IH]; simpl.
  - split; [done|by intros ?%elem_of_nil].
  - rewrite orb_true_iff, IH, elem_of_cons, String_eqb_decide, bool_decide_eq_true. done.
Qed.

Lemma List_filter_decide {A} (f : A → bool) (P : A → Prop) `{!∀ x, Decision (P x)} l :
  (∀ x, f x = true ↔ P x) → List.filter f l = filter P l.
Proof.
  intros Hf. induction l as [|x l IH]; simpl; [done|].
  rewrite filter_cons, IH. destruct (f x) eqn:E; case_decide as HP; try done.
  - apply Hf in E. done.
  - apply Hf in HP. congruence.
Qed.

Lemma take_sorted_rest {A} (R : A → A → Prop) n l a b :
  StronglySorted R l → a ∈ take n l → b ∈ l → b ∉ take n l → R a b.
Proof.
  intros Hs Ha Hb Hnb.
  rewrite <- (take_drop n l) in Hs, Hb.
  apply StronglySorted_app in Hs as (H12 & _ & _).
  apply elem_of_app in Hb as [Hb|Hb]; [done|]. by apply H12.
Qed.

Lemma StronglySorted_ext {A} (R R' : A → A → Prop) l :
  (∀ a b, R a b → R' a b) → StronglySorted R l → StronglySorted R' l.
Proof.
  intros HR. induction 1 as [|x l Hs IH Hx]; constructor; [done|].
  eapply Forall_impl; [exact Hx|]. intros y. apply HR.
Qed.

Lemma extractKeywords_unfold text :
  let counts := countOccurrences (keyword_candidates text) in
  extractKeywords text =
  take 10 (Array.sort (key_desc (λ k, default 0 (Dict.get counts k))) (Dict.keys counts)).
Proof.
  cbv zeta. unfold extractKeywords, keyword_candidates, Array.slice0. cbv zeta.
  rewrite (List_filter_decide _ is_keyword); [done|].
  intros w. unfold is_keyword. rewrite andb_true_iff, Nat.ltb_lt, negb_true_iff.
  unfold stop_words. split; intros [Hlen Hstop]; (split; [done|]).
  - intros Hin%mem_elem_of. congruence.
  - destruct (mem w _) eqn:E; [|done]. by apply mem_elem_of in E.
Qed.
End keywords.

(** X12.  [extractKeywords] returns at most 10 keywords, all distinct, each
    a lower-cased word of the text with more than 3 characters that is no
    stop word, in descending order of frequency; a candidate is left out only
    when 10 were returned, and then none of those is less frequent. *)
Theorem extractKeywords_most_frequent (text : string) :
  let candidates := keyword_candidates text in
  let frequency k := Z.of_nat (occurrences k candidates) in
  let keywords := TAS.extractKeywords text in
  (length keywords ≤ 10)%nat
  ∧ NoDup keywords
  ∧ (∀ k, k ∈ keywords → k ∈ candidates)
  ∧ StronglySorted (higher frequency) keywords
  ∧ (∀ k, k ∈ candidates → k ∉ keywords →
       length keywords = 10%nat ∧ ∀ chosen, chosen ∈ keywords → frequency k ≤ frequency chosen).
Proof.
  cbv zeta. rewrite extractKeywords_unfold. cbv zeta.
  set (counts := TAS.countOccurrences (keyword_candidates text)).
  set (count := λ k, default 0 (Dict.get counts k)).
  set (sorted := Array.sort (key_desc count) (Dict.keys counts)).
  assert (Hcount : ∀ k, count k = Z.of_nat (occurrences k (keyword_candidates text))).
  { intros k. unfold count, counts. rewrite countOccurrences_get. case_decide as H0; simpl; lia. }
  assert (Hperm : sorted ≡ₚ (counts.*1)).
  { unfold sorted. rewrite sort_perm. unfold Dict.keys. by rewrite Dict_entries_perm. }
  assert (Hsorted : StronglySorted
            (higher (λ k, Z.of_nat (occurrences k (keyword_candidates text)))) sorted).
  { eapply StronglySorted_ext; [|apply sort_key_desc].
    unfold higher. intros a b. by rewrite !Hcount. }
  assert (Hin : ∀ k, k ∈ sorted ↔ k ∈ keyword_candidates text).
  { intros k. rewrite Hperm. apply countOccurrences_keys. }
  split; [rewrite length_take; lia|].
  split.
  { rewrite <- (take_drop 10 sorted) in Hperm.
    assert (NoDup (take 10 sorted ++ drop 10 sorted)) as Hnd.
    { rewrite Hperm. apply countOccurrences_NoDup. }
    by apply NoDup_app in Hnd as (? & _ & _). }
  split.
  { intros k Hk. apply Hin. eapply subseteq_take, Hk. }
  split.
  { rewrite <- (take_drop 10 sorted) in Hsorted.
    by apply StronglySorted_app in Hsorted as (_ & ? & _). }
  intros k Hk Hout. apply Hin in Hk. split.
  - rewrite length_take. destruct (decide (length sorted ≤ 10)%nat) as [Hle|]; [|lia].
    rewrite take_ge in Hout by done. done.
  - intros chosen Hc. by apply (take_sorted_rest _ 10 sorted chosen k Hsorted).
Qed.

(** ** The groups as a partition *)

Section partition.
Import TrendingAnalysisService.

Lemma groupsOf_snoc posts post :
  groupsOf (posts ++ [post]) = assign (groupsOf posts) post.
Proof. unfold groupsOf. by rewrite foldl_app. Qed.

Lemma members_of_snoc key posts post :
  members_of key (posts ++ [post]) =
  members_of key posts ++ (if decide (groupKey post = key) then [post] else []).
Proof.
  unfold members_of. by rewrite filter_app.
Qed.

Lemma groupsOf_get posts key :
  Dict.get (groupsOf posts) key =
  if decide (members_of key posts = []) then None else Some (members_of key posts).
Proof.
  induction posts as [|post posts IH] using rev_ind; [done|].
  rewrite groupsOf_snoc. unfold assign. rewrite Dict_get_set, members_of_snoc.
  destruct (decide (key = groupKey post)) as [->|Hne].
  - rewrite IH. rewrite (decide_True (P := groupKey post = groupKey post)) by done.
    rewrite (decide_False (P := _ ++ [post] = [])).
    + by case_decide as H0; [rewrite H0|].
    + by intros [_ ?]%app_eq_nil.
  - rewrite (decide_False (P := groupKey post = key)) by congruence.
    by rewrite IH, app_nil_r.
Qed.

Lemma groupsOf_elem posts key members :
  (key, members) ∈ groupsOf posts ↔ members ≠ [] ∧ members = members_of key posts.
Proof.
  rewrite Dict_get_elem by apply groupsOf_NoDup. rewrite groupsOf_get.
  case_decide as H0; split.
  - done.
  - intros [Hne ->]. done.
  - by intros [= <-].
  - by intros [_ ->].
Qed.

Lemma groupPostsByTrends_sub posts g :
  g ∈ groupPostsByTrends posts → g ∈ groupsOf posts.
Proof.
  rewrite groupPostsByTrends_cases. cbv zeta. case_decide.
  - intros Hg%subseteq_take. by rewrite sort_perm, Dict_entries_perm in Hg.
  - intros [_ Hg]%list_elem_of_filter. by rewrite Dict_entries_perm in Hg.
Qed.

Lemma groupPostsByTrends_NoDup posts : NoDup (groupPostsByTrends posts).*1.
Proof.
  assert (Hnd : NoDup (Dict.entries (groupsOf posts)).*1).
  { rewrite Dict_entries_perm. apply groupsOf_NoDup. }
  rewrite groupPostsByTrends_cases. cbv zeta. case_decide.
  - apply NoDup_keys_take. by rewrite sort_perm.
  - eapply sublist_NoDup; [exact Hnd|]. apply fmap_sublist, sublist_filter.
Qed.
End partition.

(** X13.  The groups formed by [groupPostsByTrends] partition the posts by
    group key: the group of a key is non-empty and holds exactly the posts
    with that key, in their original order, so every post is in the group of
    its key; and the groups returned have distinct keys and are such groups,
    never altered. *)
Theorem groups_partition_posts (posts : list TrendingPost) :
  let groups := TAS.groupsOf posts in
  (∀ key members,
      (key, members) ∈ groups ↔ members ≠ [] ∧ members = members_of key posts)
  ∧ (∀ post, post ∈ posts → ∃ members, (TAS.groupKey post, members) ∈ groups ∧ post ∈ members)
  ∧ NoDup (TAS.groupPostsByTrends posts).*1
  ∧ (∀ key members,
      (key, members) ∈ TAS.groupPostsByTrends posts →
      members ≠ [] ∧ members = members_of key posts).
Proof.
  cbv zeta. split; [apply groupsOf_elem|]. split.
  { intros post Hin. exists (members_of (TAS.groupKey post) posts).
    assert (post ∈ members_of (TAS.groupKey post) posts) as Hm.
    { unfold members_of. by apply list_elem_of_filter. }
    split; [|done]. apply groupsOf_elem. split; [|done].
    intros E. rewrite E in Hm. by apply elem_of_nil in Hm. }
  split; [apply groupPostsByTrends_NoDup|].
  intros key members Hin. by apply groupsOf_elem, groupPostsByTrends_sub.
Qed.

(** ** What the Twitter normalisation returns *)

Section twitter.
Import TrendingAnalysisService.

Lemma hasBasicQuality_quality now m tweet :
  hasBasicQuality (transformTweet now m tweet) = true →
  twitter_quality (transformTweet now m tweet).
Proof.
  unfold hasBasicQuality. rewrite !andb_true_iff, negb_true_iff, Nat.ltb_lt, Z.ltb_lt.
  intros [[[_ Hlen] Hname] Hscore]. repeat split; try done.
  intros E. rewrite E in Hname. done.
Qed.
End twitter.

(** X14.  [transformTwitterData] returns at most 100 posts, in descending
    order of engagement score; each is the normalization of a tweet of the
    response and passed the quality filter (positive score, known author,
    more than 5 characters); a tweet that passes the filter is left out only
    when 100 were returned, and then none of those scores lower.  Without
    [data] in the response it returns nothing. *)
Theorem transformTwitterData_best_100 (now : Z) (twitterData : TAS.TwitterData) :
  let tweets := default [] (TAS.data twitterData) in
  let normalize := TAS.transformTweet now (TAS.usersMap (default [] (TAS.users twitterData))) in
  let posts := TAS.transformTwitterData now twitterData in
  (length posts ≤ 100)%nat
  ∧ StronglySorted (higher engagement_score) posts
  ∧ Forall twitter_quality posts
  ∧ (∀ post, post ∈ posts → ∃ tweet, tweet ∈ tweets ∧ post = normalize tweet)
  ∧ (∀ tweet, tweet ∈ tweets → TAS.hasBasicQuality (normalize tweet) = true →
       normalize tweet ∉ posts →
       length posts = 100%nat
       ∧ ∀ post, post ∈ posts → engagement_score (normalize tweet) ≤ engagement_score post).
Proof.
  cbv zeta. unfold TAS.transformTwitterData.
  destruct (TAS.data twitterData) as [tweets|]; cbn [default].
  2:{ split; [simpl; lia|]. split; [constructor|]. split; [constructor|].
      split; intros ? ?%elem_of_nil; done. }
  set (m := TAS.usersMap _). unfold Array.slice0.
  set (candidates := List.filter TAS.hasBasicQuality (TAS.transformTweet now m <$> tweets)).
  set (sorted := Array.sort by_engagement_desc candidates).
  destruct (sort_by_engagement candidates) as [Hsorted Hperm]. fold sorted in Hsorted, Hperm.
  assert (Hcand : ∀ p, p ∈ sorted ↔
            TAS.hasBasicQuality p = true ∧ ∃ tweet, tweet ∈ tweets ∧ p = TAS.transformTweet now m tweet).
  { intros p. rewrite Hperm. unfold candidates. rewrite list_elem_of_In, filter_In.
    rewrite <- list_elem_of_In, list_elem_of_fmap. split.
    - intros [(tweet & -> & Hin) Hq]. split; [done|]. by exists tweet.
    - intros [Hq (tweet & Hin & ->)]. split; [|done]. by exists tweet. }
  split; [rewrite length_take; lia|].
  split.
  { rewrite <- (take_drop 100 sorted) in Hsorted.
    by apply StronglySorted_app in Hsorted as (_ & ? & _). }
  split.
  { apply Forall_forall. intros p Hp%subseteq_take. apply Hcand in Hp as [Hq (tweet & _ & ->)].
    by apply hasBasicQuality_quality. }
  split.
  { intros p Hp%subseteq_take. by apply Hcand in Hp as [_ ?]. }
  intros tweet Hin Hq Hout.
  assert (TAS.transformTweet now m tweet ∈ sorted) as Hs.
  { apply Hcand. split; [done|]. by exists tweet. }
  split.
  - rewrite length_take. destruct (decide (length sorted ≤ 100)%nat) as [Hle|]; [|lia].
    rewrite take_ge in Hout by done. done.
  - intros post Hp. by apply (take_sorted_rest _ 100 sorted post _ Hsorted).
Qed.

(** ** Aggregate scores *)

Section aggregate_scores.
Import TrendingAnalysisService.

Lemma Math_round_inject_Z (k : Z) : Math_round (inject_Z k) = k.
Proof.
  assert (inject_Z k == (1000 * k) # 1000)%Q as ->.
  { unfold Qeq, inject_Z. simpl. lia. }
  rewrite Math_round_thousandths.
  replace (1000 * k + 500) with (k * 1000 + 500) by lia.
  rewrite Z.div_add_l by lia. change (500 / 1000) with 0. lia.
Qed.

Lemma totalEngagement_ge posts lo :
  Forall (λ p, lo ≤ engagement_score p) posts →
  Z.of_nat (length posts) * lo ≤ totalEngagement posts.
Proof.
  unfold totalEngagement. intros Hall.
  assert (∀ acc, acc + Z.of_nat (length posts) * lo
                 ≤ foldl (λ sum post, sum + engagement_score post) acc posts) as H;
    [|specialize (H 0); lia].
  induction Hall as [|p posts Hp _ IH]; intros acc; simpl; [lia|].
  specialize (IH (acc + engagement_score p)). simpl in Hp. lia.
Qed.

Lemma totalEngagement_le posts hi :
  Forall (λ p, engagement_score p ≤ hi) posts →
  totalEngagement posts ≤ Z.of_nat (length posts) * hi.
Proof.
  unfold totalEngagement. intros Hall.
  assert (∀ acc, foldl (λ sum post, sum + engagement_score post) acc posts
                 ≤ acc + Z.of_nat (length posts) * hi) as H;
    [|specialize (H 0); lia].
  induction Hall as [|p posts Hp _ IH]; intros acc; simpl; [lia|].
  specialize (IH (acc + engagement_score p)). simpl in Hp. lia.
Qed.

(** The average of [n] numbers, divided by 100 as the scores do. *)
Lemma average_ge (total n lo : Z) :
  0 < n → n * lo ≤ total →
  (inject_Z lo / 100 <= inject_Z total / inject_Z n / 100)%Q.
Proof.
  intros Hn Hlo.
  assert (0 < inject_Z n)%Q as Hpos by (unfold Qlt, inject_Z; simpl; lia).
  apply Qmult_le_compat_r; [|done].
  apply Qle_shift_div_l; [done|]. rewrite <- inject_Z_mult, <- Zle_Qle. lia.
Qed.

Lemma average_le (total n hi : Z) :
  0 < n → total ≤ n * hi →
  (inject_Z total / inject_Z n / 100 <= inject_Z hi / 100)%Q.
Proof.
  intros Hn Hhi.
  assert (0 < inject_Z n)%Q as Hpos by (unfold Qlt, inject_Z; simpl; lia).
  apply Qmult_le_compat_r; [|done].
  apply Qle_shift_div_r; [done|]. rewrite <- inject_Z_mult, <- Zle_Qle. lia.
Qed.


Lemma Qmin_le_r x y : (Qmin x y <= y)%Q.
Proof.
  unfold Qmin. destruct (Qle_bool x y) eqn:E; [by apply Qle_bool_iff|apply Qle_refl].
Qed.

Lemma Qmin_ge x y z : (z <= x)%Q → (z <= y)%Q → (z <= Qmin x y)%Q.
Proof. unfold Qmin. by destruct (Qle_bool x y). Qed.
End aggregate_scores.

(** X15.  For a non-empty group whose engagement scores lie between [lo] and
    [hi], [calculateTrendingScore] lies between round(lo / 100) and
    round(hi / 100), both capped at 100; it is within 0..100 when no score
    is negative. *)
Theorem calculateTrendingScore_range (posts : list TrendingPost) (lo hi : Z) :
  posts ≠ [] →
  Forall (λ post, lo ≤ engagement_score post ≤ hi) posts →
  Z.min (Math_round (inject_Z lo / 100)) 100 ≤ TAS.calculateTrendingScore posts
  ∧ TAS.calculateTrendingScore posts ≤ Z.min (Math_round (inject_Z hi / 100)) 100
  ∧ (0 ≤ lo → 0 ≤ TAS.calculateTrendingScore posts ≤ 100).
Proof.
  intros Hne Hall. unfold TAS.calculateTrendingScore.
  rewrite decide_False by (by destruct posts). cbv zeta.
  assert (0 < Z.of_nat (length posts)) as Hn by (destruct posts; [done|simpl; lia]).
  assert (Hlo := average_ge _ _ lo Hn (totalEngagement_ge posts lo
                   (Forall_impl _ _ _ Hall (λ p H, proj1 H)))).
  assert (Hhi := average_le _ _ hi Hn (totalEngagement_le posts hi
                   (Forall_impl _ _ _ Hall (λ p H, proj2 H)))).
  apply Math_round_le in Hlo, Hhi.
  split; [lia|]. split; [lia|]. intros H0.
  assert (0 ≤ Math_round (inject_Z lo / 100)); [|lia].
  change 0 with (Math_round 0) at 1. apply Math_round_le.
  apply Qle_shift_div_l; [done|]. rewrite Qmult_0_l. change 0%Q with (inject_Z 0).
  by rewrite <- Zle_Qle.
Qed.

Lemma calculateTrendingScore_range_witness :
  0 ≤ TAS.calculateTrendingScore (RP.transformRedditData 0 two_children) ≤ 100.
Proof.
  refine (proj2 (proj2 (calculateTrendingScore_range
                          (RP.transformRedditData 0 two_children) 0 1000 _ _)) _).
  - done.
  - apply Forall_forall. intros post Hin. vm_compute in Hin.
    repeat (apply elem_of_cons in Hin as [->|Hin]; [vm_compute; split; congruence|]).
    by apply elem_of_nil in Hin.
  - lia.
Defined.

(** X16.  For posts without negative engagement scores,
    [calculateEnhancedViralityScore] is at least the diversity part
    min(5 * trends, 30) + min(8 * categories, 40) (capped at 100) and at most
    60 above it, and never above 100: engagement adds at most 40 and recent
    activity at most 20. *)
Theorem calculateEnhancedViralityScore_range {A B} (now : Z) (viralPosts : list TrendingPost)
    (trends : list A) (sortedCategories : list B) :
  viralPosts ≠ [] →
  Forall (λ post, 0 ≤ engagement_score post) viralPosts →
  let score := TAS.calculateEnhancedViralityScore now viralPosts trends sortedCategories in
  let base := diversity (length trends) (length sortedCategories) in
  Z.min base 100 ≤ score ∧ score ≤ Z.min (base + 60) 100.
Proof.
  intros Hne Hall. cbv zeta. unfold TAS.calculateEnhancedViralityScore, diversity.
  rewrite decide_False by (by destruct viralPosts). cbv zeta.
  set (recent := filter _ viralPosts).
  set (td := Z.min (Z.of_nat (length trends) * 5) 30).
  set (cd := Z.min (Z.of_nat (length sortedCategories) * 8) 40).
  set (rb := Z.min (Z.of_nat (length recent) * 2) 20).
  set (avg := (inject_Z (TAS.totalEngagement viralPosts) / _ / 100)%Q).
  assert (0 <= avg)%Q as Havg.
  { assert (0 < Z.of_nat (length viralPosts)) as Hn
      by (destruct viralPosts; [done|simpl; lia]).
    eapply Qle_trans; [|exact (average_ge _ _ 0 Hn (totalEngagement_ge viralPosts 0 Hall))].
    done. }
  assert (0 ≤ rb ≤ 20) as Hrb by (unfold rb; lia).
  assert (inject_Z (td + cd) <= TAS.Qmin avg 40 + inject_Z td + inject_Z cd + inject_Z rb)%Q as Hlo.
  { rewrite inject_Z_plus.
    assert (0 <= TAS.Qmin avg 40)%Q as H1 by (by apply Qmin_ge).
    assert (0 <= inject_Z rb)%Q as H2 by (change 0%Q with (inject_Z 0); rewrite <- Zle_Qle; lia).
    rewrite <- (Qplus_0_r (inject_Z td + inject_Z cd)), <- (Qplus_0_l (inject_Z td + inject_Z cd + 0)).
    rewrite <- !Qplus_assoc. apply Qplus_le_compat; [done|].
    rewrite !Qplus_assoc. apply Qplus_le_compat; [apply Qle_refl|done]. }
  assert (TAS.Qmin avg 40 + inject_Z td + inject_Z cd + inject_Z rb <= inject_Z (40 + td + cd + 20))%Q as Hhi.
  { rewrite !inject_Z_plus. repeat apply Qplus_le_compat; try apply Qle_refl.
    - apply Qmin_le_r.
    - rewrite <- Zle_Qle. lia. }
  apply Math_round_le in Hlo, Hhi. rewrite Math_round_inject_Z in Hlo, Hhi.
  lia.
Qed.

Lemma calculateEnhancedViralityScore_range_witness :
  let score :=
    TAS.calculateEnhancedViralityScore 0 (RP.transformRedditData 0 two_children)
      [1; 2; 3] [1; 2] in
  Z.min 31 100 ≤ score ∧ score ≤ Z.min (31 + 60) 100.
Proof.
  apply (calculateEnhancedViralityScore_range 0 (RP.transformRedditData 0 two_children)
           [1; 2; 3] [1; 2]).
  - done.
  - apply Forall_forall. intros post Hin. vm_compute in Hin.
    repeat (apply elem_of_cons in Hin as [->|Hin]; [vm_compute; congruence|]).
    by apply elem_of_nil in Hin.
Defined.



(** ** The Reddit score over time *)

Section reddit_score.
Import RedditProvider.

(** The score is the rounding of a sum that does not depend on the clock
    and of the recency bonus. *)
Lemma calculateEngagementScore_sum post :
  ∃ settled : Q, ∀ now,
    calculateEngagementScore now post
    = Math_round (Double.add settled (calculateRecencyBonus now (created_utc post))).
Proof. eexists. intros now. reflexivity. Qed.

Lemma valid_ratio post :
  isValidPost post = true → (Double.literal (6 # 10) < ratio post)%Q.
Proof.
  unfold isValidPost. rewrite !andb_true_iff. intros [[[[_ Hr] _] _] _].
  unfold Qltb in Hr. apply negb_true_iff in Hr.
  apply Qnot_le_lt. intros Hle%Qle_bool_iff. congruence.
Qed.

Lemma valid_counters post : isValidPost post = true → 50 < score post ∧ 5 < num_comments post.
Proof.
  unfold isValidPost. rewrite !andb_true_iff, !Z.ltb_lt. tauto.
Qed.

(** A rounded number that rounds to an integer below [2^51] in absolute
    value is itself below [2^52]. *)
Lemma Math_round_small_above (x : Q) :
  Math_round (Double.round x) < 2 ^ 51 → (x < 2 ^ 52)%Q.
Proof.
  intros Hs. apply Qnot_le_lt. intros Hge.
  apply round_mono, Math_round_le in Hge.
  assert (Math_round (Double.round (2 ^ 52)) = 2 ^ 52) as Heq by by vm_compute.
  rewrite Heq in Hge. lia.
Qed.

Lemma Math_round_small_below (x : Q) :
  - 2 ^ 51 < Math_round (Double.round x) → (- 2 ^ 52 < x)%Q.
Proof.
  intros Hs. apply Qnot_le_lt. intros Hle.
  apply round_mono, Math_round_le in Hle.
  assert (Math_round (Double.round (- 2 ^ 52)) = - 2 ^ 52) as Heq by by vm_compute.
  rewrite Heq in Hle. lia.
Qed.
End reddit_score.

(** X17.  The Reddit engagement score of a post never rises as time
    passes: read later it is no higher.  It no longer changes once the post
    is more than 12 hours old (publication times being less than [2^40]
    seconds from the epoch).  Between two readings it drops by at most 101,
    the 100 of the recency bonus and 1 of rounding, as long as the scores
    stay below [2^51] in absolute value. *)
Theorem reddit_score_decays (now later : Z) (post : RP.RedditPost) :
  now ≤ later →
  RP.calculateEngagementScore later post ≤ RP.calculateEngagementScore now post
  ∧ (Z.abs (RP.created_utc post) < 2 ^ 40 →
     RP.created_utc post * 1000 + 12 * 3600000 < now →
     RP.calculateEngagementScore later post = RP.calculateEngagementScore now post)
  ∧ (RP.calculateEngagementScore now post < 2 ^ 51 →
     - 2 ^ 51 < RP.calculateEngagementScore later post →
     RP.calculateEngagementScore now post ≤ RP.calculateEngagementScore later post + 101).
Proof.
  intros Hle.
  destruct (calculateEngagementScore_sum post) as [settled Hscore].
  rewrite !Hscore.
  pose proof (calculateRecencyBonus_decays now later (RP.created_utc post) Hle) as Hdecay.
  pose proof (calculateRecencyBonus_range now (RP.created_utc post)) as Hnow.
  pose proof (calculateRecencyBonus_range later (RP.created_utc post)) as Hlater.
  split; [|split].
  - apply Math_round_le, add_mono; [apply Qle_refl|done].
  - intros Hc Hold. rewrite !calculateRecencyBonus_steps by done.
    unfold recency_bonus. rewrite !decide_False by lia. done.
  - set (b1 := RP.calculateRecencyBonus now (RP.created_utc post)) in *.
    set (b2 := RP.calculateRecencyBonus later (RP.created_utc post)) in *.
    unfold Double.add. intros Hhi Hlo.
    apply Math_round_small_above in Hhi. apply Math_round_small_below in Hlo.
    change (2 ^ 52)%Q with 4503599627370496%Q in *.
    assert (Qabs (settled + b1) < 4503599627370496)%Q as H1.
    { apply Qabs_Qlt_condition. split; lra. }
    assert (Qabs (settled + b2) < 4503599627370496)%Q as H2.
    { apply Qabs_Qlt_condition. split; lra. }
    apply round_near_quarter in H1 as [_ H1]%Qabs_Qle_condition.
    apply round_near_quarter in H2 as [H2 _]%Qabs_Qle_condition.
    unfold Math_round.
    pose proof (Qfloor_le (Double.round (settled + b1) + (1 # 2))) as Hf1.
    pose proof (Qlt_floor (Double.round (settled + b2) + (1 # 2))) as Hf2.
    set (s1 := Qfloor (Double.round (settled + b1) + (1 # 2))) in *.
    set (s2 := Qfloor (Double.round (settled + b2) + (1 # 2))) in *.
    assert (s1 < s2 + 102); [|lia].
    rewrite Zlt_Qlt, !inject_Z_plus. rewrite inject_Z_plus in Hf2.
    change (inject_Z 102) with 102%Q. change (inject_Z 1) with 1%Q in Hf2. lra.
Qed.

Lemma reddit_score_decays_witness :
  0 ≤ 7200001
  ∧ RP.calculateEngagementScore 7200001 (sample_post "a" (9 # 10))
    ≤ RP.calculateEngagementScore 0 (sample_post "a" (9 # 10))
  ∧ RP.calculateEngagementScore 0 (sample_post "a" (9 # 10))
    ≤ RP.calculateEngagementScore 7200001 (sample_post "a" (9 # 10)) + 101.
Proof.
  split; [lia|].
  destruct (reddit_score_decays 0 7200001 (sample_post "a" (9 # 10)) ltac:(lia))
    as (Hlower & _ & Hdrop).
  split; [exact Hlower|]. apply Hdrop; by vm_compute.
Defined.

(** The drop of 101 happens: 150 upvotes at a ratio of 0.69 and 6 comments
    score 222 in the first two hours and 121 after twelve. *)
Example reddit_score_drops_101 :
  let post := with_counter Upvotes 150 (with_counter Comments 6 (sample_post "a" (69 # 100))) in
  RP.calculateEngagementScore 0 post
  = RP.calculateEngagementScore (13 * 3600000) post + 101.
Proof. by vm_compute. Qed.

(** X18.  A post that passes [isValidPost] is normalized with an engagement
    score of at least 49, at any clock reading. *)
Theorem valid_reddit_score_floor (now : Z) (post : RP.RedditPost) :
  RP.isValidPost post = true →
  49 ≤ engagement_score (RP.transformPost now post).
Proof.
  intros Hv. cbn [engagement_score RP.transformPost].
  pose proof (valid_ratio post Hv) as Hr. destruct (valid_counters post Hv) as [Hs Hc].
  unfold RP.calculateEngagementScore. cbv zeta.
  assert (0 <= Double.literal (6 # 10))%Q as H06 by by vm_compute.
  assert (RP.num_or (RP.ratio post) (Double.literal (1 # 2)) = RP.ratio post) as ->.
  { unfold RP.num_or. destruct (Qeq_bool _ 0) eqn:E; [|done].
    apply Qeq_bool_iff in E. rewrite E in Hr. lra. }
  assert (Double.mul 51 (Double.literal (6 # 10))
          <= Double.mul (inject_Z (RP.score post)) (RP.ratio post))%Q as H1.
  { apply round_mono. apply Qmult_le_compat_nonneg.
    - split; [done|]. change 51%Q with (inject_Z 51). rewrite <- Zle_Qle. lia.
    - split; [done|]. by apply Qlt_le_weak. }
  assert (18 <= inject_Z (RP.num_comments post * 3))%Q as H2.
  { change 18%Q with (inject_Z 18). rewrite <- Zle_Qle. lia. }
  assert (0 <= (if RP.Qltb (Double.literal (8 # 10)) (RP.num_or (RP.ratio post) 0)
                then Double.mul (inject_Z (RP.score post)) (Double.literal (1 # 2))
                else 0))%Q as H3.
  { destruct (RP.Qltb _ _); [|done]. apply round_nonneg.
    apply Qmult_le_0_compat; [|by vm_compute].
    change 0%Q with (inject_Z 0). rewrite <- Zle_Qle. lia. }
  assert (0 <= RP.calculateRecencyBonus now (RP.created_utc post))%Q as H4.
  { apply calculateRecencyBonus_range. }
  assert (49 ≤ Math_round
                 (Double.add
                    (Double.add (Double.add (Double.mul 51 (Double.literal (6 # 10))) 18) 0)
                    0)) as Hfloor by by vm_compute.
  etrans; [exact Hfloor|].
  apply Math_round_le.
  apply add_mono; [apply add_mono; [apply add_mono; [exact H1|exact H2]|exact H3]|exact H4].
Qed.

Lemma valid_reddit_score_floor_witness :
  RP.isValidPost (sample_post "a" (9 # 10)) = true
  ∧ 49 ≤ engagement_score (RP.transformPost 0 (sample_post "a" (9 # 10))).
Proof.
  split; [reflexivity|].
  apply (valid_reddit_score_floor 0 (sample_post "a" (9 # 10))). reflexivity.
Defined.

(** ** Several subreddits *)

Section multi.
Import RateLimit RedditProvider.

Lemma collect_never_throws fuel srv subs m : ∀ e acc,
  is_thrown (collect fuel srv e subs m acc) = false.
Proof.
  induction subs as [|sub subs IH]; intros e acc; simpl; [done|].
  destruct (fetchMaxViralPosts fuel srv e sub m); [done|apply IH|apply IH].
Qed.

Lemma collect_terminates fuel srv subs m : ∀ e acc,
  never_429 srv → (10 ≤ fuel)%nat →
  ∃ e' posts, collect fuel srv e subs m acc = Returned e' posts
              ∧ (sent e' ≤ sent e + 10 * length subs)%nat.
Proof.
  induction subs as [|sub subs IH]; intros e acc Hsrv Hfuel; simpl.
  - exists e, acc. split; [done|lia].
  - destruct (fetchMaxViralPosts_bound fuel srv e sub m Hsrv Hfuel) as (Hp & Hs).
    destruct (fetchMaxViralPosts fuel srv e sub m) as [e1|e1 posts|e1]; [done| |];
      simpl in Hs.
    + destruct (IH e1 (acc ++ posts) Hsrv Hfuel) as (e' & ps & -> & Hb).
      exists e', ps. split; [done|lia].
    + destruct (IH e1 acc Hsrv Hfuel) as (e' & ps & -> & Hb).
      exists e', ps. split; [done|lia].
Qed.
End multi.

(** X19.  Against a server that never answers HTTP 429, and be it one that
    rejects every request, [fetchMultiViralContent] returns (ten iterations
    per subreddit are enough) after at most 10 requests per subreddit. *)
Theorem fetchMultiViralContent_survives_rejections (fuel : nat) (srv : RP.Server)
    (e : RP.Env) (subreddits : list string) (maxPostsPerSubreddit : Z) :
  never_429 srv → (10 ≤ fuel)%nat →
  ∃ e' posts,
    RP.fetchMultiViralContent fuel srv e subreddits maxPostsPerSubreddit = RP.Returned e' posts
    ∧ (RP.sent e' ≤ RP.sent e + 10 * length subreddits)%nat.
Proof.
  intros Hsrv Hfuel. unfold RP.fetchMultiViralContent.
  destruct (collect_terminates fuel srv subreddits maxPostsPerSubreddit e [] Hsrv Hfuel)
    as (e' & posts & -> & Hb).
  by eexists _, _.
Qed.

Lemma fetchMultiViralContent_survives_rejections_witness :
  ∃ e' posts,
    RP.fetchMultiViralContent 10 unreachable (fresh 0) ["pics"; "news"] 1000
      = RP.Returned e' posts
    ∧ (RP.sent e' ≤ RP.sent (fresh 0) + 10 * length ["pics"; "news"])%nat.
Proof.
  apply (fetchMultiViralContent_survives_rejections 10 unreachable (fresh 0)
           ["pics"; "news"] 1000).
  - intros n. done.
  - lia.
Defined.

(** X20.  [fetchMultiViralContent] never throws: a subreddit whose fetch
    throws is skipped. *)
Theorem fetchMultiViralContent_never_throws (fuel : nat) (srv : RP.Server)
    (e : RP.Env) (subreddits : list string) (maxPostsPerSubreddit : Z) :
  is_thrown (RP.fetchMultiViralContent fuel srv e subreddits maxPostsPerSubreddit) = false.
Proof.
  unfold RP.fetchMultiViralContent.
  pose proof (collect_never_throws fuel srv subreddits maxPostsPerSubreddit e []) as H.
  by destruct (RP.collect _ _ _ _ _ _).
Qed.

(** ** The discovery route *)

Section route.
Import DiscoverRoute.




End route.



(** ** Subreddit and post id *)

Section round_trip.
Local Open Scope string_scope.

Lemma before_underscore_app a b :
  Text.before_underscore (a ++ "_" ++ b) = Text.before_underscore a.
Proof.
  induction a as [|c a IH]; simpl; [done|].
  destruct (Ascii.eqb c "_"); [done|]. by rewrite IH.
Qed.

Lemma before_underscore_id a : Text.includes a "_" = false → Text.before_underscore a = a.
Proof.
  induction a as [|c a IH]; [done|]. cbn [Text.includes Text.before_underscore].
  intros [Hp Hi]%orb_false_iff. rewrite IH by done.
  destruct (Ascii.eqb_spec c "_") as [->|]; [|done]. simpl in Hp. by destruct a.
Qed.
End round_trip.

(** X22.  The subreddit of a normalized Reddit post is recovered from its
    [platform_post_id] by [split('_')[0]], as the grouping and the logging
    do, provided the subreddit's name has no underscore. *)
Theorem subreddit_recovered_from_post_id (now : Z) (post : RP.RedditPost) :
  Text.includes (RP.subreddit post) "_" = false →
  Text.before_underscore (platform_post_id (RP.transformPost now post)) = RP.subreddit post.
Proof.
  intros Hs. cbn [platform_post_id RP.transformPost].
  by rewrite before_underscore_app, before_underscore_id.
Qed.

Lemma subreddit_recovered_from_post_id_witness :
  Text.before_underscore (platform_post_id (RP.transformPost 0 (sample_post "a" (9 # 10))))
  = "pics"%string.
Proof. apply (subreddit_recovered_from_post_id 0 (sample_post "a" (9 # 10))). reflexivity. Defined.

(** ** Tags and media of a Reddit post *)

Section reddit_fields.
Import RedditProvider.
Local Open Scope string_scope.

Lemma unescape_amp_truthy s : Text.truthy s = true → Text.truthy (Text.unescape_amp s 0) = true.
Proof.
  destruct s as [|c s]; [done|]. intros _. cbn [Text.unescape_amp].
  by destruct (String.prefix _ _).
Qed.

Lemma extractMediaUrls_shape post :
  (length (extractMediaUrls post) ≤ 4)%nat
  ∧ Forall (λ u, Text.truthy u = true) (extractMediaUrls post).
Proof.
  unfold extractMediaUrls. cbv zeta. rewrite !length_app, !Forall_app.
  destruct (Text.truthy (url post)) eqn:Hu; cbn [andb];
    [destruct (_ || _)|];
    (destruct (media post) as [m|]; [destruct (Text.truthy m) eqn:Hm|]);
    (destruct (preview post) as [p|];
       [destruct (Text.truthy p) eqn:Hp; [apply unescape_amp_truthy in Hp|]|]);
    (destruct (Text.truthy (thumbnail post)) eqn:Ht; cbn [andb];
       [destruct (Text.startsWith _ _)|]);
    (split; [simpl; lia|repeat split; repeat constructor; done]).
Qed.

Lemma valid_subreddit post : isValidPost post = true → Text.truthy (subreddit post) = true.
Proof. unfold isValidPost. rewrite !andb_true_iff. tauto. Qed.
End reddit_fields.

(** X23.  A post that passes [isValidPost] is normalized with [#] plus the
    lower-cased subreddit as its first hashtag, hashtags of the form [#] plus
    at least one character, mentions of the form [u/] plus at least one
    character, and at most 4 media URLs, none of them empty. *)
Theorem transformPost_tags_and_media (now : Z) (post : RP.RedditPost) :
  RP.isValidPost post = true →
  let normalized := RP.transformPost now post in
  head (hashtags normalized) = Some ("#" ++ Text.toLowerCase (RP.subreddit post))%string
  ∧ Forall (tag_shaped "#") (hashtags normalized)
  ∧ Forall (tag_shaped "u/") (mentions normalized)
  ∧ (length (media_urls normalized) ≤ 4)%nat
  ∧ Forall (λ u, Text.truthy u = true) (media_urls normalized).
Proof.
  intros Hv. cbv zeta. cbn [hashtags mentions media_urls RP.transformPost].
  split; [done|]. split.
  { constructor; [|apply match_tags_shape]. split; [apply prefix_app|].
    apply valid_subreddit, truthy_length in Hv.
    rewrite length_app_string, toLowerCase_length. simpl. lia. }
  split; [apply match_tags_shape|]. apply extractMediaUrls_shape.
Qed.

Lemma transformPost_tags_and_media_witness :
  let normalized := RP.transformPost 0 (sample_post "a" (9 # 10)) in
  head (hashtags normalized) = Some "#pics"%string
  ∧ Forall (tag_shaped "#") (hashtags normalized)
  ∧ Forall (tag_shaped "u/") (mentions normalized)
  ∧ (length (media_urls normalized) ≤ 4)%nat
  ∧ Forall (λ u, Text.truthy u = true) (media_urls normalized).
Proof. apply (transformPost_tags_and_media 0 (sample_post "a" (9 # 10))). reflexivity. Defined.

(** ** How long the limiter waits *)

Section waits.
Import RateLimit.

Lemma behind_clock_checkRateLimit w : behind_clock w → behind_clock (checkRateLimit w).
Proof.
  intros [Hts Hlast]. pose proof (checkRateLimit_clock_ge w) as Hge.
  split; [|by rewrite checkRateLimit_last].
  rewrite checkRateLimit_timestamps. apply Forall_app. split; [|by repeat constructor].
  apply Forall_forall. intros t [_ Ht]%list_elem_of_filter.
  rewrite Forall_forall in Hts. specialize (Hts t Ht). lia.
Qed.

Lemma behind_clock_run ops : ∀ w recorded,
  behind_clock w → behind_clock (run ops w recorded).1.
Proof.
  induction ops as [|[d|] ops IH]; intros w recorded Hw; simpl; [done| |].
  - apply IH. destruct Hw as [Hts Hlast]. split; simpl; [|lia].
    eapply Forall_impl; [exact Hts|]. intros t Ht. simpl in Ht. lia.
  - by apply IH, behind_clock_checkRateLimit.
Qed.

Lemma at_index_le (ts : list Z) i c :
  Forall (λ t, t ≤ c) ts → (i < length ts)%nat → at_index ts i ≤ c.
Proof.
  intros Hts Hi. unfold at_index.
  destruct (lookup_lt_is_Some_2 ts i Hi) as [t Ht]. rewrite Ht. simpl.
  rewrite Forall_forall in Hts. apply Hts. by eapply list_elem_of_lookup_2.
Qed.

Lemma checkRateLimit_wait w :
  behind_clock w → clock (checkRateLimit w) ≤ clock w + 660600.
Proof.
  intros [Hts Hlast]. unfold checkRateLimit. cbn -[filter Z.mul].
  set (ts := filter _ (requestTimestamps w)).
  assert (Forall (λ t, t ≤ clock w) ts) as Hts'.
  { apply Forall_forall. intros t [_ Ht]%list_elem_of_filter.
    rewrite Forall_forall in Hts. by apply Hts. }
  pose proof (length_filter (λ timestamp, clock w - timestamp < 60 * 1000) ts) as Hlen.
  unfold MAX_REQUESTS_PER_MINUTE, MAX_REQUESTS_PER_10_MIN.
  repeat case_decide; rewrite ?sleep_clock;
    try (pose proof (at_index_le ts (length ts - 100) (clock w) Hts' ltac:(lia)));
    try (pose proof (at_index_le ts 0 (clock w) Hts' ltac:(lia)));
    lia.
Qed.
End waits.

(** X24.  In any state the limiter reaches from its initial state at a
    non-negative clock reading, by requests and time passing, a call of
    [checkRateLimit] never moves the clock backwards and returns within
    660600 ms (60 s, 600 s and 600 ms, the three waits at their longest). *)
Theorem checkRateLimit_wait_bounded (ops : list RateLimit.Op) (start : Z) :
  0 ≤ start →
  let w := (RateLimit.run ops (RateLimit.initial start) []).1 in
  RateLimit.clock w ≤ RateLimit.clock (RateLimit.checkRateLimit w)
  ∧ RateLimit.clock (RateLimit.checkRateLimit w) ≤ RateLimit.clock w + 660600.
Proof.
  intros Hstart w. split; [apply checkRateLimit_clock_ge|].
  apply checkRateLimit_wait, behind_clock_run. split; [constructor|done].
Qed.

Lemma checkRateLimit_wait_bounded_witness :
  let w := (RateLimit.run (replicate 101 RateLimit.Acquire) (RateLimit.initial 0) []).1 in
  RateLimit.clock w ≤ RateLimit.clock (RateLimit.checkRateLimit w)
  ∧ RateLimit.clock (RateLimit.checkRateLimit w) ≤ RateLimit.clock w + 660600.
Proof. apply (checkRateLimit_wait_bounded (replicate 101 RateLimit.Acquire) 0). lia. Defined.

(** ** Pagination *)

Section pagination.
Import RateLimit RedditProvider.

Lemma requests_cons_request s p c evs :
  requests (Request s p c :: evs) = requests evs ++ [(s, p, c)].
Proof. unfold requests. simpl. by rewrite reverse_cons. Qed.

Lemma requests_cons_backoff ms evs : requests (Backoff ms :: evs) = requests evs.
Proof. done. Qed.

(** The requests of a run of the loop: the [i]-th of them is for the page
    and with the cursor held after the replies before it. *)
Lemma pages_requests fuel : ∀ srv sub pn e l,
  ∃ k, sent (run_env (pages fuel srv sub pn e l)) = (sent e + k)%nat
       ∧ requests (events (run_env (pages fuel srv sub pn e l)))
         = requests (events e)
           ++ ((λ i, let pos := position_after srv (sent e) i (page l, after l) in
                     (sub, pos.1, pos.2)) <$> seq 0 k).
Proof.
  induction fuel as [|fuel IH]; intros srv sub pn e l; simpl.
  - exists 0%nat. case_decide; simpl; by rewrite app_nil_r, Nat.add_0_r.
  - case_decide; [|exists 0%nat; simpl; by rewrite app_nil_r, Nat.add_0_r].
    unfold iteration.
    assert (Hone : ∀ evs : list Event,
              requests (Request sub (page l) (after l) :: evs)
              = requests evs ++ ((λ i, let pos := position_after srv (sent e) i (page l, after l) in
                     (sub, pos.1, pos.2)) <$> seq 0 1)).
    { intros evs. by rewrite requests_cons_request. }
    destruct (response (srv (sent e))) as [|code|children cursor] eqn:Hr.
    + exists 1%nat. simpl. split; [lia|apply Hone].
    + case_decide; [|exists 1%nat; simpl; split; [lia|apply Hone]].
      lazymatch goal with
      | |- context [pages fuel srv sub pn ?e' ?l'] =>
          destruct (IH srv sub pn e' l') as (k & Hs & Hq)
      end.
      exists (S k). rewrite Hs, Hq. cbn [sent events page after].
      split; [lia|].
      rewrite requests_cons_backoff, requests_cons_request, <- app_assoc. f_equal.
      cbn [seq fmap list_fmap app position_after]. f_equal.
      rewrite <- seq_shift, <- list_fmap_compose. apply list_fmap_ext.
      intros _ i _. cbn [compose position_after]. rewrite Hr. cbn [after_reply].
      by replace (page l - 1 + 1) with (page l) by lia.
    + case_decide as Hc; [exists 1%nat; simpl; split; [lia|apply Hone]|].
      destruct (cursor_or_null cursor) as [a|] eqn:Ha;
        [|exists 1%nat; simpl; split; [lia|apply Hone]].
      lazymatch goal with
      | |- context [pages fuel srv sub pn ?e' ?l'] =>
          destruct (IH srv sub pn e' l') as (k & Hs & Hq)
      end.
      exists (S k). rewrite Hs, Hq. cbn [sent events page after].
      split; [lia|].
      rewrite requests_cons_request, <- app_assoc. f_equal.
      cbn [seq fmap list_fmap app position_after]. f_equal.
      rewrite <- seq_shift, <- list_fmap_compose. apply list_fmap_ext.
      intros _ i _. cbn [compose position_after]. rewrite Hr. cbn [after_reply].
      rewrite decide_False by done. by rewrite Ha.
Qed.
End pagination.

Section pagination_range.
Import RateLimit RedditProvider.

Lemma pages_in_range fuel : ∀ srv sub pn e l,
  0 ≤ page l →
  Forall (λ r, 0 ≤ r.1.2 < pn) (requests (events e)) →
  Forall (λ r, 0 ≤ r.1.2 < pn) (requests (events (run_env (pages fuel srv sub pn e l)))).
Proof.
  induction fuel as [|fuel IH]; intros srv sub pn e l Hl He; simpl.
  - by case_decide.
  - case_decide as Hp; [|done].
    assert (Hone : Forall (λ r, 0 ≤ r.1.2 < pn)
                     (requests (Request sub (page l) (after l) :: events e))).
    { rewrite requests_cons_request. apply Forall_app. split; [done|].
      repeat constructor; simpl; lia. }
    unfold iteration.
    destruct (response (srv (sent e))) as [|code|children cursor]; [done| |].
    + case_decide; [|done]. apply IH; [simpl; lia|done].
    + case_decide; [done|]. destruct (cursor_or_null cursor); [|done].
      apply IH; [simpl; lia|done].
Qed.
End pagination_range.

(** X25.  The requests of a [fetchMaxViralPosts] follow the listing: the
    first asks for page 0 without a cursor, and each later one for the page
    and with the cursor held after the replies before it, where a non-empty
    listing moves the page on by one and replaces the cursor and an HTTP 429
    changes neither; every request is for the given subreddit and for a page
    index from 0 up to, and excluding, the page budget, which is at most
    10. *)
Theorem fetchMaxViralPosts_follows_cursor (fuel : nat) (srv : RP.Server) (start : Z)
    (sub : string) (maxItems : Z) :
  let e' := outcome_env (RP.fetchMaxViralPosts fuel srv (fresh start) sub maxItems) in
  requests (RP.events e')
  = (λ i, let position := position_after srv 0 i (0, None) in
          (sub, position.1, position.2)) <$> seq 0 (RP.sent e')
  ∧ Forall (λ r, 0 ≤ r.1.2 < RP.pagesNeededFor maxItems ∧ r.1.2 < 10) (requests (RP.events e')).
Proof.
  cbv zeta.
  assert (He' : outcome_env (RP.fetchMaxViralPosts fuel srv (fresh start) sub maxItems)
                = run_env (RP.pages fuel srv sub (RP.pagesNeededFor maxItems) (fresh start)
                             {| RP.page := 0; RP.after := None; RP.allPosts := [] |})).
  { unfold RP.fetchMaxViralPosts. by destruct (RP.pages _ _ _ _ _ _). }
  rewrite He'. split.
  - destruct (pages_requests fuel srv sub (RP.pagesNeededFor maxItems) (fresh start)
                {| RP.page := 0; RP.after := None; RP.allPosts := [] |}) as (k & Hs & Hq).
    rewrite Hs, Hq. done.
  - pose proof (pagesNeededFor_bounds maxItems) as [Hpn _].
    eapply Forall_impl.
    + apply pages_in_range; [done|constructor].
    + intros r Hr. simpl in Hr. lia.
Qed.

(** X26.  On normalized posts, be they from Reddit, from Twitter or mixed,
    every group [groupPostsByTrends] returns is keyed by one of the eight
    category labels or by a hashtag ([#] plus at least one character), and
    holds normalized posts only. *)
Theorem groups_of_normalized_posts (posts : list TrendingPost) :
  Forall normalized posts →
  Forall (λ g, (g.1 ∈ category_labels ∨ tag_shaped "#" g.1) ∧ Forall normalized g.2)
         (TAS.groupPostsByTrends posts).
Proof.
  intros Hn. apply Forall_forall. intros [key members] Hin.
  apply groupPostsByTrends_sub, groupsOf_elem in Hin as [Hne ->]. cbn [fst snd].
  assert (Hsub : ∀ p, p ∈ members_of key posts → normalized p ∧ TAS.groupKey p = key).
  { intros p [Hk Hp]%list_elem_of_filter. split; [|done].
    rewrite Forall_forall in Hn. by apply Hn. }
  split.
  - destruct (members_of key posts) as [|p ps]; [done|].
    destruct (Hsub p) as [Hp <-]; [left|]. by apply groupKey_normalized.
  - apply Forall_forall. intros p Hp. by apply Hsub.
Qed.

Lemma groups_of_normalized_posts_witness :
  Forall (λ g, (g.1 ∈ category_labels ∨ tag_shaped "#" g.1) ∧ Forall normalized g.2)
         (TAS.groupPostsByTrends mixed_feed).
Proof.
  apply (groups_of_normalized_posts mixed_feed).
  apply Forall_cons. split; [left; by eexists _, _|].
  apply Forall_cons. split; [right; by eexists _, _, _|].
  apply Forall_nil_2.
Defined.
